(** * Star-map: seeded scene generator, composed scene, snapshot codec
      and the two renderers, embedded from the TypeScript sources.

    Numbers.  A JavaScript [number] is modelled by an exact rational [Q],
    and by [Z] where the source only ever holds an integer (seeds,
    generator state, array lengths and indices).  The 32-bit operators
    ([|], [^], [<<], [>>>], [Math.imul]) are written out with their
    ToInt32 / ToUint32 wrap-around.  The state [t] of a [mulberry32]
    closure grows by 0x6d2b79f5 per call without wrapping, as in the
    source; it is kept as an exact integer, which a double holds for the
    first 2^21 calls of a closure (no closure here is called more than a
    few thousand times).  Arithmetic on [Q] is exact, so the model agrees
    with IEEE doubles wherever the double result is exact (every value a
    closure returns, the orbit radii, sizes, counts and clamps) and
    idealises the rounding of the remaining products and sums.
    [Math.cos] and [Math.sin], which ECMAScript leaves
    implementation-approximated, the canvas's [measureText] and the
    completeness of a new image are taken from a host class.

    React.  A [useMemo] or [useCallback] value whose dependency list
    names everything its body reads is a plain function of the state or
    props.  Three lists leave something out, and there the stale input
    is explicit: [moonData] and [beltsData] of StarSvg omit the size of
    the surface, and [renderScene] of StarCanvas omits
    [showLabelBackground]. *)

From Stdlib Require Import ZArith QArith Qround Qminmax Qabs Lia Lqa List String Ascii Bool.
From Stdlib Require Import Sorting.Sorted.
From stdpp Require Import base option list gmap strings pretty.

Open Scope Z_scope.

(** ** lib/rng: deterministic PRNG utilities *)

Module Rng.

Definition two32 : Z := 4294967296.

(** ToUint32 and ToInt32 of an integer-valued number. *)
Definition toUint32 (z : Z) : Z := z mod two32.
Definition toInt32 (z : Z) : Z := (z + 2147483648) mod two32 - 2147483648.

(** [a ^ b], [a | b], [a >>> k], [a << k], [Math.imul(a, b)]. *)
Definition xor32 (a b : Z) : Z := Z.lxor (toInt32 a) (toInt32 b).
Definition or32 (a b : Z) : Z := Z.lor (toInt32 a) (toInt32 b).
Definition ushr32 (a k : Z) : Z := Z.shiftr (toUint32 a) k.
Definition shl32 (a k : Z) : Z := toInt32 (Z.shiftl (toInt32 a) k).
Definition imul (a b : Z) : Z := toInt32 (toInt32 a * toInt32 b).

(** The closure returned by [mulberry32] owns one mutable number [t];
    a generator is that number.  [mulberry32 seed] is the initial state
    [seed >>> 0]. *)
Definition gen := Z.

Definition mulberry32 (seed : Z) : gen := ushr32 seed 0.

(** The numerator of one call's result: the unsigned word that the
    closure divides by 4294967296. *)
Definition output (t : Z) : Z :=
  let r := imul (xor32 t (ushr32 t 15)) (or32 t 1) in
  let r := xor32 r (r + imul (xor32 r (ushr32 r 7)) (or32 r 61)) in
  ushr32 (xor32 r (ushr32 r 14)) 0.

(** One call of the closure: the new state and the value in [Q]. *)
Definition next (t : gen) : Q * gen :=
  let t := t + 0x6d2b79f5 in
  (output t # 4294967296, t)%Q.

Definition mixStep (h p : Z) : Z :=
  let x := xor32 (or32 p 0) (ushr32 h 16) in
  let x := imul x 0x45d9f3b in
  let x := xor32 x (ushr32 x 16) in
  let x := imul x 0x45d9f3b in
  let x := xor32 x (ushr32 x 16) in
  xor32 h (x + 0x7feb352d + shl32 h 6 + ushr32 h 2).

Definition mixSeed (parts : list Z) : Z :=
  ushr32 (fold_left mixStep parts 0x9e3779b9) 0.

(** A small state monad for code that calls one closure repeatedly. *)
Definition Gen (A : Type) : Type := gen -> A * gen.
Definition ret {A} (a : A) : Gen A := fun t => (a, t).
Definition bind {A B} (m : Gen A) (k : A -> Gen B) : Gen B :=
  fun t => let (a, t') := m t in k a t'.
Definition call : Gen Q := next.
Definition evalGen {A} (m : Gen A) (t : gen) : A := fst (m t).

(** The first [k] values of a closure. *)
Fixpoint draws (k : nat) (t : gen) : list Q :=
  match k with
  | O => []
  | S k' => let (v, t') := next t in v :: draws k' t'
  end.

End Rng.

Notation "'let*' x ':=' m 'in' k" := (Rng.bind m (fun x => k))
  (at level 10, x name, m at level 100, k at level 200).

(** ** Numbers *)

Definition Math_PI : Q := 884279719003555 # 281474976710656.

Definition Math_floor (q : Q) : Q := inject_Z (Qfloor q).

Definition Qltb (a b : Q) : bool := negb (Qle_bool b a).

(** [a[i]] for a number index that is an integer: out of range (or
    negative) is [undefined]. *)
Definition at_index {A} (l : list A) (i : Z) : option A :=
  if (i <? 0)%Z then None else l !! Z.to_nat i.

(** [a ?? b] on an optional value. *)
Definition nullish {A} (a : option A) (b : A) : A :=
  match a with Some x => x | None => b end.

(** The truthiness test [if (s)] on an optional string. *)
Definition truthy (s : option string) : option string :=
  match s with
  | Some x => if decide (x = "") then None else Some x
  | None => None
  end.

(** [a !== false] on an optional flag. *)
Definition not_false (a : option bool) : bool :=
  match a with Some false => false | _ => true end.

(** ** components/StarCanvas: the scene types *)

Module Ring.
Record t : Type := mk {
  enabled : bool;
  gap : Q;
  width : Q;
  color : string;
  opacity : Q;
  flatten : Q;
  angleDeg : Q }.
End Ring.

Module Planet.
Record t : Type := mk {
  orbitRadius : Q;
  size : Q;
  angle : Q;
  color : string;
  name : string;
  moons : option Q;
  showLabel : option bool;
  rings : option Ring.t }.
End Planet.

Inductive IconType := diamond | triangle | square | cross | satellite.

Module Station.
Record t : Type := mk {
  id : option string;
  name : option string;
  radius : Q;
  angle : Q;
  iconType : IconType;
  color : string;
  size : Q;
  customIconDataUrl : option string;
  showLabel : option bool }.
End Station.

(** components/AsteroidBeltsControls: [BeltConfig]. *)
Inductive BeltType := free | anchored.

Module Belt.
Record t : Type := mk {
  type : BeltType;
  width : Q;
  density : Q;
  gapIndex : option Z }.
End Belt.

(** components/PlanetListControls: [PlanetModel] as the editor uses it,
    a partial record of the overridable fields. *)
Module Override.
Record t : Type := mk {
  size : option Q;
  color : option string;
  name : option string;
  moons : option Q;
  rings : option Ring.t;
  showLabel : option bool }.
Definition empty : t := mk None None None None None None.
(** [{ ...old, ...updates }]. *)
Definition merge (old updates : t) : t :=
  mk (nullish (Some <$> size updates) (size old))
     (nullish (Some <$> color updates) (color old))
     (nullish (Some <$> name updates) (name old))
     (nullish (Some <$> moons updates) (moons old))
     (nullish (Some <$> rings updates) (rings old))
     (nullish (Some <$> showLabel updates) (showLabel old)).
End Override.

Inductive LabelPosition := top_left | top_right | bottom_left | bottom_right.

(** ** The editor state (StarSystemEditor's [useState] cells) *)

Module Editor.
Record t : Type := mk {
  numPlanets : Z;
  seed : Z;
  labelSize : Q;
  labelColor : string;
  showLabelBackground : bool;
  labelPosition : LabelPosition;
  customNames : gmap nat string;
  belts : list Belt.t;
  stations : list Station.t;
  planetOverrides : list (option Override.t) }.
End Editor.

(** The moon drawing parameters are state cells without a setter. *)
Definition showMoons : bool := true.
Definition moonMinSize : Q := 1.
Definition moonMaxSize : Q := 3.
Definition moonOrbitMin : Q := 10.
Definition moonOrbitMax : Q := 22.

(** The first render's state. *)
Definition initialEditor : Editor.t :=
  Editor.mk 6 123456789 12 "#ffffff" false top_left ∅ [] [] [].

(** ** Scene builder: [basePlanets] *)

Import Rng.
Open Scope Q_scope.

Definition minOrbit : Q := 40.
Definition orbitGapMin : Q := 35.
Definition orbitGapMax : Q := 70.

Definition palette : list string :=
  ["#8AB4F8"; "#F28B82"; "#FDD663"; "#81C995";
   "#CF9FFF"; "#F6AEA9"; "#B4C7E7"; "#D7CCC8"].

Definition ringColors : list string := ["#c9b18b"; "#a0a0a0"; "#b68d5a"].

(** [list[Math.floor(v * list.length)]]; the index is in range for every
    [v] in [0,1), the default stands for [undefined]. *)
Definition pick (l : list string) (v : Q) : string :=
  nth (Z.to_nat (Qfloor (v * inject_Z (Z.of_nat (length l))))) l "".

Definition genMoons (seed i : Z) : Q :=
  let moonsGen := mulberry32 (mixSeed [seed; 0xdeadbe%Z; i]) in
  evalGen (let* v := call in ret (Math_floor (v * 4))) moonsGen.

Definition genRings (seed i : Z) : option Ring.t :=
  let ringsGen := mulberry32 (mixSeed [seed; 0x13579b%Z; i]) in
  evalGen
    (let* h := call in
     if Qltb h 0.25 then
       let* g := call in
       let* w := call in
       let* c := call in
       let* o := call in
       let* f := call in
       let* a := call in
       ret (Some (Ring.mk true
                    (Math_floor (1 + g * 4))
                    (Math_floor (6 + w * 16))
                    (pick ringColors c)
                    (0.4 + o * 0.3)
                    (0.5 + f * 0.4)
                    (Math_floor (30 + a * 60))))
     else ret None) ringsGen.

(** The body of the [for] loop, [k] iterations left, [i] the index. *)
Fixpoint basePlanets_loop (seed : Z) (k : nat) (i : Z) (currentOrbit : Q)
  : Gen (list Planet.t) :=
  match k with
  | O => ret []
  | S k' =>
    let* v := call in
    let gap := orbitGapMin + v * (orbitGapMax - orbitGapMin) in
    let currentOrbit := currentOrbit + gap in
    let* v := call in
    let size := 4 + Math_floor (v * 10) in
    let* v := call in
    let angle := v * Math_PI * 2 in
    let* v := call in
    let color := pick palette v in
    let moons := genMoons seed i in
    let rings := genRings seed i in
    let* rest := basePlanets_loop seed k' (i + 1)%Z currentOrbit in
    ret (Planet.mk currentOrbit size angle color "" (Some moons) None rings :: rest)
  end.

Definition basePlanets (e : Editor.t) : list Planet.t :=
  let rand := mulberry32 (Editor.seed e) in
  evalGen (basePlanets_loop (Editor.seed e) (Z.to_nat (Editor.numPlanets e)) 0 minOrbit) rand.

(** ** Default planet names *)

Definition prefixes : list string :=
  ["Zeta"; "Epsilon"; "Delta"; "Theta"; "Omega"; "Sigma"; "Alpha";
   "Beta"; "Gamma"; "Kappa"; "Rho"; "Tau"; "Xi"].
Definition suffixes : list string :=
  ["I"; "II"; "III"; "IV"; "V"; "VI"; "VII"; "VIII"; "IX"; "X"].
Definition syll : list string :=
  ["ka"; "tor"; "vel"; "ria"; "zan"; "kor"; "tal"; "xen"; "ili"; "dra";
   "nus"; "mir"; "pho"; "lyr"; "cyg"].

Definition toUpperCase (c : ascii) : ascii :=
  let n := nat_of_ascii c in
  if (97 <=? n)%nat && (n <=? 122)%nat then ascii_of_nat (n - 32) else c.

(** [name.charAt(0).toUpperCase() + name.slice(1)]. *)
Definition capitalize (name : string) : string :=
  match name with
  | EmptyString => EmptyString
  | String c rest => String (toUpperCase c) rest
  end.

(** [for (j = 0; j < parts; j++) name += syll[...]]. *)
Fixpoint syllables (parts : nat) (name : string) : Gen string :=
  match parts with
  | O => ret name
  | S parts' =>
    let* v := call in
    syllables parts' (name ++ pick syll v)%string
  end.

Definition defaultName : Gen string :=
  let* c := call in
  if Qltb c 0.5 then
    let* v := call in
    let p := pick prefixes v in
    let* v := call in
    let s := pick suffixes v in
    ret (p ++ " " ++ s)%string
  else
    let* v := call in
    let parts := 2 + Math_floor (v * 2) in
    let* name := syllables (Z.to_nat (Qfloor parts)) "" in
    ret (capitalize name).

(** [basePlanets.map(() => ...)] with the one running closure. *)
Fixpoint defaultNames_map (l : list Planet.t) : Gen (list string) :=
  match l with
  | [] => ret []
  | _ :: l' =>
    let* n := defaultName in
    let* rest := defaultNames_map l' in
    ret (n :: rest)
  end.

Definition defaultNames (e : Editor.t) : list string :=
  let rand := mulberry32 (xor32 (Editor.seed e) 0x51a5a5) in
  evalGen (defaultNames_map (basePlanets e)) rand.

(** [planetOverrides[i]?.f]. *)
Definition override_field {A} (f : Override.t -> option A)
    (overrides : list (option Override.t)) (i : nat) : option A :=
  o ← mjoin (overrides !! i); f o.

Definition getPlanetName (e : Editor.t) (index : nat) : string :=
  nullish (Editor.customNames e !! index)
    (nullish (override_field Override.name (Editor.planetOverrides e) index)
       (nullish (defaultNames e !! index)
          ("Planet " ++ pretty (index + 1)%nat)%string)).

(** ** The composed planets handed to the renderers *)

Definition compose (e : Editor.t) (i : nat) (src : Planet.t) : Planet.t :=
  let ov := Editor.planetOverrides e in
  Planet.mk
    (Planet.orbitRadius src)
    (nullish (override_field Override.size ov i) (Planet.size src))
    (Planet.angle src)
    (nullish (override_field Override.color ov i) (Planet.color src))
    (getPlanetName e i)
    (override_field Override.moons ov i)
    (override_field Override.showLabel ov i)
    (nullish (Some <$> override_field Override.rings ov i) (Planet.rings src)).

Definition planets (e : Editor.t) : list Planet.t :=
  imap (compose e) (basePlanets e).

(** ** Editor handlers *)

(** [copy[index] = v] on a JavaScript array: writing past the end
    extends the array with holes. *)
Definition array_set {A} (l : list (option A)) (index : nat) (v : A)
  : list (option A) :=
  if (index <? length l)%nat then <[index := Some v]> l
  else l ++ replicate (index - length l) None ++ [Some v].

(** The [onChange] handed to PlanetListControls. *)
Definition onPlanetChange (index : nat) (updates : Override.t) (e : Editor.t)
  : Editor.t :=
  let prev := Editor.planetOverrides e in
  let old := nullish (mjoin (prev !! index)) Override.empty in
  let overrides := array_set prev index (Override.merge old updates) in
  let names :=
    match Override.name updates with
    | Some n => <[index := n]> (Editor.customNames e)
    | None => Editor.customNames e
    end in
  Editor.mk (Editor.numPlanets e) (Editor.seed e) (Editor.labelSize e)
    (Editor.labelColor e) (Editor.showLabelBackground e)
    (Editor.labelPosition e) names (Editor.belts e) (Editor.stations e)
    overrides.

(** [Math.max(0, Math.min(20, Math.floor(value)))]. *)
Definition clampCount (value : Q) : Z :=
  Z.max 0 (Z.min 20 (Qfloor value)).

Definition setNumPlanets (n : Z) (e : Editor.t) : Editor.t :=
  Editor.mk n (Editor.seed e) (Editor.labelSize e)
    (Editor.labelColor e) (Editor.showLabelBackground e)
    (Editor.labelPosition e) (Editor.customNames e) (Editor.belts e)
    (Editor.stations e) (Editor.planetOverrides e).

Definition handleNumChange (value : Q) (e : Editor.t) : Editor.t :=
  let clamped := clampCount value in
  setNumPlanets clamped e.

(** ** The host environment

    [Math.cos] and [Math.sin] are implementation-approximated in
    ECMAScript, [measureText] depends on the installed fonts, and whether
    a new image is complete as soon as its source is set depends on the
    browser's image cache; the code is embedded over any host that
    provides them. *)

Class Host : Type := {
  Math_cos : Q -> Q;
  Math_sin : Q -> Q;
  (** [ctx.measureText(text).width] under the font size in force. *)
  measureText : Q -> string -> Q;
  (** [img.complete] right after [img = new Image(); img.src = url]. *)
  imageComplete : string -> bool }.

(** A host for evaluating examples: short Taylor polynomials, the width
    estimate of the vector renderer, and every image already loaded. *)
Definition sampleHost : Host := {|
  Math_cos := fun a => 1 - a * a / 2 + a * a * a * a / 24;
  Math_sin := fun a => a - a * a * a / 6 + a * a * a * a * a / 120;
  measureText := fun fontSize text =>
    inject_Z (Z.of_nat (String.length text)) * (fontSize * 0.6);
  imageComplete := fun _ => true |}.

(** ** Snapshot codec *)

(** The snapshot document, for documents whose fields have the types the
    export gives them.  A field the decoder guards with a [typeof] test,
    a truthiness test or [??] is optional here: [None] stands for a field
    that is absent or [null]; the entries of [planets] and [stations] are
    objects and the seed is an integer.  A document with a field of
    another type (a number for a name, a string for a ring gap) or with
    an entry that is not an object is outside this type: there the
    decoder coerces the field with [String], [Number] or [!!], or throws
    after its first assignments, and neither is modelled. *)
Module Doc.

Record Moon : Type := mkMoon {
  m_angle : Q;
  m_orbit : Q;
  m_size : Q;
  m_position : Q * Q }.

Record Rings : Type := mkRings {
  r_enabled : option bool;
  r_gap : option Q;
  r_width : option Q;
  r_color : option string;
  r_opacity : option Q;
  r_flatten : option Q;
  r_angleDeg : option Q }.

Record Planet : Type := mkPlanet {
  orbitRadius : Q;
  size : option Q;
  angle : Q;
  color : option string;
  name : option string;
  moonsCount : option Q;
  rings : option Rings;
  position : Q * Q;
  moons : list Moon;
  showLabel : option bool }.

Record Settings : Type := mkSettings {
  s_showMoons : bool;
  s_moonMinSize : Q;
  s_moonMaxSize : Q;
  s_moonOrbitMin : Q;
  s_moonOrbitMax : Q;
  labelSize : option Q;
  labelColor : option string;
  showLabelBackground : option bool;
  belts : option (list Belt.t);
  stations : option (list Station.t) }.

Record t : Type := mk {
  seed : option Z;
  settings : option Settings;
  planets : option (list Planet) }.

End Doc.

Section Codec.
Context `{Host}.

(** [Array.from({ length: moonCount }).map(() => ...)] in [exportJSON]. *)
Fixpoint exportMoons (k : nat) (px py size : Q) : Gen (list Doc.Moon) :=
  match k with
  | O => ret []
  | S k' =>
    let* v := call in
    let ma := v * Math_PI * 2 in
    let* v := call in
    let mOrbit := moonOrbitMin + v * Qmax 0 (moonOrbitMax - moonOrbitMin) in
    let mx := px + Math_cos ma * (size + mOrbit) in
    let my := py + Math_sin ma * (size + mOrbit) in
    let* v := call in
    let mSize := moonMinSize + v * (moonMaxSize - moonMinSize) in
    let* rest := exportMoons k' px py size in
    ret (Doc.mkMoon ma mOrbit mSize (mx, my) :: rest)
  end.

Definition exportRings (r : Ring.t) : Doc.Rings :=
  Doc.mkRings (Some (Ring.enabled r)) (Some (Ring.gap r)) (Some (Ring.width r))
    (Some (Ring.color r)) (Some (Ring.opacity r)) (Some (Ring.flatten r))
    (Some (Ring.angleDeg r)).

(** The callback of [planets.forEach] in [exportJSON]. *)
Definition exportPlanet (seed : Z) (idx : nat) (p : Planet.t) : Doc.Planet :=
  let cx := 0 in
  let cy := 0 in
  let px := cx + Math_cos (Planet.angle p) * Planet.orbitRadius p in
  let py := cy + Math_sin (Planet.angle p) * Planet.orbitRadius p in
  let perPlanetCount := nullish (Planet.moons p) 0 in
  let rgen := mulberry32 (mixSeed [seed; 0xc0ffee%Z; (Z.of_nat idx + 1)%Z]) in
  let moonCount :=
    if showMoons && Qle_bool moonMinSize moonMaxSize && Qltb 0 perPlanetCount
    then perPlanetCount else 0 in
  let moons :=
    evalGen (exportMoons (Z.to_nat (Qfloor moonCount)) px py (Planet.size p)) rgen in
  Doc.mkPlanet (Planet.orbitRadius p) (Some (Planet.size p)) (Planet.angle p)
    (Some (Planet.color p)) (Some (Planet.name p)) (Planet.moons p)
    (exportRings <$> Planet.rings p) (px, py) moons
    (Some (not_false (Planet.showLabel p))).

Definition exportStation (s : Station.t) : Station.t :=
  Station.mk (Station.id s) (Station.name s) (Station.radius s)
    (Station.angle s) (Station.iconType s) (Station.color s) (Station.size s)
    (Station.customIconDataUrl s) (Some (not_false (Station.showLabel s))).

Definition exportJSON (e : Editor.t) : Doc.t :=
  Doc.mk (Some (Editor.seed e))
    (Some (Doc.mkSettings showMoons moonMinSize moonMaxSize moonOrbitMin
             moonOrbitMax (Some (Editor.labelSize e)) (Some (Editor.labelColor e))
             (Some (Editor.showLabelBackground e)) (Some (Editor.belts e))
             (Some (exportStation <$> Editor.stations e))))
    (Some (imap (exportPlanet (Editor.seed e)) (planets e))).

End Codec.

(** [p.rings ? { enabled: !!..., gap: Number(... ?? 2), ... } : undefined]. *)
Definition importRings (r : Doc.Rings) : Ring.t :=
  Ring.mk (nullish (Doc.r_enabled r) false)
    (nullish (Doc.r_gap r) 2)
    (nullish (Doc.r_width r) 10)
    (nullish (Doc.r_color r) "#c9b18b")
    (nullish (Doc.r_opacity r) 0.55)
    (nullish (Doc.r_flatten r) 0.6)
    (nullish (Doc.r_angleDeg r) 45).

Definition importOverride (p : Doc.Planet) : Override.t :=
  Override.mk (Doc.size p) (Doc.color p) None (Doc.moonsCount p)
    (importRings <$> Doc.rings p) (Some (not_false (Doc.showLabel p))).

(** [if (p?.name) names[idx] = String(p.name)] over the planets. *)
Definition importNames (ps : list Doc.Planet) : gmap nat string :=
  fold_left
    (fun names '(idx, p) =>
       match truthy (Doc.name p) with
       | Some n => <[idx := n]> names
       | None => names
       end)
    (imap (fun idx p => (idx, p)) ps) ∅.

Definition importStation (s : Station.t) : Station.t :=
  Station.mk (Station.id s) (Station.name s) (Station.radius s)
    (Station.angle s) (Station.iconType s) (Station.color s) (Station.size s)
    (Station.customIconDataUrl s) (Some (not_false (Station.showLabel s))).

(** The body of [reader.onload] in [onImportFileChange], on a parsed
    document: the state cells each guarded block sets. *)
Definition importSeed (s : Doc.t) (e : Editor.t) : Z :=
  nullish (Doc.seed s) (Editor.seed e).

Definition importPlanets (s : Doc.t) (e : Editor.t)
  : Z * list (option Override.t) * gmap nat string :=
  match Doc.planets s with
  | Some ps =>
    (Z.of_nat (length ps),
     map (fun p => Some (importOverride p)) ps,
     importNames ps)
  | None =>
    (Editor.numPlanets e, Editor.planetOverrides e, Editor.customNames e)
  end.

Definition setting {A} (s : Doc.t) (f : Doc.Settings -> option A) : option A :=
  match Doc.settings s with
  | Some st => f st
  | None => None
  end.

Definition importJSON (s : Doc.t) (e : Editor.t) : Editor.t :=
  let '(numPlanets, overrides, names) := importPlanets s e in
  Editor.mk numPlanets (importSeed s e)
    (nullish (setting s Doc.labelSize) (Editor.labelSize e))
    (nullish (setting s Doc.labelColor) (Editor.labelColor e))
    (nullish (setting s Doc.showLabelBackground) (Editor.showLabelBackground e))
    (Editor.labelPosition e)
    names
    (nullish (setting s Doc.belts) (Editor.belts e))
    (nullish (option_map (map importStation) (setting s Doc.stations))
       (Editor.stations e))
    overrides.

(** ** What a renderer draws

    Both renderers are embedded as the geometry they put on the surface:
    a canvas path call and a markup element are recorded as the same
    [Shape], without paint (colour, opacity, stroke width).  Canvas
    shapes drawn under [translate]/[rotate]/[scale] are recorded in
    surface coordinates; a rotation is recorded in degrees about its
    centre, as the markup's [rotate(deg, x, y)] gives it. *)

Inductive Shape : Type :=
| Rect (x y w h : Q)
| Circle (cx cy r : Q)
| Ellipse (cx cy rx ry : Q)
| Line (x1 y1 x2 y2 : Q)
| Polygon (points : list (Q * Q))
| Image (href : string) (x y w h : Q)
| Text (x y : Q) (text : string)
| Rotated (deg cx cy : Q) (s : Shape).

(** [ctx.translate(dx, dy)] applied to a shape given in local coordinates. *)
Fixpoint translate (dx dy : Q) (s : Shape) : Shape :=
  match s with
  | Rect x y w h => Rect (dx + x) (dy + y) w h
  | Circle cx cy r => Circle (dx + cx) (dy + cy) r
  | Ellipse cx cy rx ry => Ellipse (dx + cx) (dy + cy) rx ry
  | Line x1 y1 x2 y2 => Line (dx + x1) (dy + y1) (dx + x2) (dy + y2)
  | Polygon pts => Polygon (map (fun '(x, y) => (dx + x, dy + y)) pts)
  | Image href x y w h => Image href (dx + x) (dy + y) w h
  | Text x y t => Text (dx + x) (dy + y) t
  | Rotated deg cx cy s' => Rotated deg (dx + cx) (dy + cy) (translate dx dy s')
  end.

Definition rad_to_deg (a : Q) : Q := a * 180 / Math_PI.

Inductive StarType := yellow | red_dwarf | blue_giant | neutron | black_hole.

(** The props both renderer components take. *)
Module Props.
Record t : Type := mk {
  seed : Z;
  planets : list Planet.t;
  stations : list Station.t;
  showMoons : bool;
  globalMoons : Q;
  moonMinSize : Q;
  moonMaxSize : Q;
  moonOrbitMin : Q;
  moonOrbitMax : Q;
  labelSize : Q;
  labelColor : string;
  showLabelBackground : bool;
  labelPosition : LabelPosition;
  belts : list Belt.t }.
End Props.

(** The props the editor passes to either renderer; [globalMoons] is the
    literal 0 and [stars] is never passed. *)
Definition editorProps (e : Editor.t) : Props.t :=
  Props.mk (Editor.seed e) (planets e) (Editor.stations e) showMoons 0
    moonMinSize moonMaxSize moonOrbitMin moonOrbitMax (Editor.labelSize e)
    (Editor.labelColor e) (Editor.showLabelBackground e)
    (Editor.labelPosition e) (Editor.belts e).

(** What is drawn for one planet, by element type. *)
Record PlanetDrawing : Type := mkPlanetDrawing {
  d_ring : option Shape;
  d_body : list Shape;
  d_highlight : Shape;
  d_moons : list Shape }.

(** What is drawn for one label. *)
Record LabelDrawing : Type := mkLabelDrawing {
  l_background : option Shape;
  l_leader : Shape;
  l_text : Shape }.

(** [Math.min(hi, Math.max(lo, v))]. *)
Definition clamp (lo hi v : Q) : Q := Qmin hi (Qmax lo v).

(** ** components/StarCanvas: [renderScene]

    [renderScene] is a [useCallback] closure.  Its dependency list names
    every prop it reads except [showLabelBackground], so [props] here
    are the props the closure holds: the component's current props,
    except that [showLabelBackground] is the one of the render that last
    created the closure (that is, the one in force when any other prop
    last changed). *)

Module Canvas.
Section Canvas.
Context `{Host}.
Variable props : Props.t.
(** The [stars] prop, [[{ type: "yellow" }]] when not passed. *)
Variable stars : list StarType.
Variables width h : Q.

Let cx : Q := width / 2.
Let cy : Q := h / 2.

(** The starfield loop, [k] iterations left. *)
Fixpoint starfield_loop (k : nat) : Gen (list Shape) :=
  match k with
  | O => ret []
  | S k' =>
    let* v := call in
    let sx := v * width in
    let* v := call in
    let sy := v * h in
    let* v := call in
    let ss := v * 1.5 in
    let* alpha := call in
    let* rest := starfield_loop k' in
    ret (Rect sx sy ss ss :: rest)
  end.

Definition starfield : list Shape :=
  let starRand := mulberry32 (xor32 (Props.seed props) 0xabcdef) in
  evalGen (starfield_loop 300) starRand.

Definition starPositions : list (Q * Q) :=
  let count := Z.min 3 (Z.max 1 (Z.of_nat (length stars))) in
  let baseAngle :=
    evalGen call (mulberry32 (xor32 (Props.seed props) 0x5151)) * Math_PI * 2 in
  let radius := 60 in
  if (count =? 1)%Z then [(cx, cy)]
  else if (count =? 2)%Z then
    [(cx + Math_cos baseAngle * radius, cy + Math_sin baseAngle * radius);
     (cx - Math_cos baseAngle * radius, cy - Math_sin baseAngle * radius)]
  else
    map (fun i : Z =>
           let ang := baseAngle + (inject_Z i * (Math_PI * 2)) / 3 in
           (cx + Math_cos ang * radius, cy + Math_sin ang * radius))
        [0; 1; 2]%Z.

Definition drawStar (type : StarType) (x y : Q) : list Shape :=
  match type with
  | red_dwarf => [Circle x y 90; Circle x y 12]
  | blue_giant => [Circle x y 160; Circle x y 20]
  | neutron => [Circle x y 70; Circle x y 6; Circle x y 12]
  | black_hole => [Circle x y 28; Circle x y 36; Circle x y 14]
  | yellow => [Circle x y 120; Circle x y 16]
  end.

Definition drawStars : list Shape :=
  concat (imap (fun i '(x, y) => drawStar (nullish (stars !! i) yellow) x y)
               starPositions).

(** The radii of one belt; [None] is the [continue]. *)
Definition beltRange (bi : nat) (belt : Belt.t) : option (Q * Q) :=
  let planets := Props.planets props in
  match Belt.type belt, Belt.gapIndex belt with
  | anchored, Some gapIndex =>
    match at_index planets gapIndex, at_index planets (gapIndex + 1) with
    | Some a, Some b =>
      let radius := (Planet.orbitRadius a + Planet.orbitRadius b) / 2 in
      let inner := Qmax 50 (radius - Belt.width belt / 2) in
      let outer := inner + Belt.width belt in
      Some (inner, outer)
    | _, _ => None
    end
  | _, _ =>
    let lastOrbit :=
      match last planets with
      | Some p => Planet.orbitRadius p
      | None => 300
      end in
    let minR := 80 in
    let maxR := Qmax (minR + 60) (lastOrbit + 120) in
    let rgen := mulberry32 (mixSeed [Props.seed props; 0xb17%Z; (Z.of_nat bi * 293)%Z]) in
    let radius := minR + evalGen call rgen * (maxR - minR) in
    let inner := Qmax 50 (radius - Belt.width belt / 2) in
    let outer := inner + Belt.width belt in
    Some (inner, outer)
  end.

(** The particle loop of one belt, [k] particles left. *)
Fixpoint particles_loop (k : nat) (inner outer : Q) : Gen (list Shape) :=
  match k with
  | O => ret []
  | S k' =>
    let* v := call in
    let ang := v * Math_PI * 2 in
    let* v := call in
    let rr := inner + v * (outer - inner) in
    let px := cx + Math_cos ang * rr in
    let py := cy + Math_sin ang * rr in
    let* v := call in
    let s := 0.5 + v * 1.2 in
    let* rest := particles_loop k' inner outer in
    ret (Rect px py s s :: rest)
  end.

Definition particleCount (belt : Belt.t) : nat :=
  Z.to_nat (Qfloor (900 * clamp 0 1 (Belt.density belt))).

(** One iteration of the belt loop: the particles it draws. *)
Definition drawBelt (bi : nat) (belt : Belt.t) : list Shape :=
  match beltRange bi belt with
  | None => []
  | Some (inner, outer) =>
    let particles := particleCount belt in
    let rgen := mulberry32 (mixSeed [Props.seed props; 0xb17%Z; (Z.of_nat bi * 97 + 777)%Z]) in
    evalGen (particles_loop particles inner outer) rgen
  end.

Definition drawBelts : list (list Shape) := imap drawBelt (Props.belts props).

Definition drawOrbits : list Shape :=
  map (fun p => Circle cx cy (Planet.orbitRadius p)) (Props.planets props).

Definition drawRing (p : Planet.t) (x y : Q) : option Shape :=
  match Planet.rings p with
  | Some rings =>
    if Ring.enabled rings then
      let gap := Qmax 0 (Ring.gap rings) in
      let widthRing := Qmax 1 (Ring.width rings) in
      let inner := Planet.size p + gap in
      let mid := inner + widthRing / 2 in
      let flatten := clamp 0.2 1 (Ring.flatten rings) in
      let angle := (Ring.angleDeg rings * Math_PI) / 180 in
      (* translate(x, y); rotate(angle); scale(1, flatten); arc(0, 0, mid) *)
      Some (Rotated (rad_to_deg angle) x y
              (translate x y (Ellipse 0 0 mid (mid * flatten))))
    else None
  | None => None
  end.

(** The moon loop of one planet, [k] moons left. *)
Fixpoint moons_loop (k : nat) (p : Planet.t) (x y : Q) : Gen (list Shape) :=
  match k with
  | O => ret []
  | S k' =>
    let* v := call in
    let ma := v * Math_PI * 2 in
    let* v := call in
    let mOrbit := Props.moonOrbitMin props
                  + v * Qmax 0 (Props.moonOrbitMax props - Props.moonOrbitMin props) in
    let mx := x + Math_cos ma * (Planet.size p + mOrbit) in
    let my := y + Math_sin ma * (Planet.size p + mOrbit) in
    let* v := call in
    let mSize := Props.moonMinSize props
                 + v * (Props.moonMaxSize props - Props.moonMinSize props) in
    let* rest := moons_loop k' p x y in
    ret (Circle x y (Planet.size p + mOrbit) :: Circle mx my mSize :: rest)
  end.

Definition drawMoons (idx : nat) (p : Planet.t) (x y : Q) : list Shape :=
  if Props.showMoons props && Qle_bool (Props.moonMinSize props) (Props.moonMaxSize props)
  then
    let count := nullish (Planet.moons p) (Props.globalMoons props) in
    if Qltb 0 count then
      let rgen := mulberry32 (mixSeed [Props.seed props; 0xc0ffee%Z; (Z.of_nat idx + 1)%Z]) in
      evalGen (moons_loop (Z.to_nat (Qceiling count)) p x y) rgen
    else []
  else [].

(** The callback of [planets.forEach]. *)
Definition drawPlanet (idx : nat) (p : Planet.t) : PlanetDrawing :=
  let x := cx + Math_cos (Planet.angle p) * Planet.orbitRadius p in
  let y := cy + Math_sin (Planet.angle p) * Planet.orbitRadius p in
  mkPlanetDrawing
    (drawRing p x y)
    [Circle x y (Planet.size p + 1.5); Circle x y (Planet.size p)]
    (Circle x y (Planet.size p))
    (drawMoons idx p x y).

Definition drawPlanets : list PlanetDrawing := imap drawPlanet (Props.planets props).

(** The [switch] over the icon type, in the station's own coordinates. *)
Definition stationIcon (s : Station.t) : list Shape :=
  let size := Station.size s in
  match Station.iconType s with
  | diamond =>
    [Rotated (rad_to_deg (Math_PI / 4)) 0 0
       (Rect (- size / 1.2) (- size / 1.2) ((size / 1.2) * 2) ((size / 1.2) * 2))]
  | triangle => [Polygon [(0, - size); (size, size); (- size, size)]]
  | square => [Rect (- size) (- size) (size * 2) (size * 2)]
  | cross => [Line (- size) 0 size 0; Line 0 (- size) 0 size]
  | satellite =>
    [Circle 0 0 (size * 0.5);
     Rect (size * 0.7) (- size * 0.4) (size * 0.8) (size * 0.8);
     Rect (- size * 1.5) (- size * 0.4) (size * 0.8) (size * 0.8)]
  end.

(** One iteration of the station loop.  A custom image is drawn in this
    pass only if the new [Image] is complete at once; otherwise the pass
    draws nothing for the station and asks for a redraw once the image
    has loaded. *)
Definition drawStation (s : Station.t) : list Shape :=
  let sx := cx + Math_cos (Station.angle s) * Station.radius s in
  let sy := cy + Math_sin (Station.angle s) * Station.radius s in
  let size := Station.size s in
  map (translate sx sy)
    match truthy (Station.customIconDataUrl s) with
    | Some url =>
      if imageComplete url
      then [translate (- size) (- size) (Image url 0 0 (size * 2) (size * 2))]
      else []
    | None => stationIcon s
    end.

Definition drawStations : list (list Shape) := map drawStation (Props.stations props).

(** The [switch (labelPosition)] placing a label of width [w]. *)
Definition labelAnchor (px py offset w : Q) : Q * Q :=
  match Props.labelPosition props with
  | top_left => (px - offset - w, py - offset)
  | top_right => (px + offset, py - offset)
  | bottom_left => (px - offset - w, py + offset)
  | bottom_right => (px + offset, py + offset)
  end.

(** [labelPosition.endsWith("left")]. *)
Definition isLeft : bool :=
  match Props.labelPosition props with
  | top_left | bottom_left => true
  | _ => false
  end.

(** The body shared by the two label loops, after [px], [py], [text]
    and [offset] are set. *)
Definition drawLabel (px py offset : Q) (text : string) : LabelDrawing :=
  let w := measureText (Props.labelSize props) text in
  let h := Props.labelSize props in
  let '(lx, ly) := labelAnchor px py offset w in
  let background :=
    if Props.showLabelBackground props then
      let rx := lx - 2 in
      let ry := ly - h / 2 - 2 in
      let rw := w + 4 in
      let rh := h + 4 in
      Some (Rect rx ry rw rh)
    else None in
  mkLabelDrawing background
    (Line px py (if isLeft then lx + w else lx) ly)
    (Text lx ly text).

Definition planetLabels : list LabelDrawing :=
  omap (fun p =>
          if negb (not_false (Planet.showLabel p)) then None
          else
            let px := cx + Math_cos (Planet.angle p) * Planet.orbitRadius p in
            let py := cy + Math_sin (Planet.angle p) * Planet.orbitRadius p in
            Some (drawLabel px py (Planet.size p + 10) (Planet.name p)))
       (Props.planets props).

Definition stationLabels : list LabelDrawing :=
  omap (fun s =>
          if negb (not_false (Station.showLabel s)) then None
          else
            let px := cx + Math_cos (Station.angle s) * Station.radius s in
            let py := cy + Math_sin (Station.angle s) * Station.radius s in
            Some (drawLabel px py (Station.size s + 10)
                    (nullish (Station.name s) "Station")))
       (Props.stations props).

Definition drawLabels : list LabelDrawing := planetLabels ++ stationLabels.

End Canvas.
End Canvas.

(** ** components/StarSvg *)

(** The number a markup attribute written with [toFixed(2)] denotes:
    the nearest multiple of 1/100, ties away from zero. *)
Definition toFixed2 (q : Q) : Q :=
  let n := inject_Z (Qfloor (Qabs q * 100 + 0.5)) / 100 in
  if Qltb q 0 then - n else n.

Module Svg.

Record MoonDatum : Type := mkMoonDatum {
  m_x : Q;
  m_y : Q;
  m_size : Q;
  m_parentIndex : nat;
  m_orbitRadius : Q }.

Record Particle : Type := mkParticle { pt_x : Q; pt_y : Q; pt_s : Q }.

Record LabelDatum : Type := mkLabelDatum {
  l_x : Q;
  l_y : Q;
  l_txt : string;
  l_w : Q;
  l_h : Q;
  l_lineFrom : Q * Q;
  l_isLeft : bool }.

Section Svg.
Context `{Host}.
Variable props : Props.t.
Variables width height : Q.

Let cx : Q := width / 2.
Let cy : Q := height / 2.

(** [moonData] and [beltsData] are [useMemo] values.  Their dependency
    lists name every prop their bodies read, but not [width], [height],
    [cx] or [cy]: each value is the one computed by the last render in
    which a listed dependency changed, around the centre of that render.
    [moonsWidth], [moonsHeight] and [beltsWidth], [beltsHeight] are the
    sizes of those two renders; they are [width] and [height] until the
    component is resized.  The other memoised values ([labelData] and
    the markup) list [cx] and [cy], and are those of the current
    render. *)
Variables moonsWidth moonsHeight : Q.
Variables beltsWidth beltsHeight : Q.

Let moonsCx : Q := moonsWidth / 2.
Let moonsCy : Q := moonsHeight / 2.
Let beltsCx : Q := beltsWidth / 2.
Let beltsCy : Q := beltsHeight / 2.

(** The moon loop of [moonData], [k] moons left. *)
Fixpoint moonData_loop (k : nat) (idx : nat) (p : Planet.t) (px py : Q)
  : Gen (list MoonDatum) :=
  match k with
  | O => ret []
  | S k' =>
    let* v := call in
    let ma := v * Math_PI * 2 in
    let* v := call in
    let mOrbit := Props.moonOrbitMin props
                  + v * Qmax 0 (Props.moonOrbitMax props - Props.moonOrbitMin props) in
    let mx := px + Math_cos ma * (Planet.size p + mOrbit) in
    let my := py + Math_sin ma * (Planet.size p + mOrbit) in
    let* v := call in
    let mSize := Props.moonMinSize props
                 + v * (Props.moonMaxSize props - Props.moonMinSize props) in
    let* rest := moonData_loop k' idx p px py in
    ret (mkMoonDatum mx my mSize idx (Planet.size p + mOrbit) :: rest)
  end.

Definition moonData_planet (idx : nat) (p : Planet.t) : list MoonDatum :=
  let count :=
    if Props.showMoons props && Qle_bool (Props.moonMinSize props) (Props.moonMaxSize props)
    then nullish (Planet.moons p) (Props.globalMoons props) else 0 in
  if Qltb 0 count then
    let rgen := mulberry32 (mixSeed [Props.seed props; 0xc0ffee%Z; (Z.of_nat idx + 1)%Z]) in
    let px := moonsCx + Math_cos (Planet.angle p) * Planet.orbitRadius p in
    let py := moonsCy + Math_sin (Planet.angle p) * Planet.orbitRadius p in
    evalGen (moonData_loop (Z.to_nat (Qceiling count)) idx p px py) rgen
  else [].

Definition moonData : list MoonDatum :=
  concat (imap moonData_planet (Props.planets props)).

(** The radii of one belt; [None] is the [continue] after pushing an
    empty particle list. *)
Definition beltRange (bi : nat) (belt : Belt.t) : option (Q * Q) :=
  let planets := Props.planets props in
  match Belt.type belt, Belt.gapIndex belt with
  | anchored, Some gapIndex =>
    match at_index planets gapIndex, at_index planets (gapIndex + 1) with
    | Some a, Some b =>
      let radius := (Planet.orbitRadius a + Planet.orbitRadius b) / 2 in
      let inner := Qmax 50 (radius - Belt.width belt / 2) in
      let outer := inner + Belt.width belt in
      Some (inner, outer)
    | _, _ => None
    end
  | _, _ =>
    let lastOrbit :=
      match last planets with
      | Some p => Planet.orbitRadius p
      | None => 300
      end in
    let minR := 80 in
    let maxR := Qmax (minR + 60) (lastOrbit + 120) in
    let rgen2 := mulberry32 (mixSeed [Props.seed props; 0xb17%Z; (Z.of_nat bi * 293)%Z]) in
    let radius := minR + evalGen call rgen2 * (maxR - minR) in
    let inner := Qmax 50 (radius - Belt.width belt / 2) in
    let outer := inner + Belt.width belt in
    Some (inner, outer)
  end.

Fixpoint particles_loop (k : nat) (inner outer : Q) : Gen (list Particle) :=
  match k with
  | O => ret []
  | S k' =>
    let* v := call in
    let ang := v * Math_PI * 2 in
    let* v := call in
    let rr := inner + v * (outer - inner) in
    let px := beltsCx + Math_cos ang * rr in
    let py := beltsCy + Math_sin ang * rr in
    let* v := call in
    let s := 0.5 + v * 1.2 in
    let* rest := particles_loop k' inner outer in
    ret (mkParticle px py s :: rest)
  end.

Definition beltParticles (bi : nat) (belt : Belt.t) : list Particle :=
  match beltRange bi belt with
  | None => []
  | Some (inner, outer) =>
    let particlesCount := Z.to_nat (Qfloor (900 * clamp 0 1 (Belt.density belt))) in
    let rgen := mulberry32 (mixSeed [Props.seed props; 0xb17%Z; (Z.of_nat bi * 97 + 777)%Z]) in
    evalGen (particles_loop particlesCount inner outer) rgen
  end.

Definition beltsData : list (list Particle) := imap beltParticles (Props.belts props).

(** The fallback width estimate of [labelData]. *)
Definition measure (text : string) : Q :=
  inject_Z (Z.of_nat (String.length text)) * (Props.labelSize props * 0.6).

Definition labelAnchor (px py offset w : Q) : Q * Q :=
  match Props.labelPosition props with
  | top_left => (px - offset - w, py - offset)
  | top_right => (px + offset, py - offset)
  | bottom_left => (px - offset - w, py + offset)
  | bottom_right => (px + offset, py + offset)
  end.

Definition isLeft : bool :=
  match Props.labelPosition props with
  | top_left | bottom_left => true
  | _ => false
  end.

Definition labelDatum (px py offset : Q) (text : string) : LabelDatum :=
  let w := measure text in
  let h := Props.labelSize props in
  let '(lx, ly) := labelAnchor px py offset w in
  mkLabelDatum lx ly text w h (px, py) isLeft.

Definition labelData : list LabelDatum :=
  omap (fun p =>
          if negb (not_false (Planet.showLabel p)) then None
          else
            let px := cx + Math_cos (Planet.angle p) * Planet.orbitRadius p in
            let py := cy + Math_sin (Planet.angle p) * Planet.orbitRadius p in
            Some (labelDatum px py (Planet.size p + 10) (Planet.name p)))
       (Props.planets props)
  ++
  omap (fun s =>
          if negb (not_false (Station.showLabel s)) then None
          else
            let px := cx + Math_cos (Station.angle s) * Station.radius s in
            let py := cy + Math_sin (Station.angle s) * Station.radius s in
            Some (labelDatum px py (Station.size s + 10)
                    (nullish (Station.name s) "Station")))
       (Props.stations props).

(** The markup, element type by element type. *)

Fixpoint stars_loop (k : nat) : Gen (list Shape) :=
  match k with
  | O => ret []
  | S k' =>
    let* v := call in
    let sx := v * width in
    let* v := call in
    let sy := v * height in
    let* v := call in
    let ss := v * 1.5 in
    let* alpha := call in
    let* rest := stars_loop k' in
    ret (Rect (toFixed2 sx) (toFixed2 sy) (toFixed2 ss) (toFixed2 ss) :: rest)
  end.

Definition stars : list Shape :=
  let starRand := mulberry32 (xor32 (Props.seed props) 0xabcdef) in
  evalGen (stars_loop 300) starRand.



Definition ringElem (p : Planet.t) (x y : Q) : option Shape :=
  match Planet.rings p with
  | Some rings =>
    if Ring.enabled rings then
      let gap := Qmax 0 (Ring.gap rings) in
      let widthRing := Qmax 1 (Ring.width rings) in
      let inner := Planet.size p + gap in
      let mid := inner + widthRing / 2 in
      let flatten := clamp 0.2 1 (Ring.flatten rings) in
      let angle := (Ring.angleDeg rings * Math_PI) / 180 in
      Some (Rotated (toFixed2 (angle * 180 / Math_PI)) x y
              (Ellipse x y mid (mid * flatten)))
    else None
  | None => None
  end.

(** The orbit guide is drawn around the planet's current place [(x, y)],
    the disc at the memoised place of the moon. *)
Definition moonElems (idx : nat) (x y : Q) : list Shape :=
  concat (map (fun m => [Circle x y (m_orbitRadius m); Circle (m_x m) (m_y m) (m_size m)])
              (filter (fun m => m_parentIndex m = idx) moonData)).

Definition planetElem (idx : nat) (p : Planet.t) : PlanetDrawing :=
  let x := cx + Math_cos (Planet.angle p) * Planet.orbitRadius p in
  let y := cy + Math_sin (Planet.angle p) * Planet.orbitRadius p in
  mkPlanetDrawing
    (ringElem p x y)
    [Circle x y (Planet.size p + 1.5); Circle x y (Planet.size p)]
    (Circle (x - Planet.size p / 3) (y - Planet.size p / 3) (Planet.size p / 2))
    (moonElems idx x y).

Definition planetElems : list PlanetDrawing := imap planetElem (Props.planets props).

Definition beltsMarkup : list (list Shape) :=
  map (map (fun pt => Rect (toFixed2 (pt_x pt)) (toFixed2 (pt_y pt))
                        (toFixed2 (pt_s pt)) (toFixed2 (pt_s pt))))
      beltsData.

Definition stationElem (s : Station.t) : list Shape :=
  let sx := cx + Math_cos (Station.angle s) * Station.radius s in
  let sy := cy + Math_sin (Station.angle s) * Station.radius s in
  let size := Station.size s in
  match truthy (Station.customIconDataUrl s) with
  | Some url =>
    [Image url (toFixed2 (sx - size)) (toFixed2 (sy - size))
       (toFixed2 (size * 2)) (toFixed2 (size * 2))]
  | None =>
    match Station.iconType s with
    | diamond =>
      [Rotated 45 (toFixed2 sx) (toFixed2 sy)
         (Rect (toFixed2 (sx - size / 1.2)) (toFixed2 (sy - size / 1.2))
               (toFixed2 (size / 1.2 * 2)) (toFixed2 (size / 1.2 * 2)))]
    | triangle =>
      [Polygon [(sx, toFixed2 (sy - size));
                (toFixed2 (sx + size), toFixed2 (sy + size));
                (toFixed2 (sx - size), toFixed2 (sy + size))]]
    | square =>
      [Rect (toFixed2 (sx - size)) (toFixed2 (sy - size))
            (toFixed2 (size * 2)) (toFixed2 (size * 2))]
    | cross =>
      [Line (toFixed2 (sx - size)) (toFixed2 sy) (toFixed2 (sx + size)) (toFixed2 sy);
       Line (toFixed2 sx) (toFixed2 (sy - size)) (toFixed2 sx) (toFixed2 (sy + size))]
    | satellite =>
      [Circle (toFixed2 sx) (toFixed2 sy) (toFixed2 (size * 0.5));
       Rect (toFixed2 (sx + size * 0.7)) (toFixed2 (sy - size * 0.4))
            (toFixed2 (size * 0.8)) (toFixed2 (size * 0.8));
       Rect (toFixed2 (sx - size * 1.5)) (toFixed2 (sy - size * 0.4))
            (toFixed2 (size * 0.8)) (toFixed2 (size * 0.8))]
    end
  end.

Definition stationElems : list (list Shape) := map stationElem (Props.stations props).

Definition labelMarkup (l : LabelDatum) : LabelDrawing :=
  let bg :=
    if Props.showLabelBackground props then
      Some (Rect (toFixed2 (l_x l - 2)) (toFixed2 (l_y l - l_h l / 2 - 2))
                 (toFixed2 (l_w l + 4)) (toFixed2 (l_h l + 4)))
    else None in
  let lineX := if l_isLeft l then l_x l + l_w l else l_x l in
  mkLabelDrawing bg
    (Line (toFixed2 (fst (l_lineFrom l))) (toFixed2 (snd (l_lineFrom l)))
          (toFixed2 lineX) (toFixed2 (l_y l)))
    (Text (toFixed2 (l_x l)) (toFixed2 (l_y l)) (l_txt l)).

Definition labelsMarkup : list LabelDrawing := map labelMarkup labelData.

End Svg.
End Svg.

(** [setSeed] on the editor state. *)
Definition setSeed (s : Z) (e : Editor.t) : Editor.t :=
  Editor.mk (Editor.numPlanets e) s (Editor.labelSize e)
    (Editor.labelColor e) (Editor.showLabelBackground e)
    (Editor.labelPosition e) (Editor.customNames e) (Editor.belts e)
    (Editor.stations e) (Editor.planetOverrides e).

(** A scene for examples: the default scene with a free belt, a belt
    anchored between planets 1 and 2, and one station as [defaultStation]
    creates it (its [id] is a timestamp). *)
Definition sampleEditor : Editor.t :=
  Editor.mk 6 123456789 12 "#ffffff" false top_left ∅
    [Belt.mk free 80 0.5 None; Belt.mk anchored 40 0.05 (Some 1%Z)]
    [Station.mk (Some "1700000000000_0") (Some "") 140 0 diamond "#FFD54F" 8 None None]
    [].

(** Scenario B: planets on orbits 60, 100 and 160 and a belt of width 40
    anchored in the gap after planet 1; and the same belt once the planet
    count has been reduced to two. *)
Definition scenarioB_planets : list Planet.t :=
  [Planet.mk 60 5 0 "#8AB4F8" "A" None None None;
   Planet.mk 100 5 0 "#F28B82" "B" None None None;
   Planet.mk 160 5 0 "#FDD663" "C" None None None].

Definition scenarioB_belt : Belt.t := Belt.mk anchored 40 0.5 (Some 1%Z).

Definition scenarioB (pl : list Planet.t) : Props.t :=
  Props.mk 123456789 pl [] true 0 1 3 10 22 12 "#ffffff" false top_left
    [scenarioB_belt; Belt.mk free 80 0.01 None].

(** A snapshot document with 21 planets. *)
Definition emptyDocPlanet : Doc.Planet :=
  Doc.mkPlanet 0 None 0 None None None None (0, 0) [] None.

Definition oversizedDoc : Doc.t :=
  Doc.mk (Some 42%Z) None (Some (replicate 21 emptyDocPlanet)).

(** A planet as a snapshot gives it back: the label flag comes back as
    the explicit boolean [showLabel !== false]. *)
Definition reimported (p : Planet.t) : Planet.t :=
  Planet.mk (Planet.orbitRadius p) (Planet.size p) (Planet.angle p)
    (Planet.color p) (Planet.name p) (Planet.moons p)
    (Some (not_false (Planet.showLabel p))) (Planet.rings p).

(** ** Comparing drawings

    Two coordinates are [near] when they differ by at most 0.005, the
    error of writing a number with [toFixed(2)]; two shapes are near when
    they are the same kind of shape with near coordinates (and the same
    text or image). *)
Definition near (a b : Q) : Prop := Qabs (a - b) <= 0.005.

Definition near_point (p q : Q * Q) : Prop :=
  near (fst p) (fst q) /\ near (snd p) (snd q).

Fixpoint near_shape (s t : Shape) : Prop :=
  match s, t with
  | Rect x y w h, Rect x' y' w' h' =>
    near x x' /\ near y y' /\ near w w' /\ near h h'
  | Circle cx cy r, Circle cx' cy' r' => near cx cx' /\ near cy cy' /\ near r r'
  | Ellipse cx cy rx ry, Ellipse cx' cy' rx' ry' =>
    near cx cx' /\ near cy cy' /\ near rx rx' /\ near ry ry'
  | Line x1 y1 x2 y2, Line x1' y1' x2' y2' =>
    near x1 x1' /\ near y1 y1' /\ near x2 x2' /\ near y2 y2'
  | Polygon pts, Polygon pts' => Forall2 near_point pts pts'
  | Image href x y w h, Image href' x' y' w' h' =>
    href = href' /\ near x x' /\ near y y' /\ near w w' /\ near h h'
  | Text x y text, Text x' y' text' => text = text' /\ near x x' /\ near y y'
  | Rotated deg cx cy s', Rotated deg' cx' cy' t' =>
    near deg deg' /\ near cx cx' /\ near cy cy' /\ near_shape s' t'
  | _, _ => False
  end.


(** The props with another belt list, as after [setBelts]. *)
Definition withBelts (bs : list Belt.t) (p : Props.t) : Props.t :=
  Props.mk (Props.seed p) (Props.planets p) (Props.stations p) (Props.showMoons p)
    (Props.globalMoons p) (Props.moonMinSize p) (Props.moonMaxSize p)
    (Props.moonOrbitMin p) (Props.moonOrbitMax p) (Props.labelSize p)
    (Props.labelColor p) (Props.showLabelBackground p) (Props.labelPosition p) bs.


(** ** Further editor handlers *)

Definition setPlanetOverrides (overrides : list (option Override.t)) (e : Editor.t)
  : Editor.t :=
  Editor.mk (Editor.numPlanets e) (Editor.seed e) (Editor.labelSize e)
    (Editor.labelColor e) (Editor.showLabelBackground e)
    (Editor.labelPosition e) (Editor.customNames e) (Editor.belts e)
    (Editor.stations e) overrides.

Definition setStations (stations : list Station.t) (e : Editor.t) : Editor.t :=
  Editor.mk (Editor.numPlanets e) (Editor.seed e) (Editor.labelSize e)
    (Editor.labelColor e) (Editor.showLabelBackground e)
    (Editor.labelPosition e) (Editor.customNames e) (Editor.belts e)
    stations (Editor.planetOverrides e).

Definition setBelts (belts : list Belt.t) (e : Editor.t) : Editor.t :=
  Editor.mk (Editor.numPlanets e) (Editor.seed e) (Editor.labelSize e)
    (Editor.labelColor e) (Editor.showLabelBackground e)
    (Editor.labelPosition e) (Editor.customNames e) belts
    (Editor.stations e) (Editor.planetOverrides e).

(** [copy.length = n] on a JavaScript array: truncation, or extension
    with holes. *)
Definition array_resize {A} (l : list (option A)) (n : nat) : list (option A) :=
  take n l ++ replicate (n - length l) None.

(** The effect that keeps the overrides as long as the planet list. *)
Definition syncOverrides (e : Editor.t) : Editor.t :=
  let prev := Editor.planetOverrides e in
  if decide (length prev = length (basePlanets e)) then e
  else
    let copy := array_resize prev (length (basePlanets e)) in
    setPlanetOverrides copy e.

(** [prev.filter((_, i) => i !== idx)]. *)
Definition remove_at {A} (idx : nat) (l : list A) : list A :=
  omap (fun x => x) (imap (fun i x => if decide (i = idx) then None else Some x) l).

(** [prev.map((s, i) => i === idx ? f(s) : s)]. *)
Definition update_at {A} (idx : nat) (f : A -> A) (l : list A) : list A :=
  imap (fun i x => if decide (i = idx) then f x else x) l.

(** components/SpaceStationsControls: [defaultStation]; the identifier is
    made of [Date.now()], taken as [now], and the index. *)
Definition defaultStation (now : Z) (i : nat) : Station.t :=
  Station.mk (Some (pretty now ++ "_" ++ pretty i)%string) (Some "")
    (140 + inject_Z (Z.of_nat i) * 10) 0 diamond "#FFD54F" 8 None None.

(** [Partial<StationModel>] as the controls and the canvas pass it. *)
Module StationUpdate.
Record t : Type := mk {
  name : option string;
  radius : option Q;
  angle : option Q;
  iconType : option IconType;
  color : option string;
  size : option Q;
  customIconDataUrl : option string;
  showLabel : option bool }.
(** [{ ...s, ...update }]. *)
Definition apply (update : t) (s : Station.t) : Station.t :=
  Station.mk (Station.id s)
    (nullish (Some <$> name update) (Station.name s))
    (nullish (radius update) (Station.radius s))
    (nullish (angle update) (Station.angle s))
    (nullish (iconType update) (Station.iconType s))
    (nullish (color update) (Station.color s))
    (nullish (size update) (Station.size s))
    (nullish (Some <$> customIconDataUrl update) (Station.customIconDataUrl s))
    (nullish (Some <$> showLabel update) (Station.showLabel s)).
End StationUpdate.

(** The four station handlers of the editor. *)
Definition onAddStation (now : Z) (e : Editor.t) : Editor.t :=
  let prev := Editor.stations e in
  setStations (prev ++ [defaultStation now (length prev)]) e.

Definition onRemoveStation (idx : nat) (e : Editor.t) : Editor.t :=
  setStations (remove_at idx (Editor.stations e)) e.

Definition onChangeStation (idx : nat) (update : StationUpdate.t) (e : Editor.t)
  : Editor.t :=
  setStations (update_at idx (StationUpdate.apply update) (Editor.stations e)) e.

Definition onPlaceStation (idx : nat) (radius angle : Q) (e : Editor.t) : Editor.t :=
  setStations
    (update_at idx
       (StationUpdate.apply
          (StationUpdate.mk None (Some radius) (Some angle) None None None None None))
       (Editor.stations e)) e.

(** The size input of a station: [Math.max(4, Math.min(24, Number(value)))]. *)
Definition stationSizeInput (idx : nat) (value : Q) (e : Editor.t) : Editor.t :=
  onChangeStation idx
    (StationUpdate.mk None None None None None (Some (Qmax 4 (Qmin 24 value))) None None) e.

(** [Partial<BeltConfig>] and the three belt handlers. *)
Module BeltUpdate.
Record t : Type := mk {
  type : option BeltType;
  width : option Q;
  density : option Q;
  gapIndex : option Z }.
Definition apply (update : t) (b : Belt.t) : Belt.t :=
  Belt.mk (nullish (type update) (Belt.type b))
    (nullish (width update) (Belt.width b))
    (nullish (density update) (Belt.density b))
    (nullish (Some <$> gapIndex update) (Belt.gapIndex b)).
End BeltUpdate.

Definition onAddBelt (e : Editor.t) : Editor.t :=
  setBelts (Editor.belts e ++ [Belt.mk free 80 0.5 None]) e.

Definition onRemoveBelt (idx : nat) (e : Editor.t) : Editor.t :=
  setBelts (remove_at idx (Editor.belts e)) e.

Definition onChangeBelt (idx : nat) (update : BeltUpdate.t) (e : Editor.t) : Editor.t :=
  setBelts (update_at idx (BeltUpdate.apply update) (Editor.belts e)) e.

(** components/AsteroidBeltsControls: the width input,
    [Math.max(10, Math.min(200, Number(value)))], and the density input. *)
Definition beltWidthInput (idx : nat) (value : Q) (e : Editor.t) : Editor.t :=
  onChangeBelt idx (BeltUpdate.mk None (Some (Qmax 10 (Qmin 200 value))) None None) e.

Definition beltDensityInput (idx : nat) (value : Q) (e : Editor.t) : Editor.t :=
  onChangeBelt idx (BeltUpdate.mk None None (Some value) None) e.

(** components/PlanetListControls: the inputs of planet [i]. *)
Definition defaultRings : Ring.t := Ring.mk true 2 10 "#c9b18b" 0.55 0.6 45.

Definition planetSizeInput (i : nat) (value : Q) (e : Editor.t) : Editor.t :=
  onPlanetChange i
    (Override.mk (Some (Qmax 2 (Qmin 24 value))) None None None None None) e.

Definition planetMoonsInput (i : nat) (value : Q) (e : Editor.t) : Editor.t :=
  onPlanetChange i
    (Override.mk None None None (Some (Qmax 0 (Qmin 10 value))) None None) e.

(** The rings checkbox of the planet [p] shown at row [i]:
    [{ ...(p.rings ?? defaultRings()), enabled: checked }]. *)
Definition planetRingsToggle (i : nat) (p : Planet.t) (checked : bool) (e : Editor.t)
  : Editor.t :=
  let r := nullish (Planet.rings p) defaultRings in
  onPlanetChange i
    (Override.mk None None None None
       (Some (Ring.mk checked (Ring.gap r) (Ring.width r) (Ring.color r)
                (Ring.opacity r) (Ring.flatten r) (Ring.angleDeg r))) None) e.

(** What [onChange] makes of the planet shown at a row: each field the
    update carries replaces the one shown. *)
Definition applyUpdates (u : Override.t) (p : Planet.t) : Planet.t :=
  Planet.mk (Planet.orbitRadius p)
    (nullish (Override.size u) (Planet.size p))
    (Planet.angle p)
    (nullish (Override.color u) (Planet.color p))
    (nullish (Override.name u) (Planet.name p))
    (nullish (Some <$> Override.moons u) (Planet.moons p))
    (nullish (Some <$> Override.showLabel u) (Planet.showLabel p))
    (nullish (Some <$> Override.rings u) (Planet.rings p)).

(** The ranges of a generated ring and of a generated planet. *)
Definition ring_in_ranges (r : Ring.t) : Prop :=
  Ring.enabled r = true /\
  (exists g : Z, Ring.gap r = inject_Z g /\ (1 <= g <= 4)%Z) /\
  (exists w : Z, Ring.width r = inject_Z w /\ (6 <= w <= 21)%Z) /\
  In (Ring.color r) ringColors /\
  (0.4 <= Ring.opacity r /\ Ring.opacity r < 0.7) /\
  (0.5 <= Ring.flatten r /\ Ring.flatten r < 0.9) /\
  (exists a : Z, Ring.angleDeg r = inject_Z a /\ (30 <= a <= 89)%Z).

Definition planet_in_ranges (p : Planet.t) : Prop :=
  (exists n : Z, Planet.size p = 4 + inject_Z n /\ (0 <= n <= 9)%Z) /\
  (0 <= Planet.angle p /\ Planet.angle p < Math_PI * 2) /\
  In (Planet.color p) palette /\
  Planet.name p = "" /\
  Planet.showLabel p = None /\
  (exists m : Z, Planet.moons p = Some (inject_Z m) /\ (0 <= m <= 3)%Z) /\
  match Planet.rings p with
  | Some r => ring_in_ranges r
  | None => True
  end.

(** The two canvas shapes of a moon given by its exported angle, orbit
    and size, around a planet of radius [size] drawn at [(x, y)]: the
    orbit guide and the moon's disc. *)
Definition moonShapes `{Host} (x y size : Q) (m : Doc.Moon) : list Shape :=
  [Circle x y (size + Doc.m_orbit m);
   Circle (x + Math_cos (Doc.m_angle m) * (size + Doc.m_orbit m))
          (y + Math_sin (Doc.m_angle m) * (size + Doc.m_orbit m))
          (Doc.m_size m)].

(** What the two renderers share of a label whatever the host measures:
    the leader line, and the text anchor for the positions on the right. *)
Definition label_agrees (props : Props.t) (a b : LabelDrawing) : Prop :=
  near_shape (l_leader a) (l_leader b) /\
  (Canvas.isLeft props = false -> near_shape (l_text a) (l_text b)).

(** The gap and width inputs of the rings [r] of the planet shown at row
    [i] (they are rendered when [p.rings?.enabled], and [r] is
    [p.rings!]): [{ ...(p.rings!), gap: Math.max(0, Math.min(100, v)) }]
    and [{ ...(p.rings!), width: Math.max(1, Math.min(80, v)) }]. *)
Definition planetRingGapInput (i : nat) (r : Ring.t) (value : Q) (e : Editor.t)
  : Editor.t :=
  onPlanetChange i
    (Override.mk None None None None
       (Some (Ring.mk (Ring.enabled r) (Qmax 0 (Qmin 100 value)) (Ring.width r)
                (Ring.color r) (Ring.opacity r) (Ring.flatten r) (Ring.angleDeg r)))
       None) e.

Definition planetRingWidthInput (i : nat) (r : Ring.t) (value : Q) (e : Editor.t)
  : Editor.t :=
  onPlanetChange i
    (Override.mk None None None None
       (Some (Ring.mk (Ring.enabled r) (Ring.gap r) (Qmax 1 (Qmin 80 value))
                (Ring.color r) (Ring.opacity r) (Ring.flatten r) (Ring.angleDeg r)))
       None) e.

(** components/StarCanvas: [draw], up to the call of [renderScene]: the
    backing store and the styled size of the canvas and the scale of the
    context, from the container's rectangle and
    [window.devicePixelRatio], which may be undefined. *)
Module Surface.
Record t : Type := mk {
  width : Q;
  height : Q;
  styleWidth : Q;
  styleHeight : Q;
  scale : Q }.
End Surface.

Definition draw (rectWidth rectHeight : Q) (devicePixelRatio : option Q) : Surface.t :=
  let ratio :=
    match devicePixelRatio with
    | Some d => if Qeq_bool d 0 then 1 else d
    | None => 1
    end in
  let dpr := Qmax 1 (Qmin 2 ratio) in
  let width := Qmax 320 (Math_floor rectWidth) in
  let h := Qmax 320 (Math_floor rectHeight) in
  Surface.mk (Math_floor (width * dpr)) (Math_floor (h * dpr)) width h dpr.

(* ================================================================= *)
(** * Properties *)
(* ================================================================= *)

(** ** The generator *)

Section RngFacts.

Lemma toUint32_range z : (0 <= toUint32 z < two32)%Z.
Proof. unfold toUint32, two32. apply Z.mod_pos_bound. lia. Qed.

Lemma toInt32_range z : (- 2147483648 <= toInt32 z < 2147483648)%Z.
Proof.
  unfold toInt32, two32.
  pose proof (Z.mod_pos_bound (z + 2147483648) 4294967296). lia.
Qed.

Lemma ushr32_0 z : ushr32 z 0 = toUint32 z.
Proof. unfold ushr32. apply Z.shiftr_0_r. Qed.

Lemma toUint32_idem z : toUint32 (toUint32 z) = toUint32 z.
Proof. unfold toUint32, two32. apply Z.mod_mod. lia. Qed.

Lemma toUint32_small z : (0 <= z < two32)%Z -> toUint32 z = z.
Proof. intros Hz. unfold toUint32. apply Z.mod_small. exact Hz. Qed.

Lemma output_range t : (0 <= output t < two32)%Z.
Proof. unfold output. rewrite ushr32_0. apply toUint32_range. Qed.

Lemma mixSeed_range parts : (0 <= mixSeed parts < two32)%Z.
Proof. unfold mixSeed. rewrite ushr32_0. apply toUint32_range. Qed.

Lemma mulberry32_mixSeed parts : mulberry32 (mixSeed parts) = mixSeed parts.
Proof.
  unfold mulberry32. rewrite ushr32_0.
  apply toUint32_small, mixSeed_range.
Qed.

(** Every value a closure returns lies in [0, 1). *)
Lemma next_unit t : 0 <= fst (next t) /\ fst (next t) < 1.
Proof.
  unfold next. cbn [fst].
  pose proof (output_range (t + 0x6d2b79f5)) as [Hlo Hhi]. unfold two32 in Hhi.
  split.
  - unfold Qle. cbn [Qnum Qden]. lia.
  - unfold Qlt. cbn [Qnum Qden]. lia.
Qed.

Lemma next_state t : snd (next t) = (t + 0x6d2b79f5)%Z.
Proof. reflexivity. Qed.

Lemma draws_unit k : forall t, Forall (fun v => 0 <= v /\ v < 1) (draws k t).
Proof.
  induction k as [|k IH]; intros t; cbn [draws].
  - constructor.
  - destruct (next t) as [v t'] eqn:E. constructor.
    + pose proof (next_unit t) as Hn. rewrite E in Hn. exact Hn.
    + apply IH.
Qed.

(** The [i]-th value is a fixed function of the initial state. *)
Lemma draws_closed_form k : forall t,
  draws k t =
  map (fun i => output (t + (Z.of_nat i + 1) * 0x6d2b79f5) # 4294967296) (seq 0 k).
Proof.
  induction k as [|k IH]; intros t; cbn [draws].
  - reflexivity.
  - unfold next. cbn [seq map].
    rewrite IH, <- seq_shift, map_map.
    replace (Z.of_nat 0 + 1)%Z with 1%Z by reflexivity.
    rewrite Z.mul_1_l. f_equal.
    apply map_ext. intros i. do 2 f_equal. lia.
Qed.

End RngFacts.

(** C9.  For every list of seed parts, each of the first [k] calls of the
    stream [mulberry32 (mixSeed parts)] returns a value [v] with
    [0 <= v < 1], and the sequence is a fixed function of the stream seed:
    its [i]-th value is the output word at state
    [seed + (i + 1) * 0x6d2b79f5], over 2^32. *)
Theorem stream_values_in_unit_interval (parts : list Z) (k : nat) :
  Forall (fun v => 0 <= v /\ v < 1) (draws k (mulberry32 (mixSeed parts))) /\
  draws k (mulberry32 (mixSeed parts)) =
  map (fun i => output (mixSeed parts + (Z.of_nat i + 1) * 0x6d2b79f5) # 4294967296)
      (seq 0 k).
Proof.
  split.
  - apply draws_unit.
  - rewrite mulberry32_mixSeed. apply draws_closed_form.
Qed.

(** ** The scene builder *)

Section BuilderFacts.

(** One iteration of the planet loop: four calls of [rand], then the
    rest of the loop from the advanced closure and orbit. *)
Lemma basePlanets_loop_step seed k i c t :
  let v1 := fst (next t) in
  let v2 := fst (next (t + 0x6d2b79f5)%Z) in
  let v3 := fst (next (t + 0x6d2b79f5 + 0x6d2b79f5)%Z) in
  let v4 := fst (next (t + 0x6d2b79f5 + 0x6d2b79f5 + 0x6d2b79f5)%Z) in
  let c' := c + (orbitGapMin + v1 * (orbitGapMax - orbitGapMin)) in
  fst (basePlanets_loop seed (S k) i c t) =
  Planet.mk c' (4 + Math_floor (v2 * 10)) (v3 * Math_PI * 2) (pick palette v4) ""
    (Some (genMoons seed i)) None (genRings seed i)
  :: fst (basePlanets_loop seed k (i + 1)%Z c'
            (t + 0x6d2b79f5 + 0x6d2b79f5 + 0x6d2b79f5 + 0x6d2b79f5)%Z).
Proof.
  cbn [basePlanets_loop]. unfold bind, call, ret, next. cbn [fst snd].
  destruct (basePlanets_loop seed k _ _ _) as [rest t']. reflexivity.
Qed.

Lemma basePlanets_loop_length seed k : forall i c t,
  length (fst (basePlanets_loop seed k i c t)) = k.
Proof.
  induction k as [|k IH]; intros i c t.
  - reflexivity.
  - rewrite basePlanets_loop_step. cbn [length]. now rewrite IH.
Qed.

(** The gap drawn from a value in [0, 1) lies in [35, 70). *)
Lemma gap_bounds v :
  0 <= v /\ v < 1 ->
  35 <= orbitGapMin + v * (orbitGapMax - orbitGapMin) /\
  orbitGapMin + v * (orbitGapMax - orbitGapMin) < 70.
Proof. unfold orbitGapMin, orbitGapMax. intros [Hlo Hhi]. split; lra. Qed.

(** From orbit [c] on, the radii are strictly increasing and each is at
    least [c + 35]. *)
Lemma basePlanets_loop_sorted seed k : forall i c t,
  let radii := map Planet.orbitRadius (fst (basePlanets_loop seed k i c t)) in
  StronglySorted Qlt radii /\ Forall (fun r => c + 35 <= r) radii.
Proof.
  induction k as [|k IH]; intros i c t radii; subst radii.
  - cbn. split; constructor.
  - rewrite basePlanets_loop_step. cbn zeta. cbn [map Planet.orbitRadius].
    pose proof (gap_bounds _ (next_unit t)) as [Hg _].
    set (c' := c + _) in *.
    destruct (IH (i + 1)%Z c'
                (t + 0x6d2b79f5 + 0x6d2b79f5 + 0x6d2b79f5 + 0x6d2b79f5)%Z)
      as [Hs Hf].
    assert (Hc : c + 35 <= c') by (subst c'; lra).
    split.
    + constructor; [exact Hs|].
      eapply Forall_impl; [exact Hf|]. cbn. intros r Hr. lra.
    + constructor; [exact Hc|].
      eapply Forall_impl; [exact Hf|]. cbn. intros r Hr. lra.
Qed.

End BuilderFacts.

Section ComposeFacts.

Lemma planets_lookup e i :
  planets e !! i = compose e i <$> basePlanets e !! i.
Proof. unfold planets. apply list_lookup_imap. Qed.

Lemma planets_length e : length (planets e) = length (basePlanets e).
Proof. unfold planets. apply length_imap. Qed.

Lemma basePlanets_length e :
  length (basePlanets e) = Z.to_nat (Editor.numPlanets e).
Proof. unfold basePlanets, evalGen. apply basePlanets_loop_length. Qed.

(** Composition copies the orbit radius of the generated planet. *)
Lemma planets_orbitRadius e :
  map Planet.orbitRadius (planets e) = map Planet.orbitRadius (basePlanets e).
Proof.
  apply list_eq. intros i.
  rewrite !list_lookup_fmap, planets_lookup.
  destruct (basePlanets e !! i); reflexivity.
Qed.

Lemma StronglySorted_lookup {A} (R : A -> A -> Prop) (l : list A) :
  StronglySorted R l ->
  forall i j x y, (i < j)%nat -> l !! i = Some x -> l !! j = Some y -> R x y.
Proof.
  induction 1 as [|a l Hs IH Hf]; intros i j x y Hij Hi Hj.
  - rewrite lookup_nil in Hi. discriminate.
  - destruct j as [|j]; [lia|]. cbn in Hj.
    destruct i as [|i]; cbn in Hi.
    + injection Hi as <-. exact (Forall_lookup_1 _ _ _ _ Hf Hj).
    + apply (IH i j); [lia|assumption..].
Qed.

End ComposeFacts.

(** C4.  In every composed scene the orbit radii are strictly increasing
    with the planet index, and the first planet's orbit radius lies in
    [75, 110] = [40 + 35, 40 + 70]. *)
Theorem orbit_radii_strictly_increasing (e : Editor.t) :
  (forall i j p q,
     planets e !! i = Some p -> planets e !! j = Some q -> (i < j)%nat ->
     Planet.orbitRadius p < Planet.orbitRadius q) /\
  (forall p,
     planets e !! 0%nat = Some p ->
     75 <= Planet.orbitRadius p /\ Planet.orbitRadius p <= 110).
Proof.
  split.
  - intros i j p q Hp Hq Hij.
    pose proof (basePlanets_loop_sorted (Editor.seed e)
                  (Z.to_nat (Editor.numPlanets e)) 0 minOrbit
                  (mulberry32 (Editor.seed e))) as [Hs _].
    cbn zeta in Hs. fold (evalGen (basePlanets_loop (Editor.seed e)
      (Z.to_nat (Editor.numPlanets e)) 0 minOrbit) (mulberry32 (Editor.seed e))) in Hs.
    change (evalGen _ _) with (basePlanets e) in Hs.
    rewrite <- planets_orbitRadius in Hs.
    apply (StronglySorted_lookup _ _ Hs i j); [exact Hij| |].
    + rewrite list_lookup_fmap, Hp. reflexivity.
    + rewrite list_lookup_fmap, Hq. reflexivity.
  - intros p Hp. rewrite planets_lookup in Hp.
    unfold basePlanets, evalGen in Hp.
    destruct (Z.to_nat (Editor.numPlanets e)) as [|k].
    + cbn in Hp. discriminate.
    + rewrite basePlanets_loop_step in Hp. cbn zeta in Hp.
      rewrite (lookup_cons _ _ 0%nat) in Hp. cbn [fmap option_fmap option_map] in Hp.
      injection Hp as <-. cbn [compose Planet.orbitRadius].
      pose proof (gap_bounds _ (next_unit (mulberry32 (Editor.seed e)))) as [Hlo Hhi].
      unfold next in Hlo, Hhi. cbn [fst] in Hlo, Hhi.
      unfold minOrbit. split; lra.
Qed.

(** The default scene (seed 123456789, six planets): planets 0 and 1. *)
Lemma orbit_radii_strictly_increasing_witness :
  exists p q,
    planets initialEditor !! 0%nat = Some p /\
    planets initialEditor !! 1%nat = Some q /\
    Planet.orbitRadius p < Planet.orbitRadius q /\
    75 <= Planet.orbitRadius p /\ Planet.orbitRadius p <= 110.
Proof.
  destruct (planets initialEditor !! 0%nat) as [p|] eqn:Hp;
    [|vm_compute in Hp; discriminate].
  destruct (planets initialEditor !! 1%nat) as [q|] eqn:Hq;
    [|vm_compute in Hq; discriminate].
  exists p, q. split; [reflexivity|]. split; [reflexivity|].
  destruct (orbit_radii_strictly_increasing initialEditor) as [Hinc Hfirst].
  split.
  - apply (Hinc 0%nat 1%nat); [exact Hp|exact Hq|lia].
  - apply Hfirst. exact Hp.
Defined.

(** ** Seeds enter only through their low 32 bits *)

Lemma fold_left_cons {A B} (f : A -> B -> A) (x : B) (l : list B) (a : A) :
  fold_left f (x :: l) a = fold_left f l (f a x).
Proof. reflexivity. Qed.

Section SeedCongruence.
Variables s1 s2 : Z.
Hypothesis Hs : (s1 mod 4294967296 = s2 mod 4294967296)%Z.

Lemma toUint32_congr : toUint32 s1 = toUint32 s2.
Proof. exact Hs. Qed.

Lemma toInt32_congr : toInt32 s1 = toInt32 s2.
Proof.
  unfold toInt32, two32.
  rewrite <- (Zplus_mod_idemp_l s1), <- (Zplus_mod_idemp_l s2), Hs.
  reflexivity.
Qed.

Lemma mulberry32_congr : mulberry32 s1 = mulberry32 s2.
Proof. unfold mulberry32, ushr32. rewrite toUint32_congr. reflexivity. Qed.

Lemma xor32_congr c : xor32 s1 c = xor32 s2 c.
Proof. unfold xor32. rewrite toInt32_congr. reflexivity. Qed.

Lemma mixStep_congr h : mixStep h s1 = mixStep h s2.
Proof. unfold mixStep, or32. rewrite toInt32_congr. reflexivity. Qed.

Lemma mixSeed_congr rest : mixSeed (s1 :: rest) = mixSeed (s2 :: rest).
Proof.
  unfold mixSeed. rewrite !fold_left_cons, mixStep_congr. reflexivity.
Qed.

Lemma genMoons_congr i : genMoons s1 i = genMoons s2 i.
Proof. unfold genMoons. rewrite mixSeed_congr. reflexivity. Qed.

Lemma genRings_congr i : genRings s1 i = genRings s2 i.
Proof. unfold genRings. rewrite mixSeed_congr. reflexivity. Qed.

Lemma basePlanets_loop_congr k : forall i c t,
  fst (basePlanets_loop s1 k i c t) = fst (basePlanets_loop s2 k i c t).
Proof.
  induction k as [|k IH]; intros i c t.
  - reflexivity.
  - rewrite !basePlanets_loop_step. cbn zeta.
    rewrite genMoons_congr, genRings_congr, IH. reflexivity.
Qed.

End SeedCongruence.

Section SeedCongruenceScene.
Variable e : Editor.t.
Variable s' : Z.
Hypothesis Hs : (Editor.seed e mod 4294967296 = s' mod 4294967296)%Z.

Lemma basePlanets_congr : basePlanets (setSeed s' e) = basePlanets e.
Proof.
  unfold basePlanets, evalGen. cbn [setSeed Editor.seed Editor.numPlanets].
  rewrite <- (mulberry32_congr _ _ Hs).
  symmetry. apply basePlanets_loop_congr. exact Hs.
Qed.

Lemma defaultNames_congr : defaultNames (setSeed s' e) = defaultNames e.
Proof.
  unfold defaultNames. rewrite basePlanets_congr.
  cbn [setSeed Editor.seed]. rewrite <- (xor32_congr _ _ Hs). reflexivity.
Qed.

Lemma getPlanetName_congr i : getPlanetName (setSeed s' e) i = getPlanetName e i.
Proof. unfold getPlanetName. rewrite defaultNames_congr. reflexivity. Qed.

Lemma compose_congr i src : compose (setSeed s' e) i src = compose e i src.
Proof. unfold compose. rewrite getPlanetName_congr. reflexivity. Qed.

Lemma planets_congr : planets (setSeed s' e) = planets e.
Proof.
  unfold planets. rewrite basePlanets_congr.
  apply imap_ext. intros i src _. apply compose_congr.
Qed.

End SeedCongruenceScene.

(** The renderers read the seed through [xor32] and [mixSeed] only. *)
Section SeedCongruenceRender.
Context `{Host}.
Variables s1 s2 : Z.
Hypothesis Hs : (s1 mod 4294967296 = s2 mod 4294967296)%Z.
Variables (pl : list Planet.t) (st : list Station.t) (sm : bool).
Variables (gm mn mx on ox ls : Q) (lc : string) (sb : bool).
Variables (lp : LabelPosition) (bl : list Belt.t).

Let p1 := Props.mk s1 pl st sm gm mn mx on ox ls lc sb lp bl.
Let p2 := Props.mk s2 pl st sm gm mn mx on ox ls lc sb lp bl.

Ltac seed_congr :=
  subst p1 p2;
  cbn [Props.seed Props.planets Props.stations Props.showMoons Props.globalMoons
       Props.moonMinSize Props.moonMaxSize Props.moonOrbitMin Props.moonOrbitMax
       Props.labelSize Props.labelColor Props.showLabelBackground
       Props.labelPosition Props.belts];
  rewrite ?(mixSeed_congr s1 s2 Hs), ?(xor32_congr s1 s2 Hs);
  try reflexivity.

Lemma canvas_starfield_congr w h : Canvas.starfield p1 w h = Canvas.starfield p2 w h.
Proof. unfold Canvas.starfield. seed_congr. Qed.

Lemma canvas_beltRange_congr bi belt :
  Canvas.beltRange p1 bi belt = Canvas.beltRange p2 bi belt.
Proof. unfold Canvas.beltRange. seed_congr. Qed.

Lemma canvas_drawBelts_congr w h : Canvas.drawBelts p1 w h = Canvas.drawBelts p2 w h.
Proof.
  unfold Canvas.drawBelts. replace (Props.belts p2) with (Props.belts p1) by reflexivity.
  apply imap_ext. intros bi belt _.
  unfold Canvas.drawBelt. rewrite canvas_beltRange_congr. seed_congr.
Qed.

Lemma canvas_moons_loop_congr k : Canvas.moons_loop p1 k = Canvas.moons_loop p2 k.
Proof.
  induction k as [|k IH].
  - reflexivity.
  - cbn [Canvas.moons_loop]. rewrite IH. reflexivity.
Qed.

Lemma canvas_drawPlanets_congr w h :
  Canvas.drawPlanets p1 w h = Canvas.drawPlanets p2 w h.
Proof.
  unfold Canvas.drawPlanets. replace (Props.planets p2) with (Props.planets p1) by reflexivity.
  apply imap_ext. intros idx p _.
  unfold Canvas.drawPlanet, Canvas.drawMoons. rewrite canvas_moons_loop_congr. seed_congr.
Qed.

Lemma svg_stars_congr w h : Svg.stars p1 w h = Svg.stars p2 w h.
Proof. unfold Svg.stars. seed_congr. Qed.

Lemma svg_beltRange_congr bi belt : Svg.beltRange p1 bi belt = Svg.beltRange p2 bi belt.
Proof. unfold Svg.beltRange. seed_congr. Qed.

Lemma svg_beltsMarkup_congr w h : Svg.beltsMarkup p1 w h = Svg.beltsMarkup p2 w h.
Proof.
  unfold Svg.beltsMarkup, Svg.beltsData.
  replace (Props.belts p2) with (Props.belts p1) by reflexivity.
  f_equal. apply imap_ext. intros bi belt _.
  unfold Svg.beltParticles. rewrite svg_beltRange_congr. seed_congr.
Qed.

Lemma svg_moonData_loop_congr k : Svg.moonData_loop p1 k = Svg.moonData_loop p2 k.
Proof.
  induction k as [|k IH].
  - reflexivity.
  - cbn [Svg.moonData_loop]. rewrite IH. reflexivity.
Qed.

Lemma svg_moonData_congr w h : Svg.moonData p1 w h = Svg.moonData p2 w h.
Proof.
  unfold Svg.moonData. replace (Props.planets p2) with (Props.planets p1) by reflexivity.
  f_equal. apply imap_ext. intros idx p _.
  unfold Svg.moonData_planet. rewrite svg_moonData_loop_congr. seed_congr.
Qed.

Lemma svg_planetElems_congr w h mw mh :
  Svg.planetElems p1 w h mw mh = Svg.planetElems p2 w h mw mh.
Proof.
  unfold Svg.planetElems. replace (Props.planets p2) with (Props.planets p1) by reflexivity.
  apply imap_ext. intros idx p _.
  unfold Svg.planetElem, Svg.moonElems. rewrite svg_moonData_congr. reflexivity.
Qed.

End SeedCongruenceRender.

(** C10.  Two seeds congruent modulo 2^32 generate the same planets (with
    their moon counts and rings), default names, composed scene,
    starfield, belt particles and drawn planets with their moons, in both
    renderers and for every planet count; in the markup, whatever the
    size [mw], [mh] its moon data were computed at. *)
Theorem seed_used_modulo_two32 `{Host} (e : Editor.t) (s' : Z) (w h mw mh : Q) :
  (Editor.seed e mod 4294967296 = s' mod 4294967296)%Z ->
  basePlanets (setSeed s' e) = basePlanets e /\
  defaultNames (setSeed s' e) = defaultNames e /\
  planets (setSeed s' e) = planets e /\
  Canvas.starfield (editorProps (setSeed s' e)) w h
    = Canvas.starfield (editorProps e) w h /\
  Canvas.drawBelts (editorProps (setSeed s' e)) w h
    = Canvas.drawBelts (editorProps e) w h /\
  Canvas.drawPlanets (editorProps (setSeed s' e)) w h
    = Canvas.drawPlanets (editorProps e) w h /\
  Svg.stars (editorProps (setSeed s' e)) w h = Svg.stars (editorProps e) w h /\
  Svg.beltsMarkup (editorProps (setSeed s' e)) w h
    = Svg.beltsMarkup (editorProps e) w h /\
  Svg.planetElems (editorProps (setSeed s' e)) w h mw mh
    = Svg.planetElems (editorProps e) w h mw mh.
Proof.
  intros Hs.
  assert (Hs' : (s' mod 4294967296 = Editor.seed e mod 4294967296)%Z)
    by (symmetry; exact Hs).
  unfold editorProps. rewrite (planets_congr e s' Hs).
  cbn [setSeed Editor.seed Editor.stations Editor.labelSize Editor.labelColor
       Editor.showLabelBackground Editor.labelPosition Editor.belts].
  repeat split.
  - apply basePlanets_congr, Hs.
  - apply defaultNames_congr, Hs.
  - apply canvas_starfield_congr, Hs'.
  - apply canvas_drawBelts_congr, Hs'.
  - apply canvas_drawPlanets_congr, Hs'.
  - apply svg_stars_congr, Hs'.
  - apply svg_beltsMarkup_congr, Hs'.
  - apply svg_planetElems_congr, Hs'.
Qed.

(** The default scene under seed 123456789 and under 123456789 + 2^32. *)
Lemma seed_used_modulo_two32_witness :
  (Editor.seed initialEditor mod 4294967296
   = (123456789 + 4294967296) mod 4294967296)%Z /\
  basePlanets (setSeed (123456789 + 4294967296) initialEditor)
    = basePlanets initialEditor /\
  defaultNames (setSeed (123456789 + 4294967296) initialEditor)
    = defaultNames initialEditor.
Proof.
  split; [reflexivity|].
  pose proof (seed_used_modulo_two32 (H := sampleHost) initialEditor
                (123456789 + 4294967296) 1200 700 1200 700 eq_refl) as HH.
  split; [apply HH|apply HH].
Defined.

(** ** Belts read the planets through their orbit radii only *)

Section BeltFacts.
Context `{Host}.

Lemma at_index_fmap {A B} (f : A -> B) (l : list A) (i : Z) :
  at_index (f <$> l) i = f <$> at_index l i.
Proof.
  unfold at_index. destruct (i <? 0)%Z; [reflexivity|].
  apply list_lookup_fmap.
Qed.

Variables p1 p2 : Props.t.
Hypothesis Hseed : Props.seed p1 = Props.seed p2.
Hypothesis Hradii :
  Planet.orbitRadius <$> Props.planets p1 = Planet.orbitRadius <$> Props.planets p2.

Lemma canvas_beltRange_radii bi belt :
  Canvas.beltRange p1 bi belt = Canvas.beltRange p2 bi belt.
Proof.
  unfold Canvas.beltRange. rewrite Hseed.
  pose proof (f_equal last Hradii) as Hlast. rewrite !fmap_last in Hlast.
  assert (Hfree :
    match last (Props.planets p1) with Some p => Planet.orbitRadius p | None => 300 end =
    match last (Props.planets p2) with Some p => Planet.orbitRadius p | None => 300 end).
  { destruct (last (Props.planets p1)), (last (Props.planets p2));
      cbn in Hlast; congruence. }
  rewrite Hfree.
  destruct (Belt.type belt); [reflexivity|].
  destruct (Belt.gapIndex belt) as [g|]; [|reflexivity].
  pose proof (f_equal (fun l => at_index l g) Hradii) as Ha.
  pose proof (f_equal (fun l => at_index l (g + 1)%Z) Hradii) as Hb.
  cbn beta in Ha, Hb. rewrite !at_index_fmap in Ha, Hb.
  destruct (at_index (Props.planets p1) g), (at_index (Props.planets p2) g);
    cbn in Ha; try discriminate; [|reflexivity].
  destruct (at_index (Props.planets p1) (g + 1)), (at_index (Props.planets p2) (g + 1));
    cbn in Hb; try discriminate; [|reflexivity].
  injection Ha as ->. injection Hb as ->. reflexivity.
Qed.

Lemma svg_beltRange_radii bi belt :
  Svg.beltRange p1 bi belt = Svg.beltRange p2 bi belt.
Proof. exact (canvas_beltRange_radii bi belt). Qed.

Hypothesis Hbelts : Props.belts p1 = Props.belts p2.

Lemma canvas_drawBelts_radii w h : Canvas.drawBelts p1 w h = Canvas.drawBelts p2 w h.
Proof.
  unfold Canvas.drawBelts. rewrite Hbelts.
  apply imap_ext. intros bi belt _.
  unfold Canvas.drawBelt. rewrite canvas_beltRange_radii, Hseed. reflexivity.
Qed.

Lemma svg_beltsData_radii w h : Svg.beltsData p1 w h = Svg.beltsData p2 w h.
Proof.
  unfold Svg.beltsData. rewrite Hbelts.
  apply imap_ext. intros bi belt _.
  unfold Svg.beltParticles. rewrite svg_beltRange_radii, Hseed. reflexivity.
Qed.

End BeltFacts.

Section EditorInputs.
Context `{Host}.
Variables e1 e2 : Editor.t.
Hypothesis Hseed : Editor.seed e1 = Editor.seed e2.
Hypothesis Hnum : Editor.numPlanets e1 = Editor.numPlanets e2.

Lemma basePlanets_inputs : basePlanets e1 = basePlanets e2.
Proof. unfold basePlanets. rewrite Hseed, Hnum. reflexivity. Qed.

Lemma editorProps_radii :
  Planet.orbitRadius <$> Props.planets (editorProps e1)
  = Planet.orbitRadius <$> Props.planets (editorProps e2).
Proof.
  cbn [editorProps Props.planets].
  change (map Planet.orbitRadius (planets e1) = map Planet.orbitRadius (planets e2)).
  rewrite !planets_orbitRadius, basePlanets_inputs. reflexivity.
Qed.

Hypothesis Hbelts : Editor.belts e1 = Editor.belts e2.

Lemma canvas_drawBelts_inputs w h :
  Canvas.drawBelts (editorProps e1) w h = Canvas.drawBelts (editorProps e2) w h.
Proof.
  apply canvas_drawBelts_radii; [exact Hseed|exact editorProps_radii|exact Hbelts].
Qed.

Lemma svg_beltsData_inputs w h :
  Svg.beltsData (editorProps e1) w h = Svg.beltsData (editorProps e2) w h.
Proof.
  apply svg_beltsData_radii; [exact Hseed|exact editorProps_radii|exact Hbelts].
Qed.

End EditorInputs.

(** C1.  Scene generation is a function of its inputs alone: two editor
    states with the same seed and planet count, whatever their overrides,
    names, stations and label settings, build identical base planet lists
    (orbit, size, angle, colour, moon count and ring parameters, element
    for element); with the same belt list they also draw identical belt
    particle arrays on surfaces of the same size, in both renderers. *)
Theorem scene_generation_deterministic `{Host} (e1 e2 : Editor.t) (w h : Q) :
  Editor.seed e1 = Editor.seed e2 ->
  Editor.numPlanets e1 = Editor.numPlanets e2 ->
  basePlanets e1 = basePlanets e2 /\
  (Editor.belts e1 = Editor.belts e2 ->
   Canvas.drawBelts (editorProps e1) w h = Canvas.drawBelts (editorProps e2) w h /\
   Svg.beltsData (editorProps e1) w h = Svg.beltsData (editorProps e2) w h).
Proof.
  intros Hseed Hnum.
  split; [exact (basePlanets_inputs e1 e2 Hseed Hnum)|]. intros Hbelts.
  split.
  - apply canvas_drawBelts_inputs; assumption.
  - apply svg_beltsData_inputs; assumption.
Qed.

(** The sample scene, and the same scene after planet 2 is resized and
    renamed: same seed, count and belts. *)
Lemma scene_generation_deterministic_witness :
  let e2 := onPlanetChange 2
              (Override.mk (Some 9) None (Some "Vesta") None None None)
              sampleEditor in
  basePlanets sampleEditor = basePlanets e2 /\
  Canvas.drawBelts (H := sampleHost) (editorProps sampleEditor) 1200 700
    = Canvas.drawBelts (H := sampleHost) (editorProps e2) 1200 700 /\
  Svg.beltsData (H := sampleHost) (editorProps sampleEditor) 1200 700
    = Svg.beltsData (H := sampleHost) (editorProps e2) 1200 700.
Proof.
  intros e2.
  destruct (scene_generation_deterministic (H := sampleHost) sampleEditor e2
              1200 700 eq_refl eq_refl) as [Hb Hp].
  split; [exact Hb|]. apply Hp. reflexivity.
Defined.

(** ** Overrides *)

Section OverrideFacts.

(** Writing slot [i] of an array leaves every other slot as it reads. *)
Lemma array_set_lookup_ne {A} (l : list (option A)) (i j : nat) (v : A) :
  j <> i -> mjoin (array_set l i v !! j) = mjoin (l !! j).
Proof.
  intros Hne. unfold array_set.
  destruct (i <? length l)%nat eqn:Hi.
  - rewrite list_lookup_insert_ne by congruence. reflexivity.
  - apply Nat.ltb_ge in Hi.
    destruct (decide (j < length l)%nat) as [Hj|Hj].
    + rewrite lookup_app_l by exact Hj. reflexivity.
    + rewrite (lookup_ge_None_2 l j) by lia.
      rewrite lookup_app_r by lia.
      destruct (decide (j - length l < i - length l)%nat) as [Hk|Hk].
      * rewrite lookup_app_l by (rewrite length_replicate; exact Hk).
        rewrite lookup_replicate_2 by exact Hk. reflexivity.
      * rewrite lookup_app_r by (rewrite length_replicate; lia).
        rewrite length_replicate.
        destruct (j - length l - (i - length l))%nat as [|n] eqn:Hd; [lia|].
        reflexivity.
Qed.

Variables (e : Editor.t) (i : nat) (updates : Override.t).

Lemma onPlanetChange_basePlanets :
  basePlanets (onPlanetChange i updates e) = basePlanets e.
Proof. reflexivity. Qed.

Lemma onPlanetChange_defaultNames :
  defaultNames (onPlanetChange i updates e) = defaultNames e.
Proof. reflexivity. Qed.

Lemma onPlanetChange_override_field {A} (f : Override.t -> option A) j :
  j <> i ->
  override_field f (Editor.planetOverrides (onPlanetChange i updates e)) j
  = override_field f (Editor.planetOverrides e) j.
Proof.
  intros Hne. unfold override_field. cbn [onPlanetChange Editor.planetOverrides].
  rewrite array_set_lookup_ne by exact Hne. reflexivity.
Qed.

Lemma onPlanetChange_customNames j :
  j <> i ->
  Editor.customNames (onPlanetChange i updates e) !! j = Editor.customNames e !! j.
Proof.
  intros Hne. cbn [onPlanetChange Editor.customNames].
  destruct (Override.name updates); [|reflexivity].
  apply lookup_insert_ne. congruence.
Qed.

Lemma onPlanetChange_compose j src :
  j <> i -> compose (onPlanetChange i updates e) j src = compose e j src.
Proof.
  intros Hne. unfold compose, getPlanetName.
  rewrite !onPlanetChange_override_field by exact Hne.
  rewrite onPlanetChange_customNames by exact Hne.
  rewrite onPlanetChange_defaultNames. reflexivity.
Qed.

End OverrideFacts.

(** C2.  Changing planet [i]'s override (size, colour, name, label flag,
    moons, rings) leaves every other composed planet [j <> i] unchanged in
    all its fields, leaves the generated planets, the belt and station
    lists unchanged, and with them the belt particles and station shapes
    drawn. *)
Theorem override_isolation `{Host} (e : Editor.t) (i : nat) (updates : Override.t)
    (j : nat) (w h : Q) :
  j <> i ->
  planets (onPlanetChange i updates e) !! j = planets e !! j /\
  basePlanets (onPlanetChange i updates e) = basePlanets e /\
  Editor.belts (onPlanetChange i updates e) = Editor.belts e /\
  Editor.stations (onPlanetChange i updates e) = Editor.stations e /\
  Canvas.drawBelts (editorProps (onPlanetChange i updates e)) w h
    = Canvas.drawBelts (editorProps e) w h /\
  Canvas.drawStations (editorProps (onPlanetChange i updates e)) w h
    = Canvas.drawStations (editorProps e) w h.
Proof.
  intros Hne. split; [|split; [|split; [|split; [|split]]]].
  - rewrite !planets_lookup, onPlanetChange_basePlanets.
    destruct (basePlanets e !! j) as [src|]; [|reflexivity].
    cbn [fmap option_fmap option_map].
    rewrite onPlanetChange_compose by exact Hne. reflexivity.
  - reflexivity.
  - reflexivity.
  - reflexivity.
  - apply canvas_drawBelts_inputs; reflexivity.
  - reflexivity.
Qed.

(** Planet 2 of the sample scene is resized and renamed; planet 3 is
    looked at. *)
Lemma override_isolation_witness :
  let e' := onPlanetChange 2
              (Override.mk (Some 9) None (Some "Vesta") None None None)
              sampleEditor in
  3%nat <> 2%nat /\
  planets e' !! 3%nat = planets sampleEditor !! 3%nat /\
  Editor.stations e' = Editor.stations sampleEditor.
Proof.
  intros e'. split; [discriminate|].
  pose proof (override_isolation (H := sampleHost) sampleEditor 2
                (Override.mk (Some 9) None (Some "Vesta") None None None)
                3 1200 700 ltac:(discriminate)) as HH.
  split; apply HH.
Defined.

(** ** Belts *)

Section BeltLookup.
Context `{Host}.
Variable props : Props.t.
Variables w h : Q.

Lemma canvas_drawBelts_lookup bi :
  Canvas.drawBelts props w h !! bi
  = Canvas.drawBelt props w h bi <$> Props.belts props !! bi.
Proof. unfold Canvas.drawBelts. apply list_lookup_imap. Qed.

Lemma svg_beltsData_lookup bi :
  Svg.beltsData props w h !! bi
  = Svg.beltParticles props w h bi <$> Props.belts props !! bi.
Proof. unfold Svg.beltsData. apply list_lookup_imap. Qed.

End BeltLookup.

(** What is drawn besides the belts does not read the belt list, and a
    belt reads nothing of the other belts. *)
Section BeltIndependence.
Context `{Host}.
Variable props : Props.t.
Variable bs : list Belt.t.
Variables w h : Q.

Lemma withBelts_moons_loop k :
  Canvas.moons_loop (withBelts bs props) k = Canvas.moons_loop props k.
Proof.
  induction k as [|k IH].
  - reflexivity.
  - cbn [Canvas.moons_loop]. rewrite IH. reflexivity.
Qed.

Lemma withBelts_drawPlanets :
  Canvas.drawPlanets (withBelts bs props) w h = Canvas.drawPlanets props w h.
Proof.
  unfold Canvas.drawPlanets. cbn [withBelts Props.planets].
  apply imap_ext. intros idx p _.
  unfold Canvas.drawPlanet, Canvas.drawMoons. rewrite withBelts_moons_loop.
  reflexivity.
Qed.

Lemma withBelts_rest :
  Canvas.starfield (withBelts bs props) w h = Canvas.starfield props w h /\
  Canvas.drawOrbits (withBelts bs props) w h = Canvas.drawOrbits props w h /\
  Canvas.drawPlanets (withBelts bs props) w h = Canvas.drawPlanets props w h /\
  Canvas.drawStations (withBelts bs props) w h = Canvas.drawStations props w h /\
  Canvas.drawLabels (withBelts bs props) w h = Canvas.drawLabels props w h.
Proof.
  split; [reflexivity|]. split; [reflexivity|].
  split; [exact withBelts_drawPlanets|]. split; reflexivity.
Qed.

Lemma withBelts_drawBelt bj belt :
  Canvas.drawBelt (withBelts bs props) w h bj belt = Canvas.drawBelt props w h bj belt.
Proof. reflexivity. Qed.

End BeltIndependence.

(** C5.  For a belt anchored at gap index [g]: when planets [g] and
    [g + 1] both exist, both renderers resolve its radii to
    [inner = max(50, mean - width/2)] and [outer = inner + width], the
    mean being that of the two orbit radii; when either planet is missing
    the belt draws no particle and nothing fails: each belt of the list,
    skipped ones included, yields its own entry, what a belt draws does
    not depend on the rest of the belt list, and starfield, orbits,
    planets, stations and labels are drawn the same whatever the belt
    list is. *)
Theorem anchored_belt_resolution `{Host} (props : Props.t) (w h : Q)
    (bi : nat) (belt : Belt.t) (g : Z) :
  Props.belts props !! bi = Some belt ->
  Belt.type belt = anchored ->
  Belt.gapIndex belt = Some g ->
  (forall a b,
     at_index (Props.planets props) g = Some a ->
     at_index (Props.planets props) (g + 1) = Some b ->
     let radius := (Planet.orbitRadius a + Planet.orbitRadius b) / 2 in
     let inner := Qmax 50 (radius - Belt.width belt / 2) in
     Canvas.beltRange props bi belt = Some (inner, inner + Belt.width belt) /\
     Svg.beltRange props bi belt = Some (inner, inner + Belt.width belt)) /\
  (at_index (Props.planets props) g = None \/
   at_index (Props.planets props) (g + 1) = None ->
   Canvas.drawBelts props w h !! bi = Some [] /\
   Svg.beltsData props w h !! bi = Some []) /\
  (forall bj belt',
     Props.belts props !! bj = Some belt' ->
     Canvas.drawBelts props w h !! bj = Some (Canvas.drawBelt props w h bj belt') /\
     Svg.beltsData props w h !! bj = Some (Svg.beltParticles props w h bj belt')) /\
  (forall bs bj belt',
     Canvas.drawBelt (withBelts bs props) w h bj belt'
     = Canvas.drawBelt props w h bj belt') /\
  (forall bs,
     Canvas.starfield (withBelts bs props) w h = Canvas.starfield props w h /\
     Canvas.drawOrbits (withBelts bs props) w h = Canvas.drawOrbits props w h /\
     Canvas.drawPlanets (withBelts bs props) w h = Canvas.drawPlanets props w h /\
     Canvas.drawStations (withBelts bs props) w h = Canvas.drawStations props w h /\
     Canvas.drawLabels (withBelts bs props) w h = Canvas.drawLabels props w h).
Proof.
  intros Hbelt Htype Hgap. split; [|split; [|split; [|split]]].
  - intros a b Ha Hb radius inner.
    unfold Canvas.beltRange, Svg.beltRange. rewrite Htype, Hgap, Ha, Hb.
    split; reflexivity.
  - intros Hnone.
    rewrite canvas_drawBelts_lookup, svg_beltsData_lookup, Hbelt.
    cbn [fmap option_fmap option_map].
    unfold Canvas.drawBelt, Svg.beltParticles, Canvas.beltRange, Svg.beltRange.
    rewrite Htype, Hgap.
    destruct Hnone as [Hn|Hn]; rewrite Hn.
    + split; reflexivity.
    + destruct (at_index (Props.planets props) g); split; reflexivity.
  - intros bj belt' Hbj.
    rewrite canvas_drawBelts_lookup, svg_beltsData_lookup, Hbj.
    split; reflexivity.
  - intros bs bj belt'. apply withBelts_drawBelt.
  - intros bs. apply withBelts_rest.
Qed.

(** Scenario B: between orbit radii 100 and 160 a belt of width 40 has
    inner radius 110 and outer radius 150; with only two planets left,
    the same belt is skipped and the free belt after it is still drawn. *)
Lemma anchored_belt_resolution_witness :
  (exists inner outer,
     Canvas.beltRange (scenarioB scenarioB_planets) 0 scenarioB_belt
       = Some (inner, outer) /\
     inner == 110 /\ outer == 150) /\
  Canvas.drawBelts (H := sampleHost) (scenarioB (take 2 scenarioB_planets)) 1200 700
    !! 0%nat = Some [] /\
  length <$> (Canvas.drawBelts (H := sampleHost)
                (scenarioB (take 2 scenarioB_planets)) 1200 700 !! 1%nat)
    = Some 9%nat.
Proof.
  split; [|split].
  - destruct (anchored_belt_resolution (H := sampleHost)
                (scenarioB scenarioB_planets) 1200 700 0 scenarioB_belt 1
                eq_refl eq_refl eq_refl) as [Hres _].
    destruct (Hres _ _ eq_refl eq_refl) as [Hc _].
    eexists _, _. split; [exact Hc|]. split; reflexivity.
  - destruct (anchored_belt_resolution (H := sampleHost)
                (scenarioB (take 2 scenarioB_planets)) 1200 700 0 scenarioB_belt 1
                eq_refl eq_refl eq_refl) as [_ [Hskip _]].
    apply Hskip. right. reflexivity.
  - destruct (anchored_belt_resolution (H := sampleHost)
                (scenarioB (take 2 scenarioB_planets)) 1200 700 0 scenarioB_belt 1
                eq_refl eq_refl eq_refl) as [_ [_ [Hrest _]]].
    destruct (Hrest 1%nat _ eq_refl) as [Hc _]. rewrite Hc.
    vm_compute. reflexivity.
Defined.

(** ** Moon counts *)

Section MoonCountFacts.

Lemma Qfloor_scaled_unit (v : Q) (n : Z) :
  (0 < n)%Z -> 0 <= v /\ v < 1 -> (0 <= Qfloor (v * inject_Z n) < n)%Z.
Proof.
  intros Hn [Hlo Hhi].
  assert (Hn' : 0 < inject_Z n) by (change 0 with (inject_Z 0); rewrite <- Zlt_Qlt; exact Hn).
  split.
  - rewrite <- (Qfloor_Z 0). apply Qfloor_resp_le.
    change (inject_Z 0) with 0. apply Qmult_le_0_compat; [exact Hlo|].
    apply Qlt_le_weak. exact Hn'.
  - rewrite Zlt_Qlt. eapply Qle_lt_trans; [apply Qfloor_le|].
    rewrite <- (Qmult_1_l (inject_Z n)) at 2.
    apply Qmult_lt_compat_r; assumption.
Qed.

(** The generated moon count is the floor of four times the first value
    of the stream salted with 0xdeadbe and the planet index: one of
    0, 1, 2, 3. *)
Lemma genMoons_range seed i :
  exists n : Z,
    genMoons seed i = inject_Z n /\ (0 <= n < 4)%Z /\
    n = Qfloor (fst (next (mulberry32 (mixSeed [seed; 0xdeadbe%Z; i]))) * 4).
Proof.
  eexists. split; [reflexivity|]. split; [|reflexivity].
  apply (Qfloor_scaled_unit _ 4); [lia|]. apply next_unit.
Qed.

(** The composed planet's moon count is the override's, never the
    generated one. *)
Lemma planets_moons e i p :
  planets e !! i = Some p ->
  Planet.moons p = override_field Override.moons (Editor.planetOverrides e) i.
Proof.
  rewrite planets_lookup. destruct (basePlanets e !! i) as [src|]; [|discriminate].
  intros [= <-]. reflexivity.
Qed.

(** The renderer and the export draw no moon for a planet without an
    override of the count. *)
Lemma canvas_drawMoons_none `{Host} e idx p x y :
  Planet.moons p = None -> Canvas.drawMoons (editorProps e) idx p x y = [].
Proof.
  intros Hm. unfold Canvas.drawMoons. rewrite Hm.
  cbn [editorProps Props.showMoons Props.moonMinSize Props.moonMaxSize
       Props.globalMoons nullish].
  reflexivity.
Qed.

End MoonCountFacts.

(** C6 at the default scene (seed 123456789, six planets, no override).
    The generated moon counts are 1, 2, 0, 3, 2, 0, but every composed
    planet has no moon count, the renderer draws no moon and the export
    embeds none. *)
Theorem generated_moon_count_not_composed :
  Planet.moons <$> basePlanets initialEditor
    = [Some 1; Some 2; Some 0; Some 3; Some 2; Some 0] /\
  Planet.moons <$> planets initialEditor = replicate 6 None /\
  d_moons <$> Canvas.drawPlanets (H := sampleHost) (editorProps initialEditor) 1200 700
    = replicate 6 [] /\
  (fun d => (Doc.moonsCount d, Doc.moons d))
    <$> default [] (Doc.planets (exportJSON (H := sampleHost) initialEditor))
    = replicate 6 (None, []).
Proof. vm_compute. repeat split. Qed.

(** ** Planet count *)

Lemma clampCount_range value : (0 <= clampCount value <= 20)%Z.
Proof. unfold clampCount. lia. Qed.

Lemma handleNumChange_range value e :
  (0 <= Editor.numPlanets (handleNumChange value e) <= 20)%Z.
Proof. apply clampCount_range. Qed.

(** C8 at a document with 21 planets: the range and number inputs clamp
    to 0..20 for every value, the import sets the count to the array
    length, and 21 planets are built. *)
Theorem import_does_not_clamp_planet_count :
  (forall value e, 0 <= Editor.numPlanets (handleNumChange value e) <= 20)%Z /\
  Editor.numPlanets (importJSON oversizedDoc initialEditor) = 21%Z /\
  length (planets (importJSON oversizedDoc initialEditor)) = 21%nat.
Proof.
  split; [exact handleNumChange_range|].
  split; [reflexivity|]. vm_compute. reflexivity.
Qed.

(** ** Default names are never empty *)

Section NameFacts.

Lemma append_nonempty_r (a b : string) : b <> "" -> (a ++ b)%string <> "".
Proof.
  intros Hb. destruct a as [|c a]; cbn; [exact Hb|discriminate].
Qed.

Lemma append_nonempty_l (a b : string) : a <> "" -> (a ++ b)%string <> "".
Proof.
  intros Ha. destruct a as [|c a]; cbn; [contradiction|discriminate].
Qed.

Lemma capitalize_nonempty name : name <> "" -> capitalize name <> "".
Proof. destruct name; cbn; [contradiction|discriminate]. Qed.

(** [pick] stays inside a non-empty table for a value in [0, 1). *)
Lemma pick_In (l : list string) (v : Q) :
  l <> [] -> 0 <= v /\ v < 1 -> In (pick l v) l.
Proof.
  intros Hl Hv. unfold pick. apply nth_In.
  assert (Hlen : (0 < Z.of_nat (length l))%Z) by (destruct l; [contradiction|cbn; lia]).
  pose proof (Qfloor_scaled_unit v _ Hlen Hv). lia.
Qed.

Lemma pick_syll_nonempty v : 0 <= v /\ v < 1 -> pick syll v <> "".
Proof.
  intros Hv. pose proof (pick_In syll v ltac:(discriminate) Hv) as Hin.
  remember (pick syll v) as s eqn:Es. clear Es. unfold syll in Hin.
  cbn [In] in Hin.
  repeat (destruct Hin as [<-|Hin]; [discriminate|]). contradiction.
Qed.

Lemma syllables_nonempty parts : forall name t,
  name <> "" -> fst (syllables parts name t) <> "".
Proof.
  induction parts as [|parts IH]; intros name t Hn.
  - exact Hn.
  - cbn [syllables]. unfold bind, call. destruct (next t) as [v t'].
    apply IH. apply append_nonempty_l. exact Hn.
Qed.

Lemma syllables_two_nonempty parts t :
  (2 <= parts)%nat -> fst (syllables parts "" t) <> "".
Proof.
  intros Hp. destruct parts as [|parts]; [lia|].
  cbn [syllables]. unfold bind, call.
  pose proof (next_unit t) as Hv. destruct (next t) as [v t']. cbn [fst] in Hv.
  apply syllables_nonempty. apply append_nonempty_r, pick_syll_nonempty, Hv.
Qed.

Lemma parts_at_least_two v :
  0 <= v /\ v < 1 -> (2 <= Z.to_nat (Qfloor (2 + Math_floor (v * 2))))%nat.
Proof.
  intros Hv. unfold Math_floor.
  pose proof (Qfloor_scaled_unit v 2 ltac:(lia) Hv) as Hk.
  change (inject_Z 2) with 2 in Hk.
  assert (He : 2 + inject_Z (Qfloor (v * 2)) == inject_Z (2 + Qfloor (v * 2))).
  { rewrite inject_Z_plus. reflexivity. }
  rewrite He, Qfloor_Z. lia.
Qed.

Lemma defaultName_nonempty t : fst (defaultName t) <> "".
Proof.
  unfold defaultName, bind, call, ret.
  destruct (next t) as [c t1].
  destruct (Qltb c 0.5).
  - destruct (next t1) as [v1 t2]. destruct (next t2) as [v2 t3]. cbn [fst].
    apply append_nonempty_r, append_nonempty_l. discriminate.
  - pose proof (next_unit t1) as Hv. destruct (next t1) as [v t2]. cbn [fst] in Hv.
    pose proof (syllables_two_nonempty _ t2 (parts_at_least_two v Hv)) as Hs.
    destruct (syllables _ "" t2) as [name t3]. cbn [fst] in *.
    apply capitalize_nonempty, Hs.
Qed.

Lemma defaultNames_map_spec l : forall t,
  length (fst (defaultNames_map l t)) = length l /\
  Forall (fun n => n <> "") (fst (defaultNames_map l t)).
Proof.
  induction l as [|p l IH]; intros t.
  - split; [reflexivity|constructor].
  - cbn [defaultNames_map]. unfold bind, ret.
    pose proof (defaultName_nonempty t) as Hn.
    destruct (defaultName t) as [n t1]. cbn [fst] in Hn.
    destruct (IH t1) as [Hlen Hall].
    destruct (defaultNames_map l t1) as [rest t2]. cbn [fst length] in *.
    split; [now rewrite Hlen|constructor; assumption].
Qed.

Lemma defaultNames_length e : length (defaultNames e) = length (basePlanets e).
Proof. unfold defaultNames, evalGen. apply defaultNames_map_spec. Qed.

Lemma defaultNames_nonempty e : Forall (fun n => n <> "") (defaultNames e).
Proof. unfold defaultNames, evalGen. apply defaultNames_map_spec. Qed.

End NameFacts.

(** ** Snapshot round trip *)

Section RoundTripFacts.

Lemma importNames_snoc ps p :
  importNames (ps ++ [p]) =
  match truthy (Doc.name p) with
  | Some n => <[length ps := n]> (importNames ps)
  | None => importNames ps
  end.
Proof.
  unfold importNames. rewrite imap_app, fold_left_app. cbn [imap fold_left].
  rewrite Nat.add_0_r. reflexivity.
Qed.

Lemma importNames_lookup ps : forall i,
  importNames ps !! i = ps !! i ≫= (fun p => truthy (Doc.name p)).
Proof.
  induction ps as [|p ps IH] using rev_ind; intros i.
  - unfold importNames. cbn. apply lookup_empty.
  - rewrite importNames_snoc.
    destruct (decide (i = length ps)) as [->|Hne].
    + rewrite list_lookup_middle by reflexivity. cbn.
      destruct (truthy (Doc.name p)) as [n|].
      * apply lookup_insert_eq.
      * rewrite IH, lookup_ge_None_2 by lia. reflexivity.
    + assert (Hl : (ps ++ [p]) !! i = ps !! i).
      { destruct (decide (i < length ps)%nat).
        - apply lookup_app_l. assumption.
        - rewrite !lookup_ge_None_2; [reflexivity|lia|rewrite length_app; cbn; lia]. }
      rewrite Hl. destruct (truthy (Doc.name p)) as [n|].
      * rewrite lookup_insert_ne by congruence. apply IH.
      * apply IH.
Qed.

Lemma importRings_exportRings r : importRings (exportRings r) = r.
Proof. destruct r. reflexivity. Qed.

Lemma not_false_idem o : not_false (Some (not_false o)) = not_false o.
Proof. destruct o as [[]|]; reflexivity. Qed.

Lemma exportStation_importStation s :
  exportStation (importStation (exportStation s)) = exportStation s.
Proof. destruct s as [? ? ? ? ? ? ? ? [[]|]]; reflexivity. Qed.

Lemma importStation_exportStation s : importStation (exportStation s) = importStation s.
Proof. destruct s as [? ? ? ? ? ? ? ? [[]|]]; reflexivity. Qed.

Context `{Host}.

Lemma exportPlanet_reimported seed idx p :
  exportPlanet seed idx (reimported p) = exportPlanet seed idx p.
Proof.
  unfold exportPlanet, reimported. cbn [Planet.orbitRadius Planet.size Planet.angle
    Planet.color Planet.name Planet.moons Planet.showLabel Planet.rings].
  rewrite not_false_idem. reflexivity.
Qed.

Variables e e0 : Editor.t.

Let docs : list Doc.Planet := imap (exportPlanet (Editor.seed e)) (planets e).

Lemma importJSON_exportJSON :
  importJSON (exportJSON e) e0 =
  Editor.mk (Z.of_nat (length docs)) (Editor.seed e) (Editor.labelSize e)
    (Editor.labelColor e) (Editor.showLabelBackground e) (Editor.labelPosition e0)
    (importNames docs) (Editor.belts e)
    (map importStation (exportStation <$> Editor.stations e))
    (map (fun p => Some (importOverride p)) docs).
Proof. reflexivity. Qed.

Lemma roundtrip_basePlanets :
  basePlanets (importJSON (exportJSON e) e0) = basePlanets e.
Proof.
  rewrite importJSON_exportJSON. unfold basePlanets.
  cbn [Editor.seed Editor.numPlanets]. subst docs.
  rewrite length_imap, planets_length, basePlanets_length, !Nat2Z.id. reflexivity.
Qed.

Lemma roundtrip_defaultNames :
  defaultNames (importJSON (exportJSON e) e0) = defaultNames e.
Proof.
  unfold defaultNames. rewrite roundtrip_basePlanets.
  rewrite importJSON_exportJSON. reflexivity.
Qed.

Lemma docs_lookup i : docs !! i = exportPlanet (Editor.seed e) i <$> planets e !! i.
Proof. subst docs. apply list_lookup_imap. Qed.

(** Composition after the round trip gives the planet back, its label
    flag made explicit, provided its name is not empty. *)
Lemma roundtrip_compose i src :
  basePlanets e !! i = Some src ->
  Planet.name (compose e i src) <> "" ->
  compose (importJSON (exportJSON e) e0) i src = reimported (compose e i src).
Proof.
  intros Hsrc Hname.
  assert (Hp : planets e !! i = Some (compose e i src))
    by (rewrite planets_lookup, Hsrc; reflexivity).
  assert (Hov : forall A (f : Override.t -> option A),
    override_field f (Editor.planetOverrides (importJSON (exportJSON e) e0)) i
    = f (importOverride (exportPlanet (Editor.seed e) i (compose e i src)))).
  { intros A f. rewrite importJSON_exportJSON. cbn [Editor.planetOverrides].
    unfold override_field. rewrite list_lookup_fmap, docs_lookup, Hp. reflexivity. }
  assert (Hnm : getPlanetName (importJSON (exportJSON e) e0) i
                = Planet.name (compose e i src)).
  { unfold getPlanetName at 1. rewrite importJSON_exportJSON at 1.
    cbn [Editor.customNames]. rewrite importNames_lookup, docs_lookup, Hp.
    cbn [fmap option_fmap option_map mbind option_bind exportPlanet Doc.name truthy].
    destruct (decide (Planet.name (compose e i src) = "")); [contradiction|].
    reflexivity. }
  assert (Hrings : Planet.rings (compose e i src) = None -> Planet.rings src = None).
  { cbn [compose Planet.rings].
    destruct (override_field Override.rings (Editor.planetOverrides e) i);
      cbn; [discriminate|trivial]. }
  unfold compose at 1. rewrite !Hov, Hnm.
  cbn [importOverride exportPlanet Doc.size Doc.color Doc.moonsCount Doc.rings
       Doc.showLabel Override.size Override.color Override.moons Override.rings
       Override.showLabel nullish fmap option_fmap option_map].
  rewrite not_false_idem. unfold reimported.
  cbn [compose Planet.orbitRadius Planet.angle].
  destruct (Planet.rings (compose e i src)) as [r|] eqn:Er.
  - cbn. rewrite importRings_exportRings. rewrite <- Er. reflexivity.
  - cbn. rewrite (Hrings eq_refl). rewrite <- Er. reflexivity.
Qed.

Lemma roundtrip_planets :
  Forall (fun p => Planet.name p <> "") (planets e) ->
  planets (importJSON (exportJSON e) e0) = reimported <$> planets e.
Proof.
  intros Hnames. apply list_eq. intros i.
  rewrite list_lookup_fmap, !planets_lookup, roundtrip_basePlanets.
  destruct (basePlanets e !! i) as [src|] eqn:Hsrc; [|reflexivity].
  cbn [fmap option_fmap option_map]. f_equal.
  apply roundtrip_compose; [exact Hsrc|].
  eapply (Forall_lookup_1 _ _ i _ Hnames).
  rewrite planets_lookup, Hsrc. reflexivity.
Qed.

End RoundTripFacts.

Section MoonsDrawnAndExported.
Context `{Host}.
Variable e : Editor.t.

Lemma moons_loop_export_aligned k p x y px py : forall t,
  fst (Canvas.moons_loop (editorProps e) k p x y t)
  = concat (map (moonShapes x y (Planet.size p))
                (fst (exportMoons k px py (Planet.size p) t))).
Proof.
  induction k as [|k IH]; intros t.
  - reflexivity.
  - cbn [Canvas.moons_loop exportMoons]. unfold bind, call, ret, next.
    cbn [fst snd].
    specialize (IH (t + 0x6d2b79f5 + 0x6d2b79f5 + 0x6d2b79f5)%Z).
    destruct (Canvas.moons_loop (editorProps e) k p x y _) as [rest1 t1].
    destruct (exportMoons k px py (Planet.size p) _) as [rest2 t2].
    cbn [fst] in *. rewrite IH. reflexivity.
Qed.

Lemma moons_loop_length props k p x y : forall t,
  length (fst (Canvas.moons_loop props k p x y t)) = (2 * k)%nat.
Proof.
  induction k as [|k IH]; intros t; [reflexivity|].
  cbn [Canvas.moons_loop]. unfold bind, call, ret, next. cbn [fst snd].
  specialize (IH (t + 0x6d2b79f5 + 0x6d2b79f5 + 0x6d2b79f5)%Z).
  destruct (Canvas.moons_loop props k p x y _) as [rest t']. cbn [fst length] in *.
  lia.
Qed.

Lemma exportMoons_length k px py size : forall t,
  length (fst (exportMoons k px py size t)) = k.
Proof.
  induction k as [|k IH]; intros t; [reflexivity|].
  cbn [exportMoons]. unfold bind, call, ret, next. cbn [fst snd].
  specialize (IH (t + 0x6d2b79f5 + 0x6d2b79f5 + 0x6d2b79f5)%Z).
  destruct (exportMoons k px py size _) as [rest t']. cbn [fst length] in *.
  lia.
Qed.

Lemma exportMoons_ranges k px py size : forall t,
  Forall (fun m =>
            (0 <= Doc.m_angle m /\ Doc.m_angle m < Math_PI * 2) /\
            (10 <= Doc.m_orbit m /\ Doc.m_orbit m < 22) /\
            (1 <= Doc.m_size m /\ Doc.m_size m < 3))
         (fst (exportMoons k px py size t)).
Proof.
  induction k as [|k IH]; intros t; [constructor|].
  cbn [exportMoons]. unfold bind, call, ret.
  pose proof (next_unit t) as Ha. destruct (next t) as [a t1].
  pose proof (next_unit t1) as Ho. destruct (next t1) as [o t2].
  pose proof (next_unit t2) as Hs. destruct (next t2) as [s t3].
  specialize (IH t3). destruct (exportMoons k px py size t3) as [rest t4].
  cbn [fst] in *. constructor; [|exact IH].
  cbn [Doc.m_angle Doc.m_orbit Doc.m_size].
  replace (Qmax 0 (moonOrbitMax - moonOrbitMin)) with 12 by reflexivity.
  unfold Math_PI, moonOrbitMin, moonMinSize, moonMaxSize.
  repeat split; lra.
Qed.

(** An embedded position is the moon's place around [(px, py)]. *)
Lemma exportMoons_positions k px py size : forall t,
  Forall (fun m =>
            Doc.m_position m
            = (px + Math_cos (Doc.m_angle m) * (size + Doc.m_orbit m),
               py + Math_sin (Doc.m_angle m) * (size + Doc.m_orbit m)))
         (fst (exportMoons k px py size t)).
Proof.
  induction k as [|k IH]; intros t; [constructor|].
  cbn [exportMoons]. unfold bind, call, ret, next. cbn [fst snd].
  specialize (IH (t + 0x6d2b79f5 + 0x6d2b79f5 + 0x6d2b79f5)%Z).
  destruct (exportMoons k px py size _) as [rest t']. cbn [fst] in *.
  constructor; [reflexivity|exact IH].
Qed.

End MoonsDrawnAndExported.

(** The moon loop reads the moon settings and the planet's size only. *)
Lemma moons_loop_reads `{Host} props1 props2 p1 p2 x y :
  Props.moonMinSize props1 = Props.moonMinSize props2 ->
  Props.moonMaxSize props1 = Props.moonMaxSize props2 ->
  Props.moonOrbitMin props1 = Props.moonOrbitMin props2 ->
  Props.moonOrbitMax props1 = Props.moonOrbitMax props2 ->
  Planet.size p1 = Planet.size p2 ->
  forall k, Canvas.moons_loop props1 k p1 x y = Canvas.moons_loop props2 k p2 x y.
Proof.
  intros Hmin Hmax Homin Homax Hsize k. induction k as [|k IH]; [reflexivity|].
  cbn [Canvas.moons_loop]. rewrite IH, Hmin, Hmax, Homin, Homax, Hsize. reflexivity.
Qed.

Section RoundTripRender.
Context `{Host}.
Variables e e0 : Editor.t.
Hypothesis Hnames : Forall (fun p => Planet.name p <> "") (planets e).

(** The canvas reads neither the label flag nor anything else the round
    trip changes when it draws a planet and its moons. *)
Lemma roundtrip_drawPlanets w h :
  Canvas.drawPlanets (editorProps (importJSON (exportJSON e) e0)) w h
  = Canvas.drawPlanets (editorProps e) w h.
Proof.
  unfold Canvas.drawPlanets. cbn [editorProps Props.planets].
  rewrite (roundtrip_planets e e0 Hnames), imap_fmap.
  apply imap_ext. intros i p Hp.
  unfold Basics.compose, Canvas.drawPlanet, Canvas.drawMoons.
  rewrite (moons_loop_reads (editorProps (importJSON (exportJSON e) e0)) (editorProps e)
             (reimported p) p) by reflexivity.
  reflexivity.
Qed.

(** After the import the canvas draws, for a planet with an integer moon
    count, the moons the exported document embeds for it. *)
Lemma roundtrip_moons w h i p d :
  planets (importJSON (exportJSON e) e0) !! i = Some p ->
  default [] (Doc.planets (exportJSON e)) !! i = Some d ->
  Qceiling (nullish (Planet.moons p) 0) = Qfloor (nullish (Planet.moons p) 0) ->
  let x := w / 2 + Math_cos (Planet.angle p) * Planet.orbitRadius p in
  let y := h / 2 + Math_sin (Planet.angle p) * Planet.orbitRadius p in
  d_moons (Canvas.drawPlanet (editorProps (importJSON (exportJSON e) e0)) w h i p)
  = concat (map (moonShapes x y (Planet.size p)) (Doc.moons d)) /\
  Forall (fun m =>
            w / 2 + fst (Doc.m_position m)
            == x + Math_cos (Doc.m_angle m) * (Planet.size p + Doc.m_orbit m) /\
            h / 2 + snd (Doc.m_position m)
            == y + Math_sin (Doc.m_angle m) * (Planet.size p + Doc.m_orbit m))
         (Doc.moons d).
Proof.
  intros Hp Hd Hint x y.
  rewrite (roundtrip_planets e e0 Hnames), list_lookup_fmap in Hp.
  change (default [] (Doc.planets (exportJSON e)))
    with (imap (exportPlanet (Editor.seed e)) (planets e)) in Hd.
  rewrite list_lookup_imap in Hd.
  destruct (planets e !! i) as [p0|]; [|discriminate].
  injection Hp as <-. injection Hd as <-.
  subst x y.
  change (Planet.moons (reimported p0)) with (Planet.moons p0) in Hint.
  change (Planet.angle (reimported p0)) with (Planet.angle p0).
  change (Planet.orbitRadius (reimported p0)) with (Planet.orbitRadius p0).
  change (Planet.size (reimported p0)) with (Planet.size p0).
  split.
  - cbn [Canvas.drawPlanet d_moons]. unfold Canvas.drawMoons, exportPlanet.
    change (Planet.moons (reimported p0)) with (Planet.moons p0).
    cbn [editorProps Props.showMoons Props.moonMinSize Props.moonMaxSize
         Props.globalMoons Doc.moons].
    change (showMoons && Qle_bool moonMinSize moonMaxSize) with true.
    cbn [andb].
    destruct (Qltb 0 (nullish (Planet.moons p0) 0)); [|reflexivity].
    unfold evalGen. rewrite Hint.
    apply (moons_loop_export_aligned (importJSON (exportJSON e) e0) _ (reimported p0)).
  - unfold exportPlanet. cbn [Doc.moons].
    eapply Forall_impl; [apply exportMoons_positions|].
    cbn beta. intros m ->. cbn [fst snd]. split; ring.
Qed.

End RoundTripRender.

(** C3, as the code has it.  Exporting a scene, edited or not, in which
    no planet has the empty name and importing the document at once,
    into any editor state, gives back the seed, the belts, and every
    planet with its orbit radius, size, angle, colour, name, moon count
    and rings; the label flag of planets and stations comes back as the
    explicit boolean [showLabel !== false].  Exporting again gives the
    same document, embedded moon lists included, and the canvas draws
    the same planets and moons as before.  For a planet whose moon count
    is an integer, the moons the canvas draws after the import are the
    moons the document embeds: each with the embedded angle, orbit and
    size, at the embedded position, which is relative to the star, moved
    by the centre of the canvas. *)
Theorem snapshot_round_trip `{Host} (e e0 : Editor.t) (w h : Q) :
  Forall (fun p => Planet.name p <> "") (planets e) ->
  let e' := importJSON (exportJSON e) e0 in
  Editor.seed e' = Editor.seed e /\
  planets e' = reimported <$> planets e /\
  Editor.belts e' = Editor.belts e /\
  Editor.stations e' = importStation <$> Editor.stations e /\
  exportJSON e' = exportJSON e /\
  Canvas.drawPlanets (editorProps e') w h = Canvas.drawPlanets (editorProps e) w h /\
  (forall i p d,
     planets e' !! i = Some p ->
     default [] (Doc.planets (exportJSON e)) !! i = Some d ->
     Qceiling (nullish (Planet.moons p) 0) = Qfloor (nullish (Planet.moons p) 0) ->
     let x := w / 2 + Math_cos (Planet.angle p) * Planet.orbitRadius p in
     let y := h / 2 + Math_sin (Planet.angle p) * Planet.orbitRadius p in
     d_moons (Canvas.drawPlanet (editorProps e') w h i p)
     = concat (map (moonShapes x y (Planet.size p)) (Doc.moons d)) /\
     Forall (fun m =>
               w / 2 + fst (Doc.m_position m)
               == x + Math_cos (Doc.m_angle m) * (Planet.size p + Doc.m_orbit m) /\
               h / 2 + snd (Doc.m_position m)
               == y + Math_sin (Doc.m_angle m) * (Planet.size p + Doc.m_orbit m))
            (Doc.moons d)).
Proof.
  intros Hnames e'.
  assert (Hpl : planets e' = reimported <$> planets e)
    by exact (roundtrip_planets e e0 Hnames).
  assert (Hst : Editor.stations e' = importStation <$> Editor.stations e).
  { subst e'. rewrite importJSON_exportJSON. cbn [Editor.stations].
    rewrite <- list_fmap_compose. apply list_fmap_ext.
    intros i s _. apply importStation_exportStation. }
  split; [reflexivity|]. split; [exact Hpl|]. split; [reflexivity|].
  split; [exact Hst|]. split; [|split].
  - unfold exportJSON at 1. rewrite Hpl, Hst.
    subst e'. rewrite importJSON_exportJSON.
    cbn [Editor.seed Editor.labelSize Editor.labelColor Editor.showLabelBackground
         Editor.belts].
    unfold exportJSON. f_equal.
    + do 2 f_equal. rewrite <- list_fmap_compose. f_equal. apply list_fmap_ext.
      intros i s _. destruct s as [? ? ? ? ? ? ? ? [[]|]]; reflexivity.
    + f_equal. rewrite imap_fmap. apply imap_ext.
      intros i p _. apply exportPlanet_reimported.
  - apply roundtrip_drawPlanets. exact Hnames.
  - intros i p d. apply roundtrip_moons. exact Hnames.
Qed.

(** The sample scene with planet 1 resized, recoloured and renamed and
    two moons given to planet 3, imported into the default editor
    state: the document embeds two moons for planet 3, and the canvas
    draws them after the import. *)
Lemma snapshot_round_trip_witness :
  let e := planetMoonsInput 3 2
             (onPlanetChange 1
                (Override.mk (Some 9) (Some "#123456") (Some "Vesta") None None None)
                sampleEditor) in
  let e' := importJSON (exportJSON (H := sampleHost) e) initialEditor in
  Forall (fun p => Planet.name p <> "") (planets e) /\
  exportJSON (H := sampleHost) e' = exportJSON (H := sampleHost) e /\
  exists p d,
    planets e' !! 3%nat = Some p /\
    default [] (Doc.planets (exportJSON (H := sampleHost) e)) !! 3%nat = Some d /\
    length (Doc.moons d) = 2%nat /\
    d_moons (Canvas.drawPlanet (H := sampleHost) (editorProps e') 1200 700 3 p)
    = concat (map (moonShapes (H := sampleHost)
                     (1200 / 2 + Math_cos (Host := sampleHost) (Planet.angle p)
                                 * Planet.orbitRadius p)
                     (700 / 2 + Math_sin (Host := sampleHost) (Planet.angle p)
                                * Planet.orbitRadius p)
                     (Planet.size p))
                  (Doc.moons d)).
Proof.
  intros e e'.
  assert (Hn : Forall (fun p => Planet.name p <> "") (planets e)).
  { apply Forall_forall. intros p Hin.
    apply (list_elem_of_fmap_2 Planet.name) in Hin.
    intros Hp. rewrite Hp in Hin. vm_compute in Hin.
    repeat (apply elem_of_cons in Hin as [Hin|Hin]; [discriminate|]).
    apply elem_of_nil in Hin. exact Hin. }
  pose proof (snapshot_round_trip (H := sampleHost) e initialEditor 1200 700 Hn)
    as [_ [Hpl [_ [_ [Hexp [_ Hmoons]]]]]].
  split; [exact Hn|]. split; [exact Hexp|].
  destruct (planets e !! 3%nat) as [p0|] eqn:Hp0; [|vm_compute in Hp0; discriminate].
  assert (Hm : Planet.moons p0 = Some 2)
    by (vm_compute in Hp0; now injection Hp0 as <-).
  exists (reimported p0), (exportPlanet (H := sampleHost) (Editor.seed e) 3 p0).
  assert (Hp : planets e' !! 3%nat = Some (reimported p0))
    by (subst e'; rewrite Hpl, list_lookup_fmap, Hp0; reflexivity).
  assert (Hd : default [] (Doc.planets (exportJSON (H := sampleHost) e)) !! 3%nat
               = Some (exportPlanet (H := sampleHost) (Editor.seed e) 3 p0)).
  { change (default [] (Doc.planets (exportJSON (H := sampleHost) e)))
      with (imap (exportPlanet (H := sampleHost) (Editor.seed e)) (planets e)).
    rewrite list_lookup_imap, Hp0. reflexivity. }
  split; [exact Hp|]. split; [exact Hd|]. split.
  - unfold exportPlanet. cbn [Doc.moons]. rewrite Hm. cbn [nullish].
    change (showMoons && Qle_bool moonMinSize moonMaxSize && Qltb 0 2) with true.
    cbn match. unfold evalGen. rewrite exportMoons_length. reflexivity.
  - refine (proj1 (Hmoons 3%nat (reimported p0) _ Hp Hd _)).
    cbn [reimported Planet.moons]. rewrite Hm. reflexivity.
Defined.

(** The claim as stated fails on the label flag: planet 0 of the default
    scene has [showLabel] undefined, and [true] after the round trip; the
    sample scene's station likewise. *)
Lemma snapshot_round_trip_showLabel_differs :
  Planet.showLabel <$>
    planets (importJSON (exportJSON (H := sampleHost) initialEditor) initialEditor)
      !! 0%nat
  <> Planet.showLabel <$> planets initialEditor !! 0%nat /\
  Editor.stations (importJSON (exportJSON (H := sampleHost) sampleEditor) sampleEditor)
  <> Editor.stations sampleEditor.
Proof. split; vm_compute; discriminate. Qed.

(** ** The two renderers *)

Section NearFacts.


(** [toFixed(2)] moves a number by at most 0.005. *)
Lemma toFixed2_error q : near (toFixed2 q) q.
Proof.
  unfold near, toFixed2.
  pose proof (Qfloor_le (Qabs q * 100 + 0.5)) as Hlo.
  pose proof (Qlt_floor (Qabs q * 100 + 0.5)) as Hhi.
  rewrite inject_Z_plus in Hhi. change (inject_Z 1) with 1 in Hhi.
  remember (inject_Z (Qfloor (Qabs q * 100 + 0.5))) as n eqn:En. clear En.
  unfold Qdiv. change (/ 100) with (1 # 100).
  unfold Qltb. destruct (Qle_bool 0 q) eqn:Hq; cbn [negb].
  - apply Qle_bool_iff in Hq. rewrite (Qabs_pos q Hq) in Hlo, Hhi.
    apply Qabs_Qle_condition. split; lra.
  - assert (Hneg : q < 0).
    { apply Qnot_le_lt. intros Hc. apply Qle_bool_iff in Hc. congruence. }
    rewrite (Qabs_neg q) in Hlo, Hhi by lra.
    apply Qabs_Qle_condition. split; lra.
Qed.

Lemma near_toFixed2 a b : a == b -> near (toFixed2 a) b.
Proof.
  intros Hab. pose proof (toFixed2_error a) as Ha. unfold near in *.
  apply Qabs_Qle_condition in Ha. apply Qabs_Qle_condition. split; lra.
Qed.

End NearFacts.

Section MoonAlignment.
Context `{Host}.
Variable props : Props.t.




End MoonAlignment.

Section FilterByParent.
Variable A : Type.





End FilterByParent.

Section ExactElements.
Context `{Host}.
Variable props : Props.t.
Variables w h : Q.






End ExactElements.

Section RoundedElements.
Context `{Host}.
Variable props : Props.t.
Variables w h : Q.








End RoundedElements.

Section StationsAndLabels.
Context `{Host}.
Variable props : Props.t.
Variables w h : Q.





(** Labels: where the canvas measures the text, the markup estimates its
    width; the two agree on a host where the measured width is the
    estimate. *)
Hypothesis Hmeasure :
  forall text, measureText (Props.labelSize props) text = Svg.measure props text.


Lemma Forall2_omap_map {A B B' C} (R : B -> C -> Prop) (g : B' -> B)
    (f : A -> option B') (f' : A -> option C) (l : list A) :
  (forall x, option_Forall2 R (g <$> f x) (f' x)) ->
  Forall2 R (g <$> omap f l) (omap f' l).
Proof.
  intros Hf. induction l as [|x l IH]; [constructor|].
  cbn [omap list_omap]. specialize (Hf x).
  destruct (f x), (f' x); inversion Hf; subst; cbn; [constructor; assumption|exact IH].
Qed.


End StationsAndLabels.






(* ================================================================= *)
(** * Further properties *)
(* ================================================================= *)

(** ** What the builder generates *)

Section GeneratedRanges.

Lemma Qfloor_range (x : Q) (a b : Z) :
  inject_Z a <= x -> x < inject_Z b -> (a <= Qfloor x < b)%Z.
Proof.
  intros Hlo Hhi. split.
  - rewrite <- (Qfloor_Z a). apply Qfloor_resp_le. exact Hlo.
  - rewrite Zlt_Qlt. eapply Qle_lt_trans; [apply Qfloor_le|exact Hhi].
Qed.

Lemma genRings_ranges seed i :
  match genRings seed i with
  | Some r => ring_in_ranges r
  | None => True
  end.
Proof.
  unfold genRings, evalGen, bind, call, ret.
  generalize (mulberry32 (mixSeed [seed; 0x13579b%Z; i])). intros t0.
  destruct (next t0) as [h t1].
  destruct (Qltb h 0.25); [|exact I].
  pose proof (next_unit t1) as Hg. destruct (next t1) as [g t2].
  pose proof (next_unit t2) as Hw. destruct (next t2) as [w t3].
  pose proof (next_unit t3) as Hc. destruct (next t3) as [c t4].
  pose proof (next_unit t4) as Ho. destruct (next t4) as [o t5].
  pose proof (next_unit t5) as Hf. destruct (next t5) as [f t6].
  pose proof (next_unit t6) as Ha. destruct (next t6) as [a t7].
  cbn [fst] in *. unfold ring_in_ranges.
  cbn [Ring.enabled Ring.gap Ring.width Ring.color Ring.opacity Ring.flatten
       Ring.angleDeg].
  split; [reflexivity|]. split; [|split; [|split; [|split; [|split]]]].
  - eexists. split; [reflexivity|].
    assert (1 <= Qfloor (1 + g * 4) < 5)%Z; [|lia].
    apply Qfloor_range; unfold inject_Z; lra.
  - eexists. split; [reflexivity|].
    assert (6 <= Qfloor (6 + w * 16) < 22)%Z; [|lia].
    apply Qfloor_range; unfold inject_Z; lra.
  - apply pick_In; [discriminate|exact Hc].
  - lra.
  - lra.
  - eexists. split; [reflexivity|].
    assert (30 <= Qfloor (30 + a * 60) < 90)%Z; [|lia].
    apply Qfloor_range; unfold inject_Z; lra.
Qed.

Lemma basePlanets_loop_ranges seed k : forall i c t,
  Forall planet_in_ranges (fst (basePlanets_loop seed k i c t)).
Proof.
  induction k as [|k IH]; intros i c t.
  - constructor.
  - rewrite basePlanets_loop_step. cbn zeta. constructor; [|apply IH].
    unfold planet_in_ranges.
    cbn [Planet.size Planet.angle Planet.color Planet.name Planet.showLabel
         Planet.moons Planet.rings].
    split; [|split; [|split; [|split; [|split; [|split]]]]].
    + eexists. split; [reflexivity|].
      pose proof (Qfloor_scaled_unit _ 10 ltac:(lia) (next_unit (t + 0x6d2b79f5)%Z)).
      change (inject_Z 10) with 10 in *. lia.
    + pose proof (next_unit (t + 0x6d2b79f5 + 0x6d2b79f5)%Z) as [Hlo Hhi].
      unfold Math_PI. split; lra.
    + apply pick_In; [discriminate|apply next_unit].
    + reflexivity.
    + reflexivity.
    + destruct (genMoons_range seed i) as [m [Hm [Hr _]]].
      exists m. rewrite Hm. split; [reflexivity|lia].
    + apply genRings_ranges.
Qed.

(** Planet [j] counted from orbit [c] lies between [c + 35 (j + 1)] and
    [c + 70 (j + 1)]. *)
Lemma basePlanets_loop_orbit seed k : forall i c t j p,
  fst (basePlanets_loop seed k i c t) !! j = Some p ->
  c + 35 * inject_Z (Z.of_nat (S j)) <= Planet.orbitRadius p /\
  Planet.orbitRadius p < c + 70 * inject_Z (Z.of_nat (S j)).
Proof.
  induction k as [|k IH]; intros i c t j p Hp.
  - cbn in Hp. rewrite lookup_nil in Hp. discriminate.
  - rewrite basePlanets_loop_step in Hp. cbn zeta in Hp.
    pose proof (gap_bounds _ (next_unit t)) as [Hlo Hhi].
    remember (orbitGapMin + fst (next t) * (orbitGapMax - orbitGapMin)) as gap eqn:Eg.
    clear Eg. destruct j as [|j].
    + rewrite (lookup_cons _ _ 0%nat) in Hp. injection Hp as <-.
      cbn [Planet.orbitRadius]. change (inject_Z (Z.of_nat 1)) with 1. split; lra.
    + rewrite lookup_cons in Hp. apply IH in Hp. destruct Hp as [Hp1 Hp2].
      rewrite (Nat2Z.inj_succ (S j)). unfold Z.succ. rewrite inject_Z_plus.
      change (inject_Z 1) with 1.
      remember (inject_Z (Z.of_nat (S j))) as q eqn:Eq. clear Eq.
      split; lra.
Qed.

End GeneratedRanges.

(** X1.  Every generated planet has an integer size from 4 to 13, an
    angle in [0, 2 pi), a palette colour, no name, no label flag, a moon
    count from 0 to 3 and, when it has rings, enabled rings with gap 1..4,
    width 6..21, one of the three ring colours, opacity in [0.4, 0.7),
    flatten in [0.5, 0.9) and an angle of 30..89 degrees. *)
Theorem generated_planet_in_ranges (e : Editor.t) (i : nat) (p : Planet.t) :
  basePlanets e !! i = Some p -> planet_in_ranges p.
Proof.
  intros Hp. unfold basePlanets, evalGen in Hp.
  exact (Forall_lookup_1 _ _ _ _ (basePlanets_loop_ranges _ _ _ _ _) Hp).
Qed.

Lemma generated_planet_in_ranges_witness :
  exists p, basePlanets initialEditor !! 2%nat = Some p /\ planet_in_ranges p.
Proof.
  destruct (basePlanets initialEditor !! 2%nat) as [p|] eqn:Hp;
    [|vm_compute in Hp; discriminate].
  exists p. split; [reflexivity|].
  exact (generated_planet_in_ranges initialEditor 2 p Hp).
Defined.

(** X2.  Planet [i] of every scene orbits between [40 + 35 (i + 1)] and
    [40 + 70 (i + 1)] pixels from the star, whatever its overrides. *)
Theorem orbit_radius_bounds (e : Editor.t) (i : nat) (p : Planet.t) :
  planets e !! i = Some p ->
  40 + 35 * inject_Z (Z.of_nat (S i)) <= Planet.orbitRadius p /\
  Planet.orbitRadius p < 40 + 70 * inject_Z (Z.of_nat (S i)).
Proof.
  intros Hp. rewrite planets_lookup in Hp.
  destruct (basePlanets e !! i) as [src|] eqn:Hsrc; [|discriminate].
  injection Hp as <-. cbn [compose Planet.orbitRadius].
  unfold basePlanets, evalGen in Hsrc.
  exact (basePlanets_loop_orbit _ _ _ _ _ _ _ Hsrc).
Qed.

Lemma orbit_radius_bounds_witness :
  exists p, planets initialEditor !! 5%nat = Some p /\
            250 <= Planet.orbitRadius p /\ Planet.orbitRadius p < 460.
Proof.
  destruct (planets initialEditor !! 5%nat) as [p|] eqn:Hp;
    [|vm_compute in Hp; discriminate].
  exists p. split; [reflexivity|].
  exact (orbit_radius_bounds initialEditor 5 p Hp).
Defined.

(** ** Changing the planet count *)

Section StablePrefix.

Lemma basePlanets_loop_prefix seed k j : forall i c t,
  fst (basePlanets_loop seed k i c t)
  = take k (fst (basePlanets_loop seed (k + j) i c t)).
Proof.
  induction k as [|k IH]; intros i c t.
  - reflexivity.
  - change (S k + j)%nat with (S (k + j)). rewrite !basePlanets_loop_step.
    cbn zeta. cbn [take]. f_equal. apply IH.
Qed.

Lemma defaultNames_map_prefix k : forall l t,
  fst (defaultNames_map (take k l) t) = take k (fst (defaultNames_map l t)).
Proof.
  induction k as [|k IH]; intros l t.
  - reflexivity.
  - destruct l as [|p l]; [reflexivity|].
    cbn [take defaultNames_map]. unfold bind, ret.
    destruct (defaultName t) as [n t1]. specialize (IH l t1).
    destruct (defaultNames_map (take k l) t1) as [r1 t2].
    destruct (defaultNames_map l t1) as [r2 t3].
    cbn [fst take] in *. now rewrite IH.
Qed.

Variable e : Editor.t.
Variable n : Z.
Hypothesis Hn : (n <= Editor.numPlanets e)%Z.

Lemma basePlanets_prefix :
  basePlanets (setNumPlanets n e) = take (Z.to_nat n) (basePlanets e).
Proof.
  unfold basePlanets, evalGen. cbn [setNumPlanets Editor.seed Editor.numPlanets].
  replace (Z.to_nat (Editor.numPlanets e))
    with (Z.to_nat n + (Z.to_nat (Editor.numPlanets e) - Z.to_nat n))%nat by lia.
  apply basePlanets_loop_prefix.
Qed.

Lemma defaultNames_prefix :
  defaultNames (setNumPlanets n e) = take (Z.to_nat n) (defaultNames e).
Proof.
  unfold defaultNames, evalGen. rewrite basePlanets_prefix.
  cbn [setNumPlanets Editor.seed]. apply defaultNames_map_prefix.
Qed.

Lemma planets_prefix :
  planets (setNumPlanets n e) = take (Z.to_nat n) (planets e).
Proof.
  apply list_eq. intros i. rewrite planets_lookup, basePlanets_prefix.
  destruct (decide (i < Z.to_nat n)%nat) as [Hi|Hi].
  - rewrite !lookup_take_lt by exact Hi. rewrite planets_lookup.
    destruct (basePlanets e !! i) as [src|]; [|reflexivity].
    cbn [fmap option_fmap option_map]. f_equal.
    unfold compose, getPlanetName. rewrite defaultNames_prefix.
    rewrite lookup_take_lt by exact Hi. reflexivity.
  - rewrite !lookup_take_ge by lia. reflexivity.
Qed.

End StablePrefix.

(** X3.  Lowering the planet count keeps the remaining planets as they
    were: for a count [n] not above the current one, the generated
    planets, the default names and the composed planets are the first [n]
    of the current ones. *)
Theorem planet_count_stable_prefix (e : Editor.t) (n : Z) :
  (n <= Editor.numPlanets e)%Z ->
  basePlanets (setNumPlanets n e) = take (Z.to_nat n) (basePlanets e) /\
  defaultNames (setNumPlanets n e) = take (Z.to_nat n) (defaultNames e) /\
  planets (setNumPlanets n e) = take (Z.to_nat n) (planets e).
Proof.
  intros Hn. split; [|split].
  - apply basePlanets_prefix, Hn.
  - apply defaultNames_prefix, Hn.
  - apply planets_prefix, Hn.
Qed.

Lemma planet_count_stable_prefix_witness :
  (4 <= Editor.numPlanets sampleEditor)%Z /\
  planets (setNumPlanets 4 sampleEditor) = take 4 (planets sampleEditor).
Proof.
  split; [discriminate|].
  apply (planet_count_stable_prefix sampleEditor 4). discriminate.
Defined.

(** ** The overrides array *)

Section OverridesArray.

Lemma array_resize_length {A} (l : list (option A)) n : length (array_resize l n) = n.
Proof.
  unfold array_resize. rewrite length_app, length_take, length_replicate. lia.
Qed.

Lemma array_resize_lookup_lt {A} (l : list (option A)) n i :
  (i < n)%nat -> mjoin (array_resize l n !! i) = mjoin (l !! i).
Proof.
  intros Hi. unfold array_resize.
  destruct (decide (i < length l)%nat) as [Hl|Hl].
  - rewrite lookup_app_l by (rewrite length_take; lia).
    rewrite lookup_take_lt by exact Hi. reflexivity.
  - rewrite lookup_app_r by (rewrite length_take; lia).
    rewrite lookup_replicate_2 by (rewrite length_take; lia).
    rewrite lookup_ge_None_2 by lia. reflexivity.
Qed.

Lemma array_set_lookup_eq {A} (l : list (option A)) i (v : A) :
  mjoin (array_set l i v !! i) = Some v.
Proof.
  unfold array_set. destruct (i <? length l)%nat eqn:Hi.
  - apply Nat.ltb_lt in Hi. rewrite list_lookup_insert_eq by exact Hi. reflexivity.
  - apply Nat.ltb_ge in Hi. rewrite app_assoc.
    rewrite list_lookup_middle; [reflexivity|].
    rewrite length_app, length_replicate. lia.
Qed.

Lemma syncOverrides_basePlanets e : basePlanets (syncOverrides e) = basePlanets e.
Proof. unfold syncOverrides. destruct (decide _); reflexivity. Qed.

Lemma syncOverrides_length e :
  length (Editor.planetOverrides (syncOverrides e)) = length (basePlanets e).
Proof.
  unfold syncOverrides. destruct (decide _) as [Heq|Hne]; [exact Heq|].
  cbn [setPlanetOverrides Editor.planetOverrides]. apply array_resize_length.
Qed.

Lemma syncOverrides_field {A} (f : Override.t -> option A) e i :
  (i < length (basePlanets e))%nat ->
  override_field f (Editor.planetOverrides (syncOverrides e)) i
  = override_field f (Editor.planetOverrides e) i.
Proof.
  intros Hi. unfold syncOverrides. destruct (decide _); [reflexivity|].
  cbn [setPlanetOverrides Editor.planetOverrides]. unfold override_field.
  rewrite array_resize_lookup_lt by exact Hi. reflexivity.
Qed.

Lemma syncOverrides_rest e :
  Editor.customNames (syncOverrides e) = Editor.customNames e /\
  Editor.seed (syncOverrides e) = Editor.seed e /\
  Editor.numPlanets (syncOverrides e) = Editor.numPlanets e.
Proof. unfold syncOverrides. destruct (decide _); repeat split. Qed.

Lemma syncOverrides_defaultNames e : defaultNames (syncOverrides e) = defaultNames e.
Proof. unfold syncOverrides. destruct (decide _); reflexivity. Qed.

Lemma syncOverrides_planets e : planets (syncOverrides e) = planets e.
Proof.
  unfold planets. rewrite syncOverrides_basePlanets.
  apply imap_ext. intros i src Hsrc. apply lookup_lt_Some in Hsrc.
  unfold compose, getPlanetName.
  rewrite !syncOverrides_field by exact Hsrc.
  rewrite syncOverrides_defaultNames.
  destruct (syncOverrides_rest e) as [-> _]. reflexivity.
Qed.

(** An override slot past the end reads as a hole. *)
Lemma override_field_past {A} (f : Override.t -> option A) ov i :
  (length ov <= i)%nat -> override_field f ov i = None.
Proof.
  intros Hi. unfold override_field. rewrite lookup_ge_None_2 by exact Hi. reflexivity.
Qed.

End OverridesArray.

(** X4.  The effect that resizes the overrides array never changes the
    scene: the composed planets are the same, the array gets the length of
    the planet list, and running the effect again changes nothing. *)
Theorem syncOverrides_keeps_scene (e : Editor.t) :
  planets (syncOverrides e) = planets e /\
  length (Editor.planetOverrides (syncOverrides e)) = length (planets e) /\
  syncOverrides (syncOverrides e) = syncOverrides e.
Proof.
  split; [apply syncOverrides_planets|]. split.
  - rewrite planets_length. apply syncOverrides_length.
  - unfold syncOverrides at 1.
    destruct (decide _) as [_|Hne]; [reflexivity|].
    exfalso. apply Hne. rewrite syncOverrides_basePlanets. apply syncOverrides_length.
Qed.

(** X5.  Lowering the planet count to [n] and raising it again loses the
    overrides of the planets from index [n] on, but not their custom
    names: such a planet comes back with its generated size, colour and
    rings, without moon count or label flag, and under the name it was
    given. *)
Theorem shrink_then_grow_resets_overrides (e : Editor.t) (n m : Z)
    (i : nat) (p src : Planet.t) :
  let e1 := syncOverrides (setNumPlanets n e) in
  let e2 := syncOverrides (setNumPlanets m e1) in
  (Z.to_nat n <= i)%nat ->
  planets e2 !! i = Some p ->
  basePlanets e2 !! i = Some src ->
  Planet.size p = Planet.size src /\
  Planet.color p = Planet.color src /\
  Planet.rings p = Planet.rings src /\
  Planet.moons p = None /\
  Planet.showLabel p = None /\
  (forall name, Editor.customNames e !! i = Some name -> Planet.name p = name).
Proof.
  intros e1 e2 Hi Hp Hsrc.
  assert (Hlen1 : length (Editor.planetOverrides e1) = Z.to_nat n).
  { subst e1. rewrite syncOverrides_length, basePlanets_length. reflexivity. }
  assert (Hnone : forall A (f : Override.t -> option A),
            override_field f (Editor.planetOverrides e2) i = None).
  { intros A f. subst e2. unfold syncOverrides at 1.
    destruct (decide _) as [_|_].
    - cbn [setNumPlanets Editor.planetOverrides].
      apply override_field_past. lia.
    - cbn [setPlanetOverrides setNumPlanets Editor.planetOverrides].
      unfold override_field, array_resize.
      destruct (decide (i < length (basePlanets (setNumPlanets m e1)))%nat) as [Hlt|Hge].
      + rewrite lookup_app_r by (rewrite length_take; lia).
        rewrite lookup_replicate_2 by (rewrite length_take; lia). reflexivity.
      + rewrite lookup_ge_None_2; [reflexivity|].
        rewrite length_app, length_take, length_replicate. lia. }
  assert (Hnames : Editor.customNames e2 = Editor.customNames e).
  { subst e2 e1.
    destruct (syncOverrides_rest (setNumPlanets m (syncOverrides (setNumPlanets n e))))
      as [-> _]. cbn [setNumPlanets Editor.customNames].
    destruct (syncOverrides_rest (setNumPlanets n e)) as [-> _]. reflexivity. }
  rewrite planets_lookup, Hsrc in Hp. injection Hp as <-.
  unfold compose. rewrite !Hnone. cbn [Planet.size Planet.color Planet.rings
    Planet.moons Planet.showLabel Planet.name nullish fmap option_fmap option_map].
  repeat split.
  intros name Hname. unfold getPlanetName. rewrite Hnames, Hname. reflexivity.
Qed.

(** Planet 4 of the sample scene, resized and renamed, after the count
    goes to 2 and back to 6. *)
Lemma shrink_then_grow_resets_overrides_witness :
  let e := syncOverrides
             (onPlanetChange 4 (Override.mk (Some 20) None (Some "Vesta") None None None)
                (syncOverrides sampleEditor)) in
  let e2 := syncOverrides (setNumPlanets 6 (syncOverrides (setNumPlanets 2 e))) in
  Planet.size <$> planets e !! 4%nat = Some 20 /\
  exists p src,
    planets e2 !! 4%nat = Some p /\ basePlanets e2 !! 4%nat = Some src /\
    Planet.size p = Planet.size src /\ Planet.name p = "Vesta".
Proof.
  intros e e2. split; [vm_compute; reflexivity|].
  destruct (planets e2 !! 4%nat) as [p|] eqn:Hp; [|vm_compute in Hp; discriminate].
  destruct (basePlanets e2 !! 4%nat) as [src|] eqn:Hsrc;
    [|vm_compute in Hsrc; discriminate].
  exists p, src. split; [reflexivity|]. split; [reflexivity|].
  pose proof (shrink_then_grow_resets_overrides e 2 6 4 p src ltac:(vm_compute; lia)
                Hp Hsrc) as HH.
  split; [apply HH|]. apply HH. vm_compute. reflexivity.
Defined.

(** ** Editing a planet *)

Section ApplyOverride.
Variables (e : Editor.t) (i : nat) (u : Override.t).

Lemma onPlanetChange_field_eq {A} (f : Override.t -> option A) :
  override_field f (Editor.planetOverrides (onPlanetChange i u e)) i
  = f (Override.merge (nullish (mjoin (Editor.planetOverrides e !! i)) Override.empty) u).
Proof.
  unfold override_field. cbn [onPlanetChange Editor.planetOverrides].
  rewrite array_set_lookup_eq. reflexivity.
Qed.

Lemma old_field {A} (f : Override.t -> option A) :
  f Override.empty = None ->
  f (nullish (mjoin (Editor.planetOverrides e !! i)) Override.empty)
  = override_field f (Editor.planetOverrides e) i.
Proof.
  intros Hempty. unfold override_field.
  destruct (Editor.planetOverrides e !! i) as [[o|]|]; cbn; auto.
Qed.

Lemma onPlanetChange_compose_eq src :
  compose (onPlanetChange i u e) i src = applyUpdates u (compose e i src).
Proof.
  unfold compose, applyUpdates, getPlanetName.
  rewrite !onPlanetChange_field_eq, onPlanetChange_defaultNames.
  cbn [Override.merge Override.size Override.color Override.name Override.moons
       Override.rings Override.showLabel Planet.orbitRadius Planet.size Planet.angle
       Planet.color Planet.name Planet.moons Planet.showLabel Planet.rings].
  rewrite !old_field by reflexivity.
  cbn [onPlanetChange Editor.customNames].
  destruct u as [usize ucolor uname umoons urings ushow].
  cbn [Override.size Override.color Override.name Override.moons Override.rings
       Override.showLabel].
  destruct usize, ucolor, uname, umoons, urings, ushow;
    cbn [fmap option_fmap option_map nullish];
    rewrite ?lookup_insert_eq; reflexivity.
Qed.

End ApplyOverride.

Lemma onPlanetChange_lookup (e : Editor.t) (i : nat) (u : Override.t) (p : Planet.t) :
  planets e !! i = Some p ->
  planets (onPlanetChange i u e) !! i = Some (applyUpdates u p).
Proof.
  rewrite !planets_lookup, onPlanetChange_basePlanets.
  destruct (basePlanets e !! i) as [src|]; [|discriminate].
  cbn [fmap option_fmap option_map]. intros [= <-].
  f_equal. apply onPlanetChange_compose_eq.
Qed.

(** X6.  An edit of planet [i] shows at once: the composed planet is the
    one shown before with every field the update carries replaced (size,
    colour, name, moon count, label flag, rings) and every other field,
    earlier overrides included, kept; its orbit radius and angle never
    change. *)
Theorem onPlanetChange_applies (e : Editor.t) (i : nat) (u : Override.t) (p : Planet.t) :
  planets e !! i = Some p ->
  planets (onPlanetChange i u e) !! i = Some (applyUpdates u p).
Proof. exact (onPlanetChange_lookup e i u p). Qed.

(** Planet 1 of the sample scene is recoloured, then renamed. *)
Lemma onPlanetChange_applies_witness :
  let e1 := onPlanetChange 1 (Override.mk None (Some "#123456") None None None None)
              sampleEditor in
  let e2 := onPlanetChange 1 (Override.mk None None (Some "Ceres") None None None) e1 in
  (fun p => (Planet.color p, Planet.name p)) <$> planets e2 !! 1%nat
  = Some ("#123456", "Ceres").
Proof.
  intros e1 e2.
  destruct (planets sampleEditor !! 1%nat) as [p|] eqn:Hp;
    [|vm_compute in Hp; discriminate].
  pose proof (onPlanetChange_applies sampleEditor 1
                (Override.mk None (Some "#123456") None None None None) p Hp) as H1.
  pose proof (onPlanetChange_applies e1 1
                (Override.mk None None (Some "Ceres") None None None) _ H1) as H2.
  fold e2 in H2. rewrite H2. reflexivity.
Defined.

Section PlanetInputs.

Lemma clamp_between lo hi v : lo <= hi -> lo <= Qmax lo (Qmin hi v) /\ Qmax lo (Qmin hi v) <= hi.
Proof.
  intros Hle. split.
  - apply Q.le_max_l.
  - apply Q.max_lub; [exact Hle|apply Q.le_min_l].
Qed.

End PlanetInputs.

(** X7.  Whatever number is typed into the size or moons input of planet
    [i], the composed planet gets a size in [2, 24], respectively a moon
    count in [0, 10], and the canvas then draws at most ten moons for it
    (two shapes each). *)
Theorem planet_inputs_clamped `{Host} (e : Editor.t) (i : nat) (value : Q)
    (p : Planet.t) (x y : Q) :
  planets e !! i = Some p ->
  (exists p',
     planets (planetSizeInput i value e) !! i = Some p' /\
     2 <= Planet.size p' /\ Planet.size p' <= 24) /\
  (exists p' c,
     planets (planetMoonsInput i value e) !! i = Some p' /\
     Planet.moons p' = Some c /\ 0 <= c /\ c <= 10 /\
     (length (Canvas.drawMoons (editorProps (planetMoonsInput i value e)) i p' x y)
      <= 20)%nat).
Proof.
  intros Hp. split.
  - eexists. split; [apply onPlanetChange_lookup, Hp|].
    cbn [applyUpdates Planet.size Override.size nullish].
    apply clamp_between. discriminate.
  - eexists _, _. split; [apply onPlanetChange_lookup, Hp|].
    cbn [applyUpdates Planet.moons Override.moons nullish fmap option_fmap option_map].
    split; [reflexivity|].
    pose proof (clamp_between 0 10 value ltac:(discriminate)) as [Hlo Hhi].
    split; [exact Hlo|]. split; [exact Hhi|].
    unfold Canvas.drawMoons.
    destruct (_ && _); [|cbn; lia].
    cbn [Planet.moons nullish]. destruct (Qltb 0 _); [|cbn; lia].
    unfold evalGen.
    assert (Hlen : forall props k q x y t,
              length (fst (Canvas.moons_loop props k q x y t)) = (2 * k)%nat).
    { clear. intros props k q x y. induction k as [|k IH]; intros t; [reflexivity|].
      cbn [Canvas.moons_loop]. unfold bind, call, ret, next. cbn [fst snd].
      specialize (IH (t + 0x6d2b79f5 + 0x6d2b79f5 + 0x6d2b79f5)%Z).
      destruct (Canvas.moons_loop props k q x y _) as [rest t']. cbn [fst length] in *.
      lia. }
    rewrite Hlen.
    cbn [applyUpdates Planet.moons Override.moons nullish fmap option_fmap option_map].
    assert (Qceiling (Qmax 0 (Qmin 10 value)) <= 10)%Z; [|lia].
    rewrite <- (Qceiling_Z 10). apply Qceiling_resp_le. exact Hhi.
Qed.

Lemma planet_inputs_clamped_witness :
  (exists p',
     planets (planetSizeInput 0 1000 sampleEditor) !! 0%nat = Some p' /\
     2 <= Planet.size p' /\ Planet.size p' <= 24).
Proof.
  destruct (planets sampleEditor !! 0%nat) as [p|] eqn:Hp;
    [|vm_compute in Hp; discriminate].
  apply (planet_inputs_clamped (H := sampleHost) sampleEditor 0 1000 p 0 0 Hp).
Defined.

(** X8.  The rings checkbox of planet [i]: unchecking it stops both
    renderers from drawing the planet's ring, generated or not; checking
    it on a planet without rings gives it the default rings; and
    unchecking then checking gives an enabled ring back with its
    parameters. *)
Theorem planet_rings_toggle (e : Editor.t) (i : nat) (p : Planet.t) :
  planets e !! i = Some p ->
  (exists p',
     planets (planetRingsToggle i p false e) !! i = Some p' /\
     forall x y, Canvas.drawRing p' x y = None /\ Svg.ringElem p' x y = None) /\
  (Planet.rings p = None ->
   Planet.rings <$> planets (planetRingsToggle i p true e) !! i
   = Some (Some defaultRings)) /\
  (forall r p',
     Planet.rings p = Some r -> Ring.enabled r = true ->
     planets (planetRingsToggle i p false e) !! i = Some p' ->
     Planet.rings <$>
       planets (planetRingsToggle i p' true (planetRingsToggle i p false e)) !! i
     = Some (Some r)).
Proof.
  intros Hp. split; [|split].
  - eexists. split; [apply onPlanetChange_lookup, Hp|].
    intros x y. split; reflexivity.
  - intros Hnone. unfold planetRingsToggle.
    rewrite (onPlanetChange_lookup _ _ _ _ Hp), Hnone. reflexivity.
  - intros r p' Hr Hen Hp'.
    unfold planetRingsToggle at 1.
    rewrite (onPlanetChange_lookup _ _ _ _ Hp').
    unfold planetRingsToggle in Hp'.
    rewrite (onPlanetChange_lookup _ _ _ _ Hp) in Hp'. injection Hp' as <-.
    rewrite Hr. cbn. destruct r as [en g wd c o f a]. cbn in Hen. subst en.
    reflexivity.
Qed.

(** Planet 2 of the default scene has generated rings. *)
Lemma planet_rings_toggle_witness :
  exists p p',
    planets initialEditor !! 2%nat = Some p /\
    planets (planetRingsToggle 2 p false initialEditor) !! 2%nat = Some p' /\
    Canvas.drawRing p' 0 0 = None.
Proof.
  destruct (planets initialEditor !! 2%nat) as [p|] eqn:Hp;
    [|vm_compute in Hp; discriminate].
  destruct (planet_rings_toggle initialEditor 2 p Hp) as [[p' [Hp' Hd]] _].
  exists p, p'. split; [reflexivity|]. split; [exact Hp'|]. apply Hd.
Defined.

(** ** Importing a document *)

Section ImportFacts.
Variables (doc : Doc.t) (ps : list Doc.Planet) (e : Editor.t).
Hypothesis Hps : Doc.planets doc = Some ps.

Lemma importJSON_planets_fields :
  Editor.numPlanets (importJSON doc e) = Z.of_nat (length ps) /\
  Editor.planetOverrides (importJSON doc e) = map (fun p => Some (importOverride p)) ps /\
  Editor.customNames (importJSON doc e) = importNames ps.
Proof.
  unfold importJSON, importPlanets. rewrite Hps. repeat split.
Qed.

Lemma importJSON_basePlanets_length :
  length (basePlanets (importJSON doc e)) = length ps.
Proof.
  rewrite basePlanets_length.
  destruct importJSON_planets_fields as [-> _]. apply Nat2Z.id.
Qed.

Lemma importJSON_override_field {A} (f : Override.t -> option A) i d :
  ps !! i = Some d ->
  override_field f (Editor.planetOverrides (importJSON doc e)) i = f (importOverride d).
Proof.
  intros Hd. destruct importJSON_planets_fields as [_ [-> _]].
  unfold override_field. rewrite list_lookup_fmap, Hd. reflexivity.
Qed.

End ImportFacts.

(** X9.  Importing a document of the exported shape (every field
    absent, [null] or of the type the export writes) that has a planets
    array, into any state: the
    scene gets exactly as many planets as the array has entries, the
    overrides array has that length already (the resizing effect has
    nothing to do), names are kept only for entries with a non-empty name,
    and planet [i] is the planet generated from the seed with the entry's
    size, colour, moon count and rings where it gives them, its label flag
    as [showLabel !== false], and the entry's name or else the default
    name.  The entry's orbit radius, angle, position and moon list are
    not read. *)
Theorem import_decodes_planets (doc : Doc.t) (ps : list Doc.Planet) (e : Editor.t) :
  Doc.planets doc = Some ps ->
  let e' := importJSON doc e in
  length (planets e') = length ps /\
  syncOverrides e' = e' /\
  (forall i, Editor.customNames e' !! i = ps !! i ≫= (fun d => truthy (Doc.name d))) /\
  (forall i d p src,
     ps !! i = Some d -> planets e' !! i = Some p -> basePlanets e' !! i = Some src ->
     Planet.orbitRadius p = Planet.orbitRadius src /\
     Planet.angle p = Planet.angle src /\
     Planet.size p = nullish (Doc.size d) (Planet.size src) /\
     Planet.color p = nullish (Doc.color d) (Planet.color src) /\
     Planet.moons p = Doc.moonsCount d /\
     Planet.showLabel p = Some (not_false (Doc.showLabel d)) /\
     Planet.rings p = nullish (Some <$> (importRings <$> Doc.rings d)) (Planet.rings src) /\
     match truthy (Doc.name d) with
     | Some name => Planet.name p = name
     | None => defaultNames e' !! i = Some (Planet.name p)
     end).
Proof.
  intros Hps e'.
  pose proof (importJSON_planets_fields doc ps e Hps) as [Hnum [Hov Hnames]].
  pose proof (importJSON_basePlanets_length doc ps e Hps) as Hlen.
  split; [|split; [|split]].
  - rewrite planets_length. exact Hlen.
  - unfold syncOverrides. destruct (decide _) as [_|Hne]; [reflexivity|].
    exfalso. apply Hne. subst e'. rewrite Hov, Hlen. apply length_map.
  - intros i. subst e'. rewrite Hnames. apply importNames_lookup.
  - intros i d p src Hd Hp Hsrc.
    rewrite planets_lookup, Hsrc in Hp. injection Hp as <-.
    unfold compose. subst e'.
    rewrite !(importJSON_override_field doc ps e Hps _ i d Hd).
    cbn [Planet.orbitRadius Planet.angle Planet.size Planet.color Planet.moons
         Planet.showLabel Planet.rings Planet.name importOverride Override.size
         Override.color Override.moons Override.showLabel Override.rings].
    repeat (split; [reflexivity|]).
    unfold getPlanetName.
    rewrite Hnames, importNames_lookup, Hd.
    rewrite (importJSON_override_field doc ps e Hps _ i d Hd).
    cbn [mbind option_bind importOverride Override.name nullish].
    destruct (truthy (Doc.name d)) as [name|]; [reflexivity|].
    cbn [nullish].
    destruct (defaultNames (importJSON doc e) !! i) as [n|] eqn:Hn; [reflexivity|].
    exfalso. apply lookup_ge_None_1 in Hn. apply lookup_lt_Some in Hsrc.
    rewrite defaultNames_length in Hn. lia.
Qed.

(** A document with seed 42 and two planets, the first with a size, a
    colour, a name, a moon count, a hidden label and rings that give
    only their gap, the second with nothing but its place; it is
    imported into the sample scene after an edit. *)
Lemma import_decodes_planets_witness :
  let e := onPlanetChange 1 (Override.mk (Some 9) None (Some "Ceres") None None None)
             sampleEditor in
  let d0 := Doc.mkPlanet 100 (Some 7) 0 (Some "#123456") (Some "Vesta") (Some 2)
              (Some (Doc.mkRings (Some true) (Some 3) None None None None None))
              (100, 0) [] (Some false) in
  let e' := importJSON (Doc.mk (Some 42%Z) None (Some [d0; emptyDocPlanet])) e in
  length (planets e') = 2%nat /\
  Editor.customNames e' !! 1%nat = None /\
  exists p,
    planets e' !! 0%nat = Some p /\
    Planet.size p = 7 /\ Planet.color p = "#123456" /\ Planet.name p = "Vesta" /\
    Planet.moons p = Some 2 /\ Planet.showLabel p = Some false /\
    Planet.rings p = Some (Ring.mk true 3 10 "#c9b18b" 0.55 0.6 45).
Proof.
  intros e d0 e'.
  destruct (import_decodes_planets
              (Doc.mk (Some 42%Z) None (Some [d0; emptyDocPlanet]))
              [d0; emptyDocPlanet] e eq_refl)
    as [Hlen [_ [Hnames Hdec]]].
  fold e' in Hlen, Hnames, Hdec.
  split; [exact Hlen|]. split; [apply Hnames|].
  destruct (planets e' !! 0%nat) as [p|] eqn:Hp;
    [|apply lookup_ge_None_1 in Hp; rewrite Hlen in Hp; cbn in Hp; lia].
  destruct (basePlanets e' !! 0%nat) as [src|] eqn:Hsrc;
    [|rewrite planets_lookup, Hsrc in Hp; discriminate].
  destruct (Hdec 0%nat d0 p src eq_refl Hp Hsrc)
    as [_ [_ [Hsize [Hcolor [Hmoons [Hlabel [Hrings Hname]]]]]]].
  exists p. split; [reflexivity|].
  split; [exact Hsize|]. split; [exact Hcolor|]. split; [exact Hname|].
  split; [exact Hmoons|]. split; [exact Hlabel|]. exact Hrings.
Defined.

(** ** Round trips of edited scenes *)

Section RoundTripEdited.
Context `{Host}.
Variables e e0 : Editor.t.

Lemma roundtrip_stations :
  Editor.stations (importJSON (exportJSON e) e0) = importStation <$> Editor.stations e.
Proof.
  rewrite importJSON_exportJSON. cbn [Editor.stations].
  rewrite <- list_fmap_compose. apply list_fmap_ext.
  intros i s _. apply importStation_exportStation.
Qed.


(** A planet whose name is empty comes back under its default name. *)
Lemma roundtrip_empty_name i src :
  basePlanets e !! i = Some src ->
  Planet.name (compose e i src) = "" ->
  defaultNames e !! i
  = Some (Planet.name (compose (importJSON (exportJSON e) e0) i src)).
Proof.
  intros Hsrc Hname.
  assert (Hp : planets e !! i = Some (compose e i src))
    by (rewrite planets_lookup, Hsrc; reflexivity).
  cbn [compose Planet.name]. unfold getPlanetName at 1.
  rewrite roundtrip_defaultNames. rewrite importJSON_exportJSON.
  cbn [Editor.customNames Editor.planetOverrides].
  rewrite importNames_lookup, list_lookup_imap, Hp.
  unfold override_field. rewrite list_lookup_fmap, list_lookup_imap, Hp.
  cbn [fmap option_fmap option_map mbind option_bind mjoin option_join exportPlanet
       Doc.name truthy importOverride Override.name].
  rewrite Hname. cbn [nullish].
  destruct (decide ("" = "")) as [_|Hne]; [|contradiction].
  cbn [nullish]. destruct (defaultNames e !! i) as [n|] eqn:Hn; [reflexivity|].
  exfalso. apply lookup_ge_None_1 in Hn. apply lookup_lt_Some in Hsrc.
  rewrite defaultNames_length in Hn. lia.
Qed.

End RoundTripEdited.



(** X11.  A planet renamed to the empty string does not keep that name
    across export and import: it comes back under its default name, which
    is not empty. *)
Theorem round_trip_drops_empty_name `{Host} (e e0 : Editor.t) (i : nat) (p : Planet.t) :
  planets e !! i = Some p ->
  Planet.name p = "" ->
  exists p',
    planets (importJSON (exportJSON e) e0) !! i = Some p' /\
    defaultNames e !! i = Some (Planet.name p') /\
    Planet.name p' <> "".
Proof.
  intros Hp Hname. rewrite planets_lookup in Hp.
  destruct (basePlanets e !! i) as [src|] eqn:Hsrc; [|discriminate].
  injection Hp as <-.
  exists (compose (importJSON (exportJSON e) e0) i src).
  pose proof (roundtrip_empty_name e e0 i src Hsrc Hname) as Hdef.
  split; [|split].
  - rewrite planets_lookup, roundtrip_basePlanets, Hsrc. reflexivity.
  - exact Hdef.
  - exact (Forall_lookup_1 _ _ _ _ (defaultNames_nonempty e) Hdef).
Qed.

(** Planet 0 of the default scene ("Phoxenka") is renamed to "". *)
Lemma round_trip_drops_empty_name_witness :
  let e := onPlanetChange 0 (Override.mk None None (Some "") None None None)
             initialEditor in
  Planet.name <$> planets e !! 0%nat = Some "" /\
  Planet.name <$>
    planets (importJSON (exportJSON (H := sampleHost) e) initialEditor) !! 0%nat
  = Some "Phoxenka".
Proof.
  intros e. split; [vm_compute; reflexivity|].
  destruct (planets e !! 0%nat) as [p|] eqn:Hp; [|vm_compute in Hp; discriminate].
  assert (Hname : Planet.name p = "") by (vm_compute in Hp; now injection Hp as <-).
  destruct (round_trip_drops_empty_name (H := sampleHost) e initialEditor 0 p Hp Hname)
    as [p' [Hp' [Hdef _]]].
  rewrite Hp'. cbn [fmap option_fmap option_map]. rewrite <- Hdef.
  vm_compute. reflexivity.
Defined.

(** ** Moons: drawn and exported *)

(** X12.  For a planet whose moon count is an integer (or unset), the
    moons the canvas draws are exactly the moons the export embeds: moon
    by moon, the orbit guide has the exported orbit distance from the
    planet's surface and the disc has the exported size, at the exported
    angle around the planet's place on the canvas. *)
Theorem canvas_moons_are_exported_moons `{Host} (e : Editor.t) (idx : nat)
    (p : Planet.t) (x y : Q) :
  Qceiling (nullish (Planet.moons p) 0) = Qfloor (nullish (Planet.moons p) 0) ->
  Canvas.drawMoons (editorProps e) idx p x y
  = concat (map (moonShapes x y (Planet.size p))
                (Doc.moons (exportPlanet (Editor.seed e) idx p))).
Proof.
  intros Hint. unfold Canvas.drawMoons, exportPlanet.
  cbn [editorProps Props.showMoons Props.moonMinSize Props.moonMaxSize
       Props.globalMoons Props.seed Doc.moons].
  change (showMoons && Qle_bool moonMinSize moonMaxSize) with true.
  cbn [andb].
  destruct (Qltb 0 (nullish (Planet.moons p) 0)).
  - unfold evalGen. rewrite Hint. apply moons_loop_export_aligned.
  - reflexivity.
Qed.

Lemma canvas_moons_are_exported_moons_witness :
  exists p,
    planets (planetMoonsInput 3 2 sampleEditor) !! 3%nat = Some p /\
    Canvas.drawMoons (H := sampleHost) (editorProps (planetMoonsInput 3 2 sampleEditor))
      3 p 600 350
    = concat (map (moonShapes (H := sampleHost) 600 350 (Planet.size p))
                  (Doc.moons (exportPlanet (H := sampleHost) 123456789 3 p))) /\
    length (Doc.moons (exportPlanet (H := sampleHost) 123456789 3 p)) = 2%nat.
Proof.
  destruct (planets (planetMoonsInput 3 2 sampleEditor) !! 3%nat) as [p|] eqn:Hp;
    [|vm_compute in Hp; discriminate].
  exists p. split; [reflexivity|].
  assert (Hm : Planet.moons p = Some 2)
    by (vm_compute in Hp; now injection Hp as <-).
  split.
  - apply (canvas_moons_are_exported_moons (H := sampleHost)
             (planetMoonsInput 3 2 sampleEditor) 3 p 600 350).
    rewrite Hm. reflexivity.
  - unfold exportPlanet. cbn [Doc.moons]. rewrite Hm.
    unfold evalGen. rewrite exportMoons_length. reflexivity.
Defined.

(** X13.  How many moons: for a moon count [c] above zero the canvas
    draws the count rounded up (two shapes a moon) and the export embeds
    the count rounded down; for a count of zero or less, or unset, both
    have none. *)
Theorem moon_counts_drawn_and_exported `{Host} (e : Editor.t) (idx : nat)
    (p : Planet.t) (x y : Q) :
  let c := nullish (Planet.moons p) 0 in
  length (Canvas.drawMoons (editorProps e) idx p x y)
  = (if Qltb 0 c then 2 * Z.to_nat (Qceiling c) else 0)%nat /\
  length (Doc.moons (exportPlanet (Editor.seed e) idx p))
  = (if Qltb 0 c then Z.to_nat (Qfloor c) else 0)%nat.
Proof.
  intros c. unfold Canvas.drawMoons, exportPlanet.
  cbn [editorProps Props.showMoons Props.moonMinSize Props.moonMaxSize
       Props.globalMoons Props.seed Doc.moons].
  change (showMoons && Qle_bool moonMinSize moonMaxSize) with true.
  cbn [andb]. fold c. unfold evalGen.
  destruct (Qltb 0 c).
  - rewrite moons_loop_length, exportMoons_length. split; reflexivity.
  - rewrite exportMoons_length. split; reflexivity.
Qed.

(** X14.  Every exported moon has its angle in [0, 2 pi), its orbit
    distance in [10, 22) and its size in [1, 3). *)
Theorem exported_moon_ranges `{Host} (seed : Z) (idx : nat) (p : Planet.t) :
  Forall (fun m =>
            (0 <= Doc.m_angle m /\ Doc.m_angle m < Math_PI * 2) /\
            (10 <= Doc.m_orbit m /\ Doc.m_orbit m < 22) /\
            (1 <= Doc.m_size m /\ Doc.m_size m < 3))
         (Doc.moons (exportPlanet seed idx p)).
Proof.
  unfold exportPlanet. cbn [Doc.moons]. unfold evalGen. apply exportMoons_ranges.
Qed.

(** ** Belts, rings and stars on the canvas *)

Section BeltGeometry.
Context `{Host}.

Lemma clamp_range lo hi v : lo <= hi -> lo <= clamp lo hi v /\ clamp lo hi v <= hi.
Proof.
  intros Hle. unfold clamp. split.
  - apply Q.min_glb; [exact Hle|apply Q.le_max_l].
  - apply Q.le_min_l.
Qed.

Lemma particleCount_le belt : (Canvas.particleCount belt <= 900)%nat.
Proof.
  unfold Canvas.particleCount.
  pose proof (clamp_range 0 1 (Belt.density belt) ltac:(discriminate)) as [Hlo Hhi].
  remember (clamp 0 1 (Belt.density belt)) as c eqn:Ec. clear Ec.
  assert (0 <= Qfloor (900 * c) < 901)%Z; [|lia].
  apply Qfloor_range; unfold inject_Z; lra.
Qed.

Lemma particleCount_zero belt : Belt.density belt <= 0 -> Canvas.particleCount belt = 0%nat.
Proof.
  intros Hd. unfold Canvas.particleCount.
  pose proof (clamp_range 0 1 (Belt.density belt) ltac:(discriminate)) as [Hlo _].
  assert (Hhi : clamp 0 1 (Belt.density belt) <= 0).
  { unfold clamp. eapply Qle_trans; [apply Q.le_min_r|].
    apply Q.max_lub; [apply Qle_refl|exact Hd]. }
  remember (clamp 0 1 (Belt.density belt)) as c eqn:Ec. clear Ec.
  assert (0 <= Qfloor (900 * c) < 1)%Z; [|lia].
  apply Qfloor_range; unfold inject_Z; lra.
Qed.

Lemma particles_loop_spec w h k inner outer : forall t,
  length (fst (Canvas.particles_loop w h k inner outer t)) = k /\
  Forall (fun s => exists x y side, s = Rect x y side side /\ 0.5 <= side /\ side < 1.7)
         (fst (Canvas.particles_loop w h k inner outer t)).
Proof.
  induction k as [|k IH]; intros t; [split; [reflexivity|constructor]|].
  cbn [Canvas.particles_loop]. unfold bind, call, ret.
  destruct (next t) as [a t1]. destruct (next t1) as [r t2].
  pose proof (next_unit t2) as Hs. destruct (next t2) as [s t3].
  destruct (IH t3) as [Hlen Hall].
  destruct (Canvas.particles_loop w h k inner outer t3) as [rest t4].
  cbn [fst length] in *. split; [now rewrite Hlen|].
  constructor; [|exact Hall].
  eexists _, _, _. split; [reflexivity|]. split; lra.
Qed.

End BeltGeometry.

(** X15.  For every belt the canvas resolves, the inner radius is at
    least 50 and the outer radius is the inner one plus the width; a belt
    that is not anchored to a gap index is always resolved.  A belt draws
    [floor(900 * density)] particles with the density clamped to [0, 1]:
    at most 900, and none for a density of zero or less.  Every particle
    is a square with a side in [0.5, 1.7). *)
Theorem belt_radii_and_particles `{Host} (props : Props.t) (w h : Q)
    (bi : nat) (belt : Belt.t) :
  (forall inner outer,
     Canvas.beltRange props bi belt = Some (inner, outer) ->
     50 <= inner /\ outer = inner + Belt.width belt) /\
  (Belt.type belt = free \/ Belt.gapIndex belt = None ->
   exists inner outer, Canvas.beltRange props bi belt = Some (inner, outer)) /\
  (forall inner outer,
     Canvas.beltRange props bi belt = Some (inner, outer) ->
     length (Canvas.drawBelt props w h bi belt) = Canvas.particleCount belt) /\
  (length (Canvas.drawBelt props w h bi belt) <= 900)%nat /\
  (Belt.density belt <= 0 -> Canvas.drawBelt props w h bi belt = []) /\
  Forall (fun s => exists x y side, s = Rect x y side side /\ 0.5 <= side /\ side < 1.7)
         (Canvas.drawBelt props w h bi belt).
Proof.
  split; [|split; [|split; [|split; [|split]]]].
  - intros inner outer. unfold Canvas.beltRange.
    destruct (Belt.type belt), (Belt.gapIndex belt) as [g|];
      try destruct (at_index _ g); try destruct (at_index _ (g + 1));
      intros [= <- <-] || discriminate; (split; [apply Q.le_max_l|reflexivity]).
  - intros Hfree. unfold Canvas.beltRange.
    destruct Hfree as [-> | ->]; [eexists _, _; reflexivity|].
    destruct (Belt.type belt); eexists _, _; reflexivity.
  - intros inner outer Hr. unfold Canvas.drawBelt. rewrite Hr.
    unfold evalGen. apply particles_loop_spec.
  - unfold Canvas.drawBelt. destruct (Canvas.beltRange props bi belt) as [[i o]|].
    + unfold evalGen. rewrite (proj1 (particles_loop_spec _ _ _ _ _ _)).
      apply particleCount_le.
    + cbn. lia.
  - intros Hd. unfold Canvas.drawBelt.
    destruct (Canvas.beltRange props bi belt) as [[i o]|]; [|reflexivity].
    rewrite (particleCount_zero belt Hd). reflexivity.
  - unfold Canvas.drawBelt. destruct (Canvas.beltRange props bi belt) as [[i o]|].
    + unfold evalGen. apply particles_loop_spec.
    + constructor.
Qed.

(** The free belt of the sample scene: density 0.5 gives 450 particles. *)
Lemma belt_radii_and_particles_witness :
  exists inner outer,
    Canvas.beltRange (editorProps sampleEditor) 0 (Belt.mk free 80 0.5 None)
      = Some (inner, outer) /\
    50 <= inner /\ outer = inner + 80 /\
    length (Canvas.drawBelt (H := sampleHost) (editorProps sampleEditor) 1200 700 0
              (Belt.mk free 80 0.5 None)) = 450%nat.
Proof.
  destruct (belt_radii_and_particles (H := sampleHost) (editorProps sampleEditor)
              1200 700 0 (Belt.mk free 80 0.5 None))
    as [Hr [Hfree [Hlen _]]].
  destruct (Hfree (or_introl eq_refl)) as [inner [outer Hrange]].
  exists inner, outer. split; [exact Hrange|].
  destruct (Hr inner outer Hrange) as [Hi Ho].
  split; [exact Hi|]. split; [exact Ho|].
  rewrite (Hlen inner outer Hrange). reflexivity.
Defined.

(** X16.  A planet without rings, or with rings switched off, gets no
    ring.  An enabled ring is drawn as an ellipse centred on the planet
    whose horizontal radius is at least the planet's radius plus 0.5
    (gap clamped to 0 or more, width to 1 or more) and whose vertical
    radius lies between 0.2 and 1 times the horizontal one. *)
Theorem ring_geometry (p : Planet.t) (x y : Q) :
  (Planet.rings p = None -> Canvas.drawRing p x y = None) /\
  (forall r, Planet.rings p = Some r -> Ring.enabled r = false ->
             Canvas.drawRing p x y = None) /\
  (forall r, Planet.rings p = Some r -> Ring.enabled r = true ->
     exists deg rx ry,
       Canvas.drawRing p x y = Some (Rotated deg x y (Ellipse (x + 0) (y + 0) rx ry)) /\
       Planet.size p + 0.5 <= rx /\
       (0 <= rx -> 0.2 * rx <= ry /\ ry <= rx)).
Proof.
  split; [|split].
  - intros Hr. unfold Canvas.drawRing. rewrite Hr. reflexivity.
  - intros r Hr Hen. unfold Canvas.drawRing. rewrite Hr, Hen. reflexivity.
  - intros r Hr Hen. unfold Canvas.drawRing. rewrite Hr, Hen.
    eexists _, _, _. split; [reflexivity|].
    pose proof (Q.le_max_l 0 (Ring.gap r)) as Hg.
    pose proof (Q.le_max_l 1 (Ring.width r)) as Hw.
    pose proof (clamp_range 0.2 1 (Ring.flatten r) ltac:(discriminate)) as [Hf1 Hf2].
    remember (Qmax 0 (Ring.gap r)) as g eqn:Eg. clear Eg.
    remember (Qmax 1 (Ring.width r)) as wd eqn:Ew. clear Ew.
    remember (clamp 0.2 1 (Ring.flatten r)) as f eqn:Ef. clear Ef.
    unfold Qdiv. change (/ 2) with (1 # 2).
    split; [lra|]. intros Hrx.
    remember (Planet.size p + g + wd * (1 # 2)) as rx eqn:Erx. clear Erx.
    split; nra.
Qed.

Lemma ring_geometry_witness :
  exists p deg rx ry,
    planets initialEditor !! 2%nat = Some p /\
    Canvas.drawRing p 600 350 = Some (Rotated deg 600 350 (Ellipse (600 + 0) (350 + 0) rx ry)) /\
    Planet.size p + 0.5 <= rx.
Proof.
  destruct (planets initialEditor !! 2%nat) as [p|] eqn:Hp;
    [|vm_compute in Hp; discriminate].
  destruct (Planet.rings p) as [r|] eqn:Hr;
    [|vm_compute in Hp; injection Hp as <-; discriminate].
  assert (Hen : Ring.enabled r = true).
  { vm_compute in Hp. injection Hp as <-. cbn in Hr. injection Hr as <-. reflexivity. }
  destruct (ring_geometry p 600 350) as [_ [_ Hg]].
  destruct (Hg r Hr Hen) as [deg [rx [ry [Hd [Hrx _]]]]].
  exists p, deg, rx, ry. split; [reflexivity|]. split; assumption.
Defined.


Lemma starfield_loop_spec w h k : 0 <= w -> 0 <= h -> forall t,
  length (fst (Canvas.starfield_loop w h k t)) = k /\
  Forall (fun s => exists x y side, s = Rect x y side side /\
                   0 <= x /\ x <= w /\ 0 <= y /\ y <= h /\ 0 <= side /\ side < 1.5)
         (fst (Canvas.starfield_loop w h k t)).
Proof.
  intros Hw Hh. induction k as [|k IH]; intros t; [split; [reflexivity|constructor]|].
  cbn [Canvas.starfield_loop]. unfold bind, call, ret.
  pose proof (next_unit t) as Hx. destruct (next t) as [x t1].
  pose proof (next_unit t1) as Hy. destruct (next t1) as [y t2].
  pose proof (next_unit t2) as Hs. destruct (next t2) as [s t3].
  destruct (next t3) as [a t4].
  destruct (IH t4) as [Hlen Hall].
  destruct (Canvas.starfield_loop w h k t4) as [rest t5].
  cbn [fst length] in *. split; [now rewrite Hlen|].
  constructor; [|exact Hall].
  eexists _, _, _. split; [reflexivity|].
  repeat split; try nra; lra.
Qed.

(** X17.  The canvas draws one star position for an empty star list,
    otherwise as many as there are stars, up to three.  An empty list
    draws the same as a single yellow star, stars past the third are
    ignored, and the two stars of a binary system are placed
    symmetrically about the centre of the canvas. *)
Theorem star_layout `{Host} (props : Props.t) (stars : list StarType) (w h : Q) :
  length (Canvas.starPositions props stars w h)
    = Z.to_nat (Z.min 3 (Z.max 1 (Z.of_nat (length stars)))) /\
  Canvas.drawStars props [] w h = Canvas.drawStars props [yellow] w h /\
  (forall s1 s2 s3 rest,
     stars = s1 :: s2 :: s3 :: rest ->
     Canvas.drawStars props stars w h = Canvas.drawStars props [s1; s2; s3] w h) /\
  (forall s1 s2, stars = [s1; s2] ->
     exists x1 y1 x2 y2,
       Canvas.starPositions props stars w h = [(x1, y1); (x2, y2)] /\
       (x1 + x2) / 2 == w / 2 /\ (y1 + y2) / 2 == h / 2).
Proof.
  split; [|split; [|split]].
  - unfold Canvas.starPositions.
    destruct (Z.min 3 (Z.max 1 (Z.of_nat (length stars))) =? 1)%Z eqn:E1;
      [apply Z.eqb_eq in E1; rewrite E1; reflexivity|].
    destruct (Z.min 3 (Z.max 1 (Z.of_nat (length stars))) =? 2)%Z eqn:E2;
      [apply Z.eqb_eq in E2; rewrite E2; reflexivity|].
    apply Z.eqb_neq in E1, E2. cbn [map length].
    assert (Z.min 3 (Z.max 1 (Z.of_nat (length stars))) = 3)%Z as -> by lia.
    reflexivity.
  - reflexivity.
  - intros s1 s2 s3 rest ->. unfold Canvas.drawStars, Canvas.starPositions.
    assert (Z.min 3 (Z.max 1 (Z.of_nat (length (s1 :: s2 :: s3 :: rest)))) = 3)%Z as ->
      by (cbn [length]; lia).
    reflexivity.
  - intros s1 s2 ->. unfold Canvas.starPositions. cbn [length Z.of_nat].
    eexists _, _, _, _. split; [reflexivity|]. split; field.
Qed.

(** A binary system and a system of five stars. *)
Lemma star_layout_witness :
  Canvas.drawStars (H := sampleHost) (editorProps sampleEditor)
    [yellow; neutron; red_dwarf; blue_giant; black_hole] 1200 700
  = Canvas.drawStars (H := sampleHost) (editorProps sampleEditor)
      [yellow; neutron; red_dwarf] 1200 700 /\
  exists x1 y1 x2 y2,
    Canvas.starPositions (H := sampleHost) (editorProps sampleEditor)
      [yellow; neutron] 1200 700 = [(x1, y1); (x2, y2)] /\
    (x1 + x2) / 2 == 1200 / 2 /\ (y1 + y2) / 2 == 700 / 2.
Proof.
  split.
  - exact (proj1 (proj2 (proj2 (star_layout (H := sampleHost) (editorProps sampleEditor)
             [yellow; neutron; red_dwarf; blue_giant; black_hole] 1200 700)))
             yellow neutron red_dwarf [blue_giant; black_hole] eq_refl).
  - exact (proj2 (proj2 (proj2 (star_layout (H := sampleHost) (editorProps sampleEditor)
             [yellow; neutron] 1200 700))) yellow neutron eq_refl).
Defined.

(** X18.  The background of the canvas is 300 squares, each at a point
    of the canvas rectangle and with a side below 1.5, whatever the
    seed. *)
Theorem starfield_inside_canvas (props : Props.t) (w h : Q) :
  0 <= w -> 0 <= h ->
  length (Canvas.starfield props w h) = 300%nat /\
  Forall (fun s => exists x y side, s = Rect x y side side /\
                   0 <= x /\ x <= w /\ 0 <= y /\ y <= h /\ 0 <= side /\ side < 1.5)
         (Canvas.starfield props w h).
Proof.
  intros Hw Hh. unfold Canvas.starfield, evalGen. now apply starfield_loop_spec.
Qed.

Lemma starfield_inside_canvas_witness :
  length (Canvas.starfield (editorProps sampleEditor) 1200 700) = 300%nat /\
  Forall (fun s => exists x y side, s = Rect x y side side /\
                   0 <= x /\ x <= 1200 /\ 0 <= y /\ y <= 700 /\ 0 <= side /\ side < 1.5)
         (Canvas.starfield (editorProps sampleEditor) 1200 700).
Proof.
  apply (starfield_inside_canvas (editorProps sampleEditor) 1200 700);
    discriminate.
Defined.

(** ** Stations and belts: the editor's handlers and the round trip *)

Section ListEdits.
Context {A : Type}.

Lemma remove_at_delete (idx : nat) (l : list A) : remove_at idx l = delete idx l.
Proof.
  unfold remove_at. revert idx. induction l as [|x l IH]; intros idx; [now destruct idx|].
  destruct idx as [|k]; cbn [imap omap].
  - destruct (decide (0 = 0)%nat) as [_|Hne]; [|congruence]. cbn.
    rewrite (imap_ext _ (const Some)).
    + rewrite imap_const. clear IH.
      induction l as [|y l IH]; [reflexivity|]. cbn. f_equal. exact IH.
    + intros i y _. unfold Basics.compose.
      destruct (decide (S i = 0)%nat); [lia|reflexivity].
  - destruct (decide (0 = S k)%nat) as [Heq|_]; [lia|]. cbn. f_equal.
    rewrite <- IH. f_equal. apply imap_ext. intros i y _. unfold Basics.compose.
    destruct (decide (i = k)), (decide (S i = S k)); (reflexivity || lia).
Qed.

Lemma update_at_alter (idx : nat) (f : A -> A) (l : list A) :
  update_at idx f l = alter f idx l.
Proof.
  unfold update_at. revert idx. induction l as [|x l IH]; intros idx; [now destruct idx|].
  destruct idx as [|k]; cbn [imap].
  - destruct (decide (0 = 0)%nat) as [_|Hne]; [|congruence]. cbn. f_equal.
    rewrite (imap_ext _ (const id)).
    + rewrite imap_const. apply list_fmap_id.
    + intros i y _. unfold Basics.compose.
      destruct (decide (S i = 0)%nat); [lia|reflexivity].
  - destruct (decide (0 = S k)%nat) as [Heq|_]; [lia|]. cbn. f_equal.
    rewrite <- IH. apply imap_ext. intros i y _. unfold Basics.compose.
    destruct (decide (i = k)), (decide (S i = S k)); (reflexivity || lia).
Qed.

Lemma update_at_length idx (f : A -> A) l : length (update_at idx f l) = length l.
Proof. rewrite update_at_alter. apply length_alter. Qed.

Lemma update_at_lookup idx (f : A -> A) l x :
  l !! idx = Some x -> update_at idx f l !! idx = Some (f x).
Proof.
  intros Hx. rewrite update_at_alter, list_lookup_alter, Hx.
  destruct (decide (idx = idx)); [reflexivity|congruence].
Qed.

Lemma update_at_lookup_ne idx j (f : A -> A) l :
  j <> idx -> update_at idx f l !! j = l !! j.
Proof. intros Hne. rewrite update_at_alter. apply list_lookup_alter_ne. congruence. Qed.

End ListEdits.

(** X19.  Removing station [idx] keeps the stations before it where they
    are and moves each later one down by one place; an index past the end
    removes nothing.  Adding appends one station, on an orbit of radius
    [140 + 10 * n] for [n] stations already there, and removing it again
    gives the list back.  Neither touches the planets or the belts. *)
Theorem station_add_remove (now : Z) (e : Editor.t) (idx : nat) :
  (forall j, (j < idx)%nat ->
     Editor.stations (onRemoveStation idx e) !! j = Editor.stations e !! j) /\
  (forall j, (idx <= j)%nat ->
     Editor.stations (onRemoveStation idx e) !! j = Editor.stations e !! S j) /\
  ((length (Editor.stations e) <= idx)%nat -> onRemoveStation idx e = e) /\
  (exists s,
     Editor.stations (onAddStation now e) = Editor.stations e ++ [s] /\
     Station.radius s == 140 + 10 * inject_Z (Z.of_nat (length (Editor.stations e))) /\
     Station.angle s = 0 /\ Station.size s = 8 /\ Station.iconType s = diamond /\
     Station.customIconDataUrl s = None /\ Station.showLabel s = None) /\
  onRemoveStation (length (Editor.stations e)) (onAddStation now e) = e /\
  planets (onAddStation now e) = planets e /\
  planets (onRemoveStation idx e) = planets e /\
  Editor.belts (onAddStation now e) = Editor.belts e /\
  Editor.belts (onRemoveStation idx e) = Editor.belts e.
Proof.
  split; [|split; [|split; [|split; [|split]]]].
  - intros j Hj. unfold onRemoveStation, setStations. cbn [Editor.stations].
    rewrite remove_at_delete. now apply list_lookup_delete_lt.
  - intros j Hj. unfold onRemoveStation, setStations. cbn [Editor.stations].
    rewrite remove_at_delete. now apply list_lookup_delete_ge.
  - intros Hlen. unfold onRemoveStation. rewrite remove_at_delete.
    rewrite delete_take_drop, take_ge, drop_ge, app_nil_r by lia. now destruct e.
  - eexists. split; [reflexivity|]. cbn [defaultStation Station.radius Station.angle
      Station.size Station.iconType Station.customIconDataUrl Station.showLabel].
    split; [ring|]. repeat split.
  - unfold onRemoveStation, onAddStation, setStations. cbn [Editor.stations].
    rewrite remove_at_delete.
    rewrite (delete_middle (Editor.stations e) []), app_nil_r. now destruct e.
  - repeat split.
Qed.

(** Two stations are added and the first is removed: the second takes
    its place. *)
Lemma station_add_remove_witness :
  let e := onAddStation 1700000000001 (onAddStation 1700000000000 initialEditor) in
  Editor.stations (onRemoveStation 0 e) !! 0%nat = Editor.stations e !! 1%nat.
Proof.
  intros e. exact (proj1 (proj2 (station_add_remove 0 e 0)) 0%nat (le_n 0)).
Defined.

Section StationEdits.
Variable e : Editor.t.
Variable idx : nat.

Lemma onChangeStation_lookup u s :
  Editor.stations e !! idx = Some s ->
  Editor.stations (onChangeStation idx u e) !! idx = Some (StationUpdate.apply u s).
Proof. intros Hs. unfold onChangeStation, setStations. cbn [Editor.stations].
  now apply update_at_lookup. Qed.

Lemma onChangeStation_lookup_ne u j :
  j <> idx ->
  Editor.stations (onChangeStation idx u e) !! j = Editor.stations e !! j.
Proof. intros Hs. unfold onChangeStation, setStations. cbn [Editor.stations].
  now apply update_at_lookup_ne. Qed.

End StationEdits.

(** X20.  Placing station [idx] by a click sets its radius and angle and
    keeps its identifier, name, icon, colour, size, image and label
    flag; the size input stores a size between 4 and 24 and keeps the
    rest.  Either edit leaves the number of stations and every other
    station as they were, and does nothing for an index past the end. *)
Theorem station_place_and_resize (e : Editor.t) (idx : nat) (s : Station.t)
    (radius angle value : Q) :
  Editor.stations e !! idx = Some s ->
  Editor.stations (onPlaceStation idx radius angle e) !! idx
    = Some (Station.mk (Station.id s) (Station.name s) radius angle
              (Station.iconType s) (Station.color s) (Station.size s)
              (Station.customIconDataUrl s) (Station.showLabel s)) /\
  (exists size,
     Editor.stations (stationSizeInput idx value e) !! idx
       = Some (Station.mk (Station.id s) (Station.name s) (Station.radius s)
                 (Station.angle s) (Station.iconType s) (Station.color s) size
                 (Station.customIconDataUrl s) (Station.showLabel s)) /\
     4 <= size /\ size <= 24 /\ (4 <= value <= 24 -> size == value)) /\
  (forall j, j <> idx ->
     Editor.stations (onPlaceStation idx radius angle e) !! j = Editor.stations e !! j /\
     Editor.stations (stationSizeInput idx value e) !! j = Editor.stations e !! j) /\
  length (Editor.stations (onPlaceStation idx radius angle e))
    = length (Editor.stations e) /\
  length (Editor.stations (stationSizeInput idx value e)) = length (Editor.stations e).
Proof.
  intros Hs. split; [|split; [|split; [|split]]].
  - change (onPlaceStation idx radius angle e) with
      (onChangeStation idx
         (StationUpdate.mk None (Some radius) (Some angle) None None None None None) e).
    rewrite (onChangeStation_lookup e idx _ s Hs). reflexivity.
  - eexists. split; [|split; [|split]].
    + unfold stationSizeInput. rewrite (onChangeStation_lookup e idx _ s Hs). reflexivity.
    + apply Q.le_max_l.
    + apply Q.max_lub; [discriminate|apply Q.le_min_l].
    + intros [Hlo Hhi]. transitivity (Qmin 24 value).
      * apply Q.max_r. apply Q.min_glb; [discriminate|exact Hlo].
      * apply Q.min_r. exact Hhi.
  - intros j Hj. split; unfold stationSizeInput; now apply onChangeStation_lookup_ne.
  - unfold onPlaceStation, setStations. cbn [Editor.stations]. apply update_at_length.
  - unfold stationSizeInput, onChangeStation, setStations. cbn [Editor.stations].
    apply update_at_length.
Qed.

(** A station is added to the initial editor, moved and given an
    oversized icon. *)
Lemma station_place_and_resize_witness :
  let e := onAddStation 1700000000000 initialEditor in
  exists s s',
    Editor.stations e !! 0%nat = Some s /\
    Editor.stations (onPlaceStation 0 200 1 e) !! 0%nat = Some s' /\
    Station.radius s' = 200 /\ Station.angle s' = 1 /\ Station.id s' = Station.id s.
Proof.
  intros e.
  pose proof (station_place_and_resize e 0 (defaultStation 1700000000000 0)
                200 1 100 eq_refl) as [Hp _].
  eexists _, _. split; [reflexivity|]. split; [exact Hp|]. repeat split.
Defined.

Lemma planets_sorted (e : Editor.t) :
  StronglySorted Qlt (map Planet.orbitRadius (planets e)).
Proof.
  rewrite planets_orbitRadius.
  exact (proj1 (basePlanets_loop_sorted (Editor.seed e)
                  (Z.to_nat (Editor.numPlanets e)) 0 minOrbit
                  (mulberry32 (Editor.seed e)))).
Qed.

Lemma onChangeBelt_lookup e idx u b :
  Editor.belts e !! idx = Some b ->
  Editor.belts (onChangeBelt idx u e) !! idx = Some (BeltUpdate.apply u b).
Proof.
  intros Hb. unfold onChangeBelt, setBelts. cbn [Editor.belts].
  now apply update_at_lookup.
Qed.

Lemma onChangeBelt_lookup_ne e idx u j :
  j <> idx -> Editor.belts (onChangeBelt idx u e) !! j = Editor.belts e !! j.
Proof.
  intros Hne. unfold onChangeBelt, setBelts. cbn [Editor.belts].
  now apply update_at_lookup_ne.
Qed.

(** X21.  The width input of belt [idx] stores a width between 10 and
    200 (the value itself when it is in that range) and keeps the belt's
    type, density and gap; the other belts, the number of belts and the
    planets are unchanged.  The band the canvas then draws for the belt,
    when it draws one, is between 10 and 200 wide. *)
Theorem belt_width_input (e : Editor.t) (idx : nat) (b : Belt.t) (value : Q) :
  Editor.belts e !! idx = Some b ->
  let e' := beltWidthInput idx value e in
  (exists width,
     Editor.belts e' !! idx
       = Some (Belt.mk (Belt.type b) width (Belt.density b) (Belt.gapIndex b)) /\
     10 <= width /\ width <= 200 /\ (10 <= value <= 200 -> width == value) /\
     forall inner outer,
       Canvas.beltRange (editorProps e') idx
         (Belt.mk (Belt.type b) width (Belt.density b) (Belt.gapIndex b))
         = Some (inner, outer) ->
       10 <= outer - inner /\ outer - inner <= 200) /\
  (forall j, j <> idx -> Editor.belts e' !! j = Editor.belts e !! j) /\
  length (Editor.belts e') = length (Editor.belts e) /\
  planets e' = planets e.
Proof.
  intros Hb e'. split; [|split; [|split]].
  - assert (Hlo : 10 <= Qmax 10 (Qmin 200 value)) by apply Q.le_max_l.
    assert (Hhi : Qmax 10 (Qmin 200 value) <= 200)
      by (apply Q.max_lub; [discriminate|apply Q.le_min_l]).
    eexists. split; [|split; [exact Hlo|split; [exact Hhi|split]]].
    + subst e'. unfold beltWidthInput. rewrite (onChangeBelt_lookup e idx _ b Hb).
      reflexivity.
    + intros [Hl Hh]. transitivity (Qmin 200 value).
      * apply Q.max_r. apply Q.min_glb; [discriminate|exact Hl].
      * apply Q.min_r. exact Hh.
    + intros inner outer. unfold Canvas.beltRange. cbn [Belt.type Belt.gapIndex Belt.width].
      remember (Qmax 10 (Qmin 200 value)) as wd eqn:Ew. clear Ew.
      destruct (Belt.type b), (Belt.gapIndex b) as [g|];
        try destruct (at_index _ g); try destruct (at_index _ (g + 1));
        intros [= <- <-] || discriminate; split; lra.
  - intros j Hj. subst e'. unfold beltWidthInput. now apply onChangeBelt_lookup_ne.
  - subst e'. unfold beltWidthInput, onChangeBelt, setBelts. cbn [Editor.belts].
    apply update_at_length.
  - reflexivity.
Qed.

(** The belt of the sample scene is given a width of 500: 200 is stored. *)
Lemma belt_width_input_witness :
  let e := onAddBelt initialEditor in
  exists width,
    Editor.belts (beltWidthInput 0 500 e) !! 0%nat = Some (Belt.mk free width 0.5 None) /\
    10 <= width /\ width <= 200.
Proof.
  intros e.
  destruct (belt_width_input e 0 (Belt.mk free 80 0.5 None) 500 eq_refl)
    as [[width [Hw [Hlo [Hhi _]]]] _].
  exists width. split; [exact Hw|]. split; assumption.
Defined.

(** X22.  The gap select of an anchored belt offers the indices
    [0 .. planetsCount - 2].  Whichever of them is chosen, both planets
    of the gap exist, the first orbit is strictly inside the second, and
    both renderers resolve the belt: an offered gap is never skipped. *)
Theorem offered_gap_resolves (e : Editor.t) (idx : nat) (b : Belt.t) (gi : Z) :
  Editor.belts e !! idx = Some b ->
  Belt.type b = anchored ->
  (0 <= gi < Z.max 0 (Z.of_nat (length (planets e)) - 1))%Z ->
  let e' := onChangeBelt idx (BeltUpdate.mk None None None (Some gi)) e in
  let b' := Belt.mk anchored (Belt.width b) (Belt.density b) (Some gi) in
  Editor.belts e' !! idx = Some b' /\
  exists p q inner,
    at_index (planets e') gi = Some p /\
    at_index (planets e') (gi + 1) = Some q /\
    Planet.orbitRadius p < (Planet.orbitRadius p + Planet.orbitRadius q) / 2 /\
    (Planet.orbitRadius p + Planet.orbitRadius q) / 2 < Planet.orbitRadius q /\
    Canvas.beltRange (editorProps e') idx b' = Some (inner, inner + Belt.width b) /\
    Svg.beltRange (editorProps e') idx b' = Some (inner, inner + Belt.width b).
Proof.
  intros Hb Hty Hgi e' b'. split.
  - subst e' b'. rewrite (onChangeBelt_lookup e idx _ b Hb).
    unfold BeltUpdate.apply. cbn. rewrite Hty. reflexivity.
  - change (planets e') with (planets e).
    assert (H1 : (Z.to_nat gi < length (planets e))%nat) by lia.
    assert (H2 : (Z.to_nat (gi + 1) < length (planets e))%nat) by lia.
    destruct (lookup_lt_is_Some_2 _ _ H1) as [p Hp].
    destruct (lookup_lt_is_Some_2 _ _ H2) as [q Hq].
    assert (Hpq : Planet.orbitRadius p < Planet.orbitRadius q).
    { apply (StronglySorted_lookup _ _ (planets_sorted e)
               (Z.to_nat gi) (Z.to_nat (gi + 1))); [lia| |].
      - rewrite list_lookup_fmap, Hp. reflexivity.
      - rewrite list_lookup_fmap, Hq. reflexivity. }
    assert (Hap : at_index (planets e) gi = Some p).
    { unfold at_index. destruct (gi <? 0)%Z eqn:E; [lia|exact Hp]. }
    assert (Haq : at_index (planets e) (gi + 1) = Some q).
    { unfold at_index. destruct (gi + 1 <? 0)%Z eqn:E; [lia|exact Hq]. }
    exists p, q. eexists. split; [exact Hap|]. split; [exact Haq|].
    split; [|split; [|split]].
    + unfold Qdiv. change (/ 2) with (1 # 2). lra.
    + unfold Qdiv. change (/ 2) with (1 # 2). lra.
    + unfold Canvas.beltRange. subst b'. cbn [Belt.type Belt.gapIndex Belt.width].
      change (Props.planets (editorProps e')) with (planets e).
      rewrite Hap, Haq. reflexivity.
    + unfold Svg.beltRange. subst b'. cbn [Belt.type Belt.gapIndex Belt.width].
      change (Props.planets (editorProps e')) with (planets e).
      rewrite Hap, Haq. reflexivity.
Qed.

(** An anchored belt of the initial editor, whose six planets give the
    gaps 0 to 4, is set to the last gap. *)
Lemma offered_gap_resolves_witness :
  let e := setBelts [Belt.mk anchored 40 0.5 None] initialEditor in
  let e' := onChangeBelt 0 (BeltUpdate.mk None None None (Some 4%Z)) e in
  exists inner,
    Canvas.beltRange (editorProps e') 0 (Belt.mk anchored 40 0.5 (Some 4%Z))
      = Some (inner, inner + 40).
Proof.
  intros e e'.
  assert (Hgi : (0 <= 4 < Z.max 0 (Z.of_nat (length (planets e)) - 1))%Z).
  { rewrite planets_length, basePlanets_length. cbn. lia. }
  destruct (offered_gap_resolves e 0 (Belt.mk anchored 40 0.5 None) 4 eq_refl eq_refl Hgi)
    as [_ [p [q [inner [_ [_ [_ [_ [Hc _]]]]]]]]].
  exists inner. exact Hc.
Defined.

(** ** Stations across the round trip; labels on any host *)

Section StationsRoundTrip.
Context `{Host}.
Variables e e0 : Editor.t.
Variables w h : Q.

Lemma drawStation_importStation s :
  Canvas.drawStation w h (importStation s) = Canvas.drawStation w h s.
Proof. reflexivity. Qed.

Lemma stationElem_importStation s :
  Svg.stationElem w h (importStation s) = Svg.stationElem w h s.
Proof. reflexivity. Qed.

Lemma stationLabels_importStation props props' (l : list Station.t) :
  Props.labelSize props' = Props.labelSize props ->
  Props.showLabelBackground props' = Props.showLabelBackground props ->
  Props.labelPosition props' = Props.labelPosition props ->
  Props.stations props' = importStation <$> l ->
  Props.stations props = l ->
  Canvas.stationLabels props' w h = Canvas.stationLabels props w h.
Proof.
  intros Hsz Hbg Hpos Hst' Hst. unfold Canvas.stationLabels. rewrite Hst', Hst.
  clear Hst' Hst. induction l as [|s l IH]; [reflexivity|].
  cbn [fmap list_fmap omap list_omap].
  change (Station.showLabel (importStation s)) with (Some (not_false (Station.showLabel s))).
  rewrite not_false_idem.
  change (list_omap ?A ?B ?f ?l) with (omap f l) in *.
  change (list_fmap _ _ importStation l) with (importStation <$> l).
  rewrite IH.
  destruct (negb (not_false (Station.showLabel s))); [reflexivity|].
  f_equal. unfold Canvas.drawLabel, Canvas.labelAnchor, Canvas.isLeft.
  rewrite Hsz, Hbg, Hpos. reflexivity.
Qed.

End StationsRoundTrip.

(** X23.  Whatever the scene, both renderers draw every station after
    export and import exactly as before: same place, same icon or image,
    same size.  The station labels are the same too when the label
    position, which the document does not carry, is the one in force. *)
Theorem stations_drawn_after_round_trip `{Host} (e e0 : Editor.t) (w h : Q) :
  let e' := importJSON (exportJSON e) e0 in
  Canvas.drawStations (editorProps e') w h = Canvas.drawStations (editorProps e) w h /\
  Svg.stationElems (editorProps e') w h = Svg.stationElems (editorProps e) w h /\
  (Editor.labelPosition e0 = Editor.labelPosition e ->
   Canvas.stationLabels (editorProps e') w h = Canvas.stationLabels (editorProps e) w h).
Proof.
  intros e'.
  assert (Hst : Props.stations (editorProps e') = importStation <$> Editor.stations e)
    by apply roundtrip_stations.
  split; [|split].
  - unfold Canvas.drawStations. rewrite Hst.
    change (map ?f ?l) with (f <$> l). rewrite <- list_fmap_compose. reflexivity.
  - unfold Svg.stationElems. rewrite Hst.
    change (map ?f ?l) with (f <$> l). rewrite <- list_fmap_compose. reflexivity.
  - intros Hpos.
    apply (stationLabels_importStation w h (editorProps e) (editorProps e')
             (Editor.stations e)); try reflexivity; [exact Hpos|exact Hst].
Qed.

(** A station with its label flag left undefined, and the editor the
    document is imported into. *)
Lemma stations_drawn_after_round_trip_witness :
  let e := onAddStation 1700000000000 sampleEditor in
  let e' := importJSON (exportJSON (H := sampleHost) e) initialEditor in
  Editor.labelPosition initialEditor = Editor.labelPosition e /\
  Canvas.stationLabels (H := sampleHost) (editorProps e') 1200 700
  = Canvas.stationLabels (H := sampleHost) (editorProps e) 1200 700.
Proof.
  intros e e'. split; [reflexivity|].
  apply (stations_drawn_after_round_trip (H := sampleHost) e initialEditor 1200 700).
  reflexivity.
Defined.

Section LabelsAnyHost.
Context `{Host}.
Variable props : Props.t.

Lemma svg_label_agrees px py offset text :
  label_agrees props (Svg.labelMarkup props (Svg.labelDatum props px py offset text))
               (Canvas.drawLabel props px py offset text).
Proof.
  unfold label_agrees, Svg.labelMarkup, Svg.labelDatum, Canvas.drawLabel.
  unfold Svg.labelAnchor, Canvas.labelAnchor, Svg.isLeft, Canvas.isLeft.
  destruct (Props.labelPosition props);
    cbn [Svg.l_x Svg.l_y Svg.l_txt Svg.l_w Svg.l_h Svg.l_lineFrom Svg.l_isLeft
         l_background l_leader l_text fst snd near_shape];
    (split; [|intros Hl; try discriminate]);
    repeat split; apply near_toFixed2; ring.
Qed.

End LabelsAnyHost.

(** X24.  On every host, whatever width it measures for a text, the two
    renderers draw the same leader line for every label (to two
    decimals), and for the two positions on the right the same text
    anchor.  A leader runs from the body's centre to the point [offset]
    away along both axes. *)
Theorem labels_agree_on_every_host `{Host} (props : Props.t) (w h : Q) :
  Forall2 (label_agrees props) (Svg.labelsMarkup props w h) (Canvas.drawLabels props w h) /\
  (forall px py offset text,
     exists ex ey,
       l_leader (Canvas.drawLabel props px py offset text) = Line px py ex ey /\
       (ex - px) * (ex - px) == offset * offset /\
       (ey - py) * (ey - py) == offset * offset).
Proof.
  split.
  - unfold Svg.labelsMarkup, Svg.labelData, Canvas.drawLabels,
      Canvas.planetLabels, Canvas.stationLabels.
    rewrite fmap_app. apply Forall2_app.
    + apply Forall2_omap_map. intros p.
      destruct (negb (not_false (Planet.showLabel p))); constructor.
      apply svg_label_agrees.
    + apply Forall2_omap_map. intros s.
      destruct (negb (not_false (Station.showLabel s))); constructor.
      apply svg_label_agrees.
  - intros px py offset text.
    unfold Canvas.drawLabel, Canvas.labelAnchor, Canvas.isLeft.
    destruct (Props.labelPosition props); cbn [l_leader];
      eexists _, _; (split; [reflexivity|]); split; ring.
Qed.

(** ** lib/rng: the generator as a counter *)

Section Counter.

Lemma output_congr t1 t2 :
  (t1 mod 4294967296 = t2 mod 4294967296)%Z -> output t1 = output t2.
Proof.
  intros Ht. unfold output, xor32, or32, ushr32.
  rewrite (toInt32_congr t1 t2 Ht), (toUint32_congr t1 t2 Ht). reflexivity.
Qed.

Lemma draws_lookup k : forall t i, (i < k)%nat ->
  draws k t !! i = Some (output (t + (Z.of_nat i + 1) * 0x6d2b79f5) # 4294967296).
Proof.
  induction k as [|k IH]; intros t i Hi; [lia|].
  cbn [draws]. unfold next. destruct i as [|i].
  - reflexivity.
  - rewrite (lookup_cons _ _ (S i)). cbn match. rewrite IH by lia.
    replace (t + 0x6d2b79f5 + (Z.of_nat i + 1) * 0x6d2b79f5)%Z
      with (t + (Z.of_nat (S i) + 1) * 0x6d2b79f5)%Z by lia.
    reflexivity.
Qed.

End Counter.

(** X25.  [mulberry32] is a counter-based generator: its state advances
    by 0x6D2B79F5 at each call and a value depends on the state modulo
    2^32 only, so value number [k] of the stream seeded with [s] is the
    first value of the stream seeded with [s + k * 0x6D2B79F5].  (The
    bound keeps the closure's number within the integers a double
    holds exactly.) *)
Theorem mulberry32_counter (s : Z) (k n : nat) :
  (0 <= s < two32)%Z ->
  (s + Z.of_nat n * 0x6d2b79f5 < 2 ^ 53)%Z ->
  (k < n)%nat ->
  draws n (mulberry32 s) !! k
    = Some (fst (next (mulberry32 (s + Z.of_nat k * 0x6d2b79f5)))).
Proof.
  intros Hs _ Hk. rewrite (draws_lookup n _ k Hk).
  unfold next. cbn [fst]. unfold mulberry32. rewrite !ushr32_0.
  rewrite (toUint32_small s Hs). do 2 f_equal.
  apply output_congr. unfold toUint32, two32.
  rewrite Zplus_mod_idemp_l. f_equal. lia.
Qed.

(** Value 3 of the stream of seed 123456789. *)
Lemma mulberry32_counter_witness :
  draws 4 (mulberry32 123456789) !! 3%nat
    = Some (fst (next (mulberry32 (123456789 + 3 * 0x6d2b79f5)))).
Proof.
  apply (mulberry32_counter 123456789 3 4); [unfold two32; lia|lia|lia].
Defined.

Lemma fold_mixStep_congr (parts parts' : list Z) :
  Forall2 (fun a b => (a mod 4294967296 = b mod 4294967296)%Z) parts parts' ->
  forall h, fold_left mixStep parts h = fold_left mixStep parts' h.
Proof.
  induction 1 as [|a b l l' Hab _ IH]; intros h; [reflexivity|].
  rewrite !fold_left_cons, (mixStep_congr a b Hab). apply IH.
Qed.

(** X26.  [mixSeed] reads each of its parts as a 32-bit word: part lists
    that agree modulo 2^32 entry by entry hash to the same seed, which is
    a non-negative integer below 2^32. *)
Theorem mixSeed_parts_modulo (parts parts' : list Z) :
  Forall2 (fun a b => (a mod 4294967296 = b mod 4294967296)%Z) parts parts' ->
  mixSeed parts = mixSeed parts' /\ (0 <= mixSeed parts < two32)%Z.
Proof.
  intros Hp. split; [|apply mixSeed_range].
  unfold mixSeed. rewrite (fold_mixStep_congr parts parts' Hp). reflexivity.
Qed.

Lemma mixSeed_parts_modulo_witness :
  mixSeed [123456789; 0x6d2b; -1]%Z = mixSeed [123456789 + 4294967296; 0x6d2b; 4294967295]%Z.
Proof.
  apply (mixSeed_parts_modulo [123456789; 0x6d2b; -1]%Z
           [123456789 + 4294967296; 0x6d2b; 4294967295]%Z).
  repeat constructor.
Defined.

(** ** Ring inputs; the canvas surface *)

(** X27.  The gap and width inputs of an enabled ring store a gap between
    0 and 100 and a width between 1 and 80, and keep the ring's other
    parameters and the planet's size.  For these stored values the
    clamps of the renderer change nothing: the ring is drawn with
    horizontal radius [size + gap + width / 2]. *)
Theorem ring_inputs_clamped (e : Editor.t) (i : nat) (p : Planet.t) (r : Ring.t)
    (value x y : Q) :
  planets e !! i = Some p ->
  Planet.rings p = Some r ->
  Ring.enabled r = true ->
  (exists g p1 deg rx ry,
     planets (planetRingGapInput i r value e) !! i = Some p1 /\
     Planet.rings p1
       = Some (Ring.mk true g (Ring.width r) (Ring.color r) (Ring.opacity r)
                 (Ring.flatten r) (Ring.angleDeg r)) /\
     Planet.size p1 = Planet.size p /\
     0 <= g /\ g <= 100 /\
     Canvas.drawRing p1 x y = Some (Rotated deg x y (Ellipse (x + 0) (y + 0) rx ry)) /\
     (1 <= Ring.width r -> rx == Planet.size p + g + Ring.width r / 2)) /\
  (exists wd p1 deg rx ry,
     planets (planetRingWidthInput i r value e) !! i = Some p1 /\
     Planet.rings p1
       = Some (Ring.mk true (Ring.gap r) wd (Ring.color r) (Ring.opacity r)
                 (Ring.flatten r) (Ring.angleDeg r)) /\
     Planet.size p1 = Planet.size p /\
     1 <= wd /\ wd <= 80 /\
     Canvas.drawRing p1 x y = Some (Rotated deg x y (Ellipse (x + 0) (y + 0) rx ry)) /\
     (0 <= Ring.gap r -> rx == Planet.size p + Ring.gap r + wd / 2)).
Proof.
  intros Hp Hr Hen. split.
  - assert (Hlo : 0 <= Qmax 0 (Qmin 100 value)) by apply Q.le_max_l.
    assert (Hhi : Qmax 0 (Qmin 100 value) <= 100)
      by (apply Q.max_lub; [discriminate|apply Q.le_min_l]).
    eexists _, _, _, _, _.
    split; [unfold planetRingGapInput; apply onPlanetChange_lookup, Hp|].
    cbn [applyUpdates Planet.rings Planet.size Override.rings Override.size
         nullish fmap option_fmap option_map].
    rewrite Hen.
    split; [reflexivity|]. split; [reflexivity|].
    split; [exact Hlo|]. split; [exact Hhi|].
    split.
    + unfold Canvas.drawRing.
      cbn [Planet.rings Planet.size Ring.enabled Ring.gap Ring.width Ring.flatten
           Ring.angleDeg translate]. reflexivity.
    + intros Hw.
      cbn [applyUpdates Planet.size Planet.rings Override.size Override.rings nullish
           fmap option_fmap option_map Ring.gap Ring.width].
      pose proof (Q.max_r _ _ Hlo) as Eg. pose proof (Q.max_r _ _ Hw) as Ew.
      remember (Qmax 0 (Qmin 100 value)) as g eqn:Eg'. clear Eg'.
      remember (Qmax 0 g) as g' eqn:Eg'. clear Eg'.
      remember (Qmax 1 (Ring.width r)) as w' eqn:Ew'. clear Ew'.
      unfold Qdiv. change (/ 2) with (1 # 2). lra.
  - assert (Hlo : 1 <= Qmax 1 (Qmin 80 value)) by apply Q.le_max_l.
    assert (Hhi : Qmax 1 (Qmin 80 value) <= 80)
      by (apply Q.max_lub; [discriminate|apply Q.le_min_l]).
    eexists _, _, _, _, _.
    split; [unfold planetRingWidthInput; apply onPlanetChange_lookup, Hp|].
    cbn [applyUpdates Planet.rings Planet.size Override.rings Override.size
         nullish fmap option_fmap option_map].
    rewrite Hen.
    split; [reflexivity|]. split; [reflexivity|].
    split; [exact Hlo|]. split; [exact Hhi|].
    split.
    + unfold Canvas.drawRing.
      cbn [Planet.rings Planet.size Ring.enabled Ring.gap Ring.width Ring.flatten
           Ring.angleDeg translate]. reflexivity.
    + intros Hg.
      cbn [applyUpdates Planet.size Planet.rings Override.size Override.rings nullish
           fmap option_fmap option_map Ring.gap Ring.width].
      pose proof (Q.max_r _ _ Hlo) as Ew. pose proof (Q.max_r _ _ Hg) as Eg.
      remember (Qmax 1 (Qmin 80 value)) as wd eqn:Ew'. clear Ew'.
      remember (Qmax 1 wd) as w' eqn:Ew'. clear Ew'.
      remember (Qmax 0 (Ring.gap r)) as g' eqn:Eg'. clear Eg'.
      unfold Qdiv. change (/ 2) with (1 # 2). lra.
Qed.

(** The generated rings of planet 2 of the default scene are given a
    width of 500. *)
Lemma ring_inputs_clamped_witness :
  exists p r wd p1,
    planets initialEditor !! 2%nat = Some p /\
    Planet.rings p = Some r /\
    planets (planetRingWidthInput 2 r 500 initialEditor) !! 2%nat = Some p1 /\
    Ring.width <$> Planet.rings p1 = Some wd /\ 1 <= wd /\ wd <= 80.
Proof.
  destruct (planets initialEditor !! 2%nat) as [p|] eqn:Hp;
    [|vm_compute in Hp; discriminate].
  destruct (Planet.rings p) as [r|] eqn:Hr;
    [|vm_compute in Hp; injection Hp as <-; discriminate].
  assert (Hen : Ring.enabled r = true).
  { vm_compute in Hp. injection Hp as <-. cbn in Hr. injection Hr as <-. reflexivity. }
  destruct (ring_inputs_clamped initialEditor 2 p r 500 0 0 Hp Hr Hen)
    as [_ [wd [p1 [deg [rx [ry [Hp1 [Hr1 [_ [Hlo [Hhi _]]]]]]]]]]].
  exists p, r, wd, p1. split; [reflexivity|]. split; [exact Hr|].
  split; [exact Hp1|]. rewrite Hr1. split; [reflexivity|]. split; assumption.
Defined.

Lemma Qmax_inject_Z (a b : Z) : Qmax (inject_Z a) (inject_Z b) = inject_Z (Z.max a b).
Proof.
  unfold Qmax, GenericMinMax.gmax, Qcompare. cbn [Qnum Qden inject_Z].
  rewrite !Z.mul_1_r.
  destruct (Z.compare_spec a b) as [->|Hlt|Hgt].
  - now rewrite Z.max_id.
  - now rewrite Z.max_r by lia.
  - now rewrite Z.max_l by lia.
Qed.

Lemma floor_scaled_integer (n : Z) (d : Q) :
  (0 <= n)%Z -> 1 <= d -> d <= 2 ->
  inject_Z n <= Math_floor (inject_Z n * d) /\
  Math_floor (inject_Z n * d) <= 2 * inject_Z n.
Proof.
  intros Hn Hlo Hhi. unfold Math_floor.
  assert (Hn' : 0 <= inject_Z n) by (change 0 with (inject_Z 0); now rewrite <- Zle_Qle).
  split.
  - rewrite <- Zle_Qle. rewrite <- (Qfloor_Z n) at 1.
    apply Qfloor_resp_le. nra.
  - eapply Qle_trans; [apply Qfloor_le|]. nra.
Qed.

(** X28.  The canvas is never set up smaller than 320 by 320 CSS pixels,
    whatever the container measures; the context is scaled by the device
    pixel ratio held between 1 and 2 (1 when the ratio is missing or 0);
    and the backing store has between one and two device pixels per CSS
    pixel along each axis.  A container of 320 pixels or more gets its
    own size rounded down. *)
Theorem canvas_surface (rectWidth rectHeight : Q) (devicePixelRatio : option Q) :
  let s := draw rectWidth rectHeight devicePixelRatio in
  320 <= Surface.styleWidth s /\ 320 <= Surface.styleHeight s /\
  1 <= Surface.scale s /\ Surface.scale s <= 2 /\
  Surface.styleWidth s <= Surface.width s /\
  Surface.width s <= 2 * Surface.styleWidth s /\
  Surface.styleHeight s <= Surface.height s /\
  Surface.height s <= 2 * Surface.styleHeight s /\
  (devicePixelRatio = None \/ devicePixelRatio = Some 0 ->
   Surface.scale s == 1 /\ Surface.width s == Surface.styleWidth s) /\
  (320 <= rectWidth ->
   Surface.styleWidth s <= rectWidth /\ rectWidth < Surface.styleWidth s + 1).
Proof.
  intros s. subst s. unfold draw.
  cbn [Surface.styleWidth Surface.styleHeight Surface.scale Surface.width Surface.height].
  set (ratio := match devicePixelRatio with
                | Some d => if Qeq_bool d 0 then 1 else d
                | None => 1
                end).
  assert (Hd1 : 1 <= Qmax 1 (Qmin 2 ratio)) by apply Q.le_max_l.
  assert (Hd2 : Qmax 1 (Qmin 2 ratio) <= 2)
    by (apply Q.max_lub; [discriminate|apply Q.le_min_l]).
  assert (EW : Qmax 320 (Math_floor rectWidth) = inject_Z (Z.max 320 (Qfloor rectWidth)))
    by apply (Qmax_inject_Z 320).
  assert (EH : Qmax 320 (Math_floor rectHeight) = inject_Z (Z.max 320 (Qfloor rectHeight)))
    by apply (Qmax_inject_Z 320).
  rewrite !EW, !EH. clear EW EH.
  assert (Hw : (0 <= Z.max 320 (Qfloor rectWidth))%Z) by lia.
  assert (Hh : (0 <= Z.max 320 (Qfloor rectHeight))%Z) by lia.
  destruct (floor_scaled_integer _ _ Hw Hd1 Hd2) as [Hw1 Hw2].
  destruct (floor_scaled_integer _ _ Hh Hd1 Hd2) as [Hh1 Hh2].
  split; [change 320 with (inject_Z 320); rewrite <- Zle_Qle; lia|].
  split; [change 320 with (inject_Z 320); rewrite <- Zle_Qle; lia|].
  split; [exact Hd1|]. split; [exact Hd2|].
  split; [exact Hw1|]. split; [exact Hw2|].
  split; [exact Hh1|]. split; [exact Hh2|]. split.
  - intros Hdpr.
    assert (Hr : ratio = 1) by (subst ratio; destruct Hdpr as [-> | ->]; reflexivity).
    rewrite Hr. change (Qmax 1 (Qmin 2 1)) with 1. split; [reflexivity|].
    unfold Math_floor. rewrite Qmult_1_r, Qfloor_Z. reflexivity.
  - intros Hrw.
    assert (Hfl : (320 <= Qfloor rectWidth)%Z).
    { change 320%Z with (Qfloor (inject_Z 320)). now apply Qfloor_resp_le. }
    rewrite Z.max_r by exact Hfl. split; [apply Qfloor_le|].
    pose proof (Qlt_floor rectWidth) as Hlt.
    rewrite inject_Z_plus in Hlt. exact Hlt.
Qed.

(** A container 1280.5 wide and 200 high on a device of pixel ratio 3. *)
Lemma canvas_surface_witness :
  let s := draw 1280.5 200 (Some 3) in
  Surface.styleWidth s <= 1280.5 /\ 1280.5 < Surface.styleWidth s + 1.
Proof.
  intros s.
  destruct (canvas_surface 1280.5 200 (Some 3)) as [_ [_ [_ [_ [_ [_ [_ [_ [_ Hw]]]]]]]]].
  apply Hw. discriminate.
Defined.

(** X29.  A station just added is labelled at once, and its label is the
    empty text: the fallback text "Station" stands in for a missing
    name only, and a new station has the name "".  Both renderers add
    exactly this one label, after those already there. *)
Theorem added_station_label `{Host} (now : Z) (e : Editor.t) (w h : Q) :
  let e' := onAddStation now e in
  (exists l lx ly,
     Canvas.stationLabels (editorProps e') w h
       = Canvas.stationLabels (editorProps e) w h ++ [l] /\
     l_text l = Text lx ly "") /\
  (exists d,
     Svg.labelData (editorProps e') w h = Svg.labelData (editorProps e) w h ++ [d] /\
     Svg.l_txt d = "" /\ Svg.l_w d == 0) /\
  (forall s px py offset,
     Station.name s = None ->
     exists lx ly,
       l_text (Canvas.drawLabel (editorProps e') px py offset
                 (nullish (Station.name s) "Station")) = Text lx ly "Station").
Proof.
  intros e'. split; [|split].
  - set (ds := defaultStation now (length (Editor.stations e))).
    exists (Canvas.drawLabel (editorProps e)
              (w / 2 + Math_cos (Station.angle ds) * Station.radius ds)
              (h / 2 + Math_sin (Station.angle ds) * Station.radius ds)
              (Station.size ds + 10) "").
    assert (Hl : Canvas.stationLabels (editorProps e') w h
                 = Canvas.stationLabels (editorProps e) w h ++
                   [Canvas.drawLabel (editorProps e)
                      (w / 2 + Math_cos (Station.angle ds) * Station.radius ds)
                      (h / 2 + Math_sin (Station.angle ds) * Station.radius ds)
                      (Station.size ds + 10) ""]).
    { unfold Canvas.stationLabels.
      change (Props.stations (editorProps e')) with (Editor.stations e ++ [ds]).
      rewrite omap_app. reflexivity. }
    unfold Canvas.drawLabel, Canvas.labelAnchor in *.
    destruct (Props.labelPosition (editorProps e)); eexists _, _; split;
      (exact Hl || reflexivity).
  - unfold Svg.labelData.
    change (Props.stations (editorProps e'))
      with (Editor.stations e ++ [defaultStation now (length (Editor.stations e))]).
    rewrite omap_app. cbn [omap list_omap defaultStation Station.showLabel not_false negb
      Station.name nullish].
    rewrite app_assoc.
    eexists. split; [reflexivity|].
    unfold Svg.labelDatum, Svg.labelAnchor.
    change (Props.labelPosition (editorProps e')) with (Props.labelPosition (editorProps e)).
    destruct (Props.labelPosition (editorProps e)); cbn [Svg.l_txt Svg.l_w];
      (split; [reflexivity|]); unfold Svg.measure; cbn [String.length Z.of_nat];
      change (inject_Z 0) with 0; ring.
  - intros s px py offset Hn. rewrite Hn. cbn [nullish].
    unfold Canvas.drawLabel, Canvas.labelAnchor.
    change (Props.labelPosition (editorProps e')) with (Props.labelPosition (editorProps e)).
    destruct (Props.labelPosition (editorProps e)); eexists _, _; reflexivity.
Qed.

Lemma added_station_label_witness :
  exists lx ly,
    l_text (Canvas.drawLabel (H := sampleHost)
              (editorProps (onAddStation 1700000000000 sampleEditor)) 600 350 18
              (nullish (Station.name (Station.mk None None 140 0 diamond "#FFD54F" 8 None None))
                 "Station"))
    = Text lx ly "Station".
Proof.
  destruct (added_station_label (H := sampleHost) 1700000000000 sampleEditor 1200 700)
    as [_ [_ Hs]].
  exact (Hs (Station.mk None None 140 0 diamond "#FFD54F" 8 None None) 600 350 18 eq_refl).
Defined.
